(** * aider-desk: the per-project orchestrator (src/main/project.ts)

  A shallow embedding of the [Project] class: its input-history file
  format, cost accounting, commit-message suffix, question/answer
  protocol, addable-file listing, worker shutdown and the prompt queue.

  JavaScript strings are sequences of UTF-16 code units; numbers are
  IEEE-754 binary64 values; files hold bytes, written and read as
  UTF-8. *)

From Stdlib Require Import ZArith NArith List String Ascii Lia.
From Stdlib Require Import Floats.SpecFloat.
From stdpp Require Import base option list gmap.

Local Open Scope N_scope.

(** ** JavaScript strings *)

Module JsString.

(** A string is its list of UTF-16 code units. *)
Abbreviation jsstring := (list N).

(** Code units of an ASCII literal. *)
Fixpoint js (s : string) : jsstring :=
  match s with
  | EmptyString => []
  | String c s' => N_of_ascii c :: js s'
  end.

Definition NL : N := 10.
Definition PLUS : N := 43.

(** [if (s)]: a string is truthy unless it is empty. *)
Definition truthy (s : jsstring) : bool :=
  match s with [] => false | _ :: _ => true end.

(** [s.startsWith(p)] *)
Fixpoint startsWith (p s : jsstring) : bool :=
  match p, s with
  | [], _ => true
  | _ :: _, [] => false
  | a :: p', b :: s' => (a =? b) && startsWith p' s'
  end.

(** [s.substring(1)] *)
Definition substring1 (s : jsstring) : jsstring := tl s.

(** [s.split('\n')]: never empty, [''.split('\n')] is [['']]. *)
Fixpoint split_nl (s : jsstring) : list jsstring :=
  match s with
  | [] => [[]]
  | c :: s' =>
      if c =? NL then [] :: split_nl s'
      else match split_nl s' with
           | [] => [[c]]
           | l :: ls => (c :: l) :: ls
           end
  end.

(** [s.replace(/\n/g, '\n+')] *)
Definition replace_nl (s : jsstring) : jsstring :=
  flat_map (fun c => if c =? NL then [NL; PLUS] else [c]) s.

(** ECMAScript WhiteSpace and LineTerminator code units, the ones
    [String.prototype.trim] strips. *)
Definition isWhiteSpace (c : N) : bool :=
  (c =? 9) || (c =? 10) || (c =? 11) || (c =? 12) || (c =? 13)
  || (c =? 32) || (c =? 160) || (c =? 5760)
  || ((8192 <=? c) && (c <=? 8202))
  || (c =? 8232) || (c =? 8233) || (c =? 8239) || (c =? 8287)
  || (c =? 12288) || (c =? 65279).

Fixpoint dropWhile (f : N -> bool) (s : jsstring) : jsstring :=
  match s with
  | [] => []
  | c :: s' => if f c then dropWhile f s' else s
  end.

Definition trimEnd (s : jsstring) : jsstring :=
  rev (dropWhile isWhiteSpace (rev s)).
Definition trimStart (s : jsstring) : jsstring :=
  dropWhile isWhiteSpace s.

(** [s.trim()] *)
Definition trim (s : jsstring) : jsstring := trimStart (trimEnd s).

(** ASCII letters only: every comparison the orchestrator makes after
    [toLowerCase] is against one of ['a'], ['y'], ['d'], whose only
    preimages are themselves and their ASCII capitals. *)
Definition toLowerCase (s : jsstring) : jsstring :=
  map (fun c => if (65 <=? c) && (c <=? 90) then c + 32 else c) s.

(** [a === b] *)
Fixpoint eqb (a b : jsstring) : bool :=
  match a, b with
  | [], [] => true
  | x :: a', y :: b' => (x =? y) && eqb a' b'
  | _, _ => false
  end.

End JsString.
Import JsString.

(** ** UTF-8, the encoding of the history file

    [fs.appendFile(path, text)] writes the UTF-8 bytes of [text] and
    [fs.readFile(path, 'utf8')] decodes the bytes of the file: a string is
    not stored as its code units. *)

Module Utf8.

(** U+FFFD, the replacement character. *)
Definition REPLACEMENT : N := 65533.

(** Leading (high) and trailing (low) surrogate code units. *)
Definition isHigh (c : N) : bool := (55296 <=? c) && (c <=? 56319).
Definition isLow (c : N) : bool := (56320 <=? c) && (c <=? 57343).

(** A code unit that is no surrogate. *)
Definition plainUnit (c : N) : Prop := isHigh c = false /\ isLow c = false.

(** The code point of a surrogate pair. *)
Definition pairPoint (h l : N) : N := 65536 + (h - 55296) * 1024 + (l - 56320).

(** The UTF-16 code units of a code point. *)
Definition utf16 (cp : N) : jsstring :=
  if cp <? 65536 then [cp]
  else [55296 + (cp - 65536) / 1024; 56320 + (cp - 65536) mod 1024].

(** [s.toWellFormed()]: every surrogate that is not part of a pair
    becomes U+FFFD. *)
Fixpoint toWellFormed (s : jsstring) : jsstring :=
  match s with
  | [] => []
  | c :: s' =>
      if isHigh c then
        match s' with
        | d :: s'' =>
            if isLow d then c :: d :: toWellFormed s''
            else REPLACEMENT :: toWellFormed s'
        | [] => [REPLACEMENT]
        end
      else if isLow c then REPLACEMENT :: toWellFormed s'
      else c :: toWellFormed s'
  end.

(** [s.isWellFormed()] *)
Definition isWellFormed (s : jsstring) : Prop := toWellFormed s = s.

(** Every element of a JavaScript string is a 16-bit code unit. *)
Definition codeUnits (s : jsstring) : Prop := Forall (fun c => c < 65536) s.

(** The bytes of one code point; the shifts and masks of the encoding
    are written as division and remainder by powers of two. *)
Definition encodePoint (cp : N) : list N :=
  if cp <? 128 then [cp]
  else if cp <? 2048 then [192 + cp / 64; 128 + cp mod 64]
  else if cp <? 65536 then
    [224 + cp / 4096; 128 + (cp / 64) mod 64; 128 + cp mod 64]
  else [240 + cp / 262144; 128 + (cp / 4096) mod 64;
        128 + (cp / 64) mod 64; 128 + cp mod 64].

(** The bytes Node writes for a string: a surrogate pair is one code
    point of four bytes, a surrogate on its own is written as U+FFFD. *)
Fixpoint encode (s : jsstring) : list N :=
  match s with
  | [] => []
  | c :: s' =>
      if isHigh c then
        match s' with
        | d :: s'' =>
            if isLow d then encodePoint (pairPoint c d) ++ encode s''
            else encodePoint REPLACEMENT ++ encode s'
        | [] => encodePoint REPLACEMENT
        end
      else if isLow c then encodePoint REPLACEMENT ++ encode s'
      else encodePoint c ++ encode s'
  end.

(** The decoder (the UTF-8 decoder of the WHATWG Encoding standard, which
    V8 follows) is between code points, or inside one: [cp] is what the
    bytes seen so far give, [needed] counts the bytes still to come, and
    the next byte must lie in [lower..upper]. *)
Inductive Decoder :=
| Between
| Inside (cp : N) (needed : nat) (lower upper : N).

(** A byte met between code points. The bounds on the second byte rule
    out overlong forms, surrogates and code points above U+10FFFF. *)
Definition first (b : N) : jsstring * Decoder :=
  if b <? 128 then ([b], Between)
  else if (194 <=? b) && (b <=? 223) then ([], Inside (b - 192) 1 128 191)
  else if (224 <=? b) && (b <=? 239) then
    ([], Inside (b - 224) 2 (if b =? 224 then 160 else 128)
                            (if b =? 237 then 159 else 191))
  else if (240 <=? b) && (b <=? 244) then
    ([], Inside (b - 240) 3 (if b =? 240 then 144 else 128)
                            (if b =? 244 then 143 else 191))
  else ([REPLACEMENT], Between).

(** One byte: what is put out, and the decoder afterwards. A byte that
    cannot continue the code point ends it with U+FFFD and is then read
    again as a first byte. *)
Definition next (st : Decoder) (b : N) : jsstring * Decoder :=
  match st with
  | Between => first b
  | Inside cp needed lower upper =>
      if (lower <=? b) && (b <=? upper) then
        let cp' := cp * 64 + (b - 128) in
        match needed with
        | S (S n) => ([], Inside cp' (S n) 128 191)
        | _ => (utf16 cp', Between)
        end
      else (REPLACEMENT :: (first b).1, (first b).2)
  end.

(** At the end of the bytes an unfinished code point is U+FFFD. *)
Fixpoint decodeFrom (st : Decoder) (bytes : list N) : jsstring :=
  match bytes with
  | [] => match st with Between => [] | Inside _ _ _ _ => [REPLACEMENT] end
  | b :: bytes' => (next st b).1 ++ decodeFrom (next st b).2 bytes'
  end.

(** [buffer.toString('utf8')]; a byte order mark is kept. *)
Definition decode (bytes : list N) : jsstring := decodeFrom Between bytes.

(** The bounds of a decoder inside a code point are those of a
    continuation byte or narrower. *)
Definition steady (st : Decoder) : Prop :=
  match st with
  | Between => True
  | Inside _ _ lower upper => 128 <= lower /\ upper <= 191
  end.

End Utf8.

(** ** Input history (loadInputHistory / addToInputHistory) *)

Module History.

(** The file system as far as the history file is concerned: a map from
    resolved paths to the bytes of the files. *)
Abbreviation FileSystem := (gmap (list N) (list N)).

Section Paths.
(** Node's [path.isAbsolute] and [path.join]. *)
Variable path_isAbsolute : jsstring -> bool.
Variable path_join : jsstring -> jsstring -> jsstring.

Definition historyPath (baseDir inputHistoryFile : jsstring) : jsstring :=
  if path_isAbsolute inputHistoryFile then inputHistoryFile
  else path_join baseDir inputHistoryFile.

(** One iteration of the [for (const line of lines)] loop; the state
    is [(history, currentInput)]. *)
Definition scanLine (st : list jsstring * jsstring) (line : jsstring)
  : list jsstring * jsstring :=
  let '(history, currentInput) := st in
  if startsWith (js "# ") line then
    if truthy currentInput then (history ++ [trim currentInput], [])
    else (history, currentInput)
  else if startsWith (js "+") line then
    (history, currentInput ++ substring1 line ++ [NL])
  else (history, currentInput).

Definition flush (st : list jsstring * jsstring) : list jsstring :=
  let '(history, currentInput) := st in
  if truthy currentInput then history ++ [trim currentInput] else history.

Definition scan (content : jsstring) : list jsstring * jsstring :=
  fold_left scanLine (split_nl content) ([], []).

Definition parseHistory (content : jsstring) : list jsstring :=
  if truthy content then rev (flush (scan content)) else [].

(** [readFile(historyPath, 'utf8')] decodes the bytes of the file; of a
    missing file it throws, and the [catch] returns []. *)
Definition loadInputHistory (baseDir inputHistoryFile : jsstring)
    (fs : FileSystem) : list jsstring :=
  match fs !! historyPath baseDir inputHistoryFile with
  | Some bytes => parseHistory (Utf8.decode bytes)
  | None => []
  end.

Definition formattedMessage (timestamp message : jsstring) : jsstring :=
  NL :: js "# " ++ timestamp ++ NL :: PLUS :: replace_nl message ++ [NL].

(** The bytes of the history file, none when the file is missing. *)
Definition bytesOf (baseDir inputHistoryFile : jsstring) (fs : FileSystem)
  : list N :=
  default [] (fs !! historyPath baseDir inputHistoryFile).

(** The content of the history file as [readFile] decodes it. *)
Definition contentOf (baseDir inputHistoryFile : jsstring) (fs : FileSystem)
  : jsstring :=
  Utf8.decode (bytesOf baseDir inputHistoryFile fs).

(** [fs.appendFile] writes the UTF-8 bytes of the text behind the bytes
    of the file, and creates the file when it does not exist.
    [timestamp] is [new Date().toISOString()] at the time of the call. *)
Definition addToInputHistory (baseDir inputHistoryFile : jsstring)
    (timestamp message : jsstring) (fs : FileSystem) : FileSystem :=
  <[historyPath baseDir inputHistoryFile :=
      bytesOf baseDir inputHistoryFile fs
      ++ Utf8.encode (formattedMessage timestamp message)]> fs.

(** Writing a sequence of [(timestamp, prompt)] pairs, oldest first. *)
Definition addAll (baseDir inputHistoryFile : jsstring)
    (entries : list (jsstring * jsstring)) (fs : FileSystem) : FileSystem :=
  fold_left (fun fs e => addToInputHistory baseDir inputHistoryFile e.1 e.2 fs)
            entries fs.
End Paths.

(** A plain instance of the two path functions, for closed examples. *)
Definition simple_isAbsolute (p : jsstring) : bool := startsWith (js "/") p.
Definition simple_join (a b : jsstring) : jsstring := a ++ js "/" ++ b.

End History.

(** ** JavaScript numbers *)

Module JsNumber.

(** A number is a binary64 value: sign, mantissa and exponent, or a zero,
    an infinity or NaN. *)
Abbreviation number := spec_float.

Definition prec : Z := 53.
Definition emax : Z := 1024.

(** The number nearest to an integer (what a JSON integer literal gives). *)
Definition ofZ (z : Z) : number := binary_normalize prec emax z 0 false.

(** [x / y], rounded to nearest, ties to even. *)
Definition div (x y : number) : number := SFdiv prec emax x y.

(** [if (x)]: zero and NaN are falsy. *)
Definition toBoolean (x : number) : bool :=
  match x with
  | S754_zero _ | S754_nan => false
  | S754_infinity _ | S754_finite _ _ _ => true
  end.

(** [if (x)] on an optional field: [undefined] is falsy too. *)
Definition present (x : option number) : bool :=
  match x with
  | Some v => toBoolean v
  | None => false
  end.

Definition digit (d : Z) : N := 48 + Z.to_N d.

(** The last [width] decimal digits of [n], zero padded. *)
Fixpoint fixedDigits (width : nat) (n : Z) : jsstring :=
  match width with
  | O => []
  | S w => fixedDigits w (n / 10) ++ [digit (n mod 10)]
  end.

Fixpoint decimalFuel (fuel : nat) (n : Z) : jsstring :=
  match fuel with
  | O => []
  | S k =>
      if (n <? 10)%Z then [digit n]
      else decimalFuel k (n / 10) ++ [digit (n mod 10)]
  end.

(** The decimal digits of a natural number, without leading zeros. *)
Definition decimal (n : Z) : jsstring :=
  decimalFuel (S (Z.to_nat (Z.log2 n))) n.

(** The integer [n] for which [n / 10^f] is nearest to [m * 2^e]; of two
    such integers the larger one (Number.prototype.toFixed, step 10.a). *)
Definition scaledNearest (f : nat) (m : positive) (e : Z) : Z :=
  let p := (10 ^ Z.of_nat f)%Z in
  match e with
  | Zneg k => let d := (2 ^ Zpos k)%Z in ((2 * Zpos m * p + d) / (2 * d))%Z
  | _ => (Zpos m * 2 ^ e * p)%Z
  end.

(** [m * 2^e >= 10^21] *)
Definition atLeast1e21 (m : positive) (e : Z) : bool :=
  match e with
  | Zneg k => (10 ^ 21 * 2 ^ Zpos k <=? Zpos m)%Z
  | _ => (10 ^ 21 <=? Zpos m * 2 ^ e)%Z
  end.

Definition pointed (f : nat) (n : Z) : jsstring :=
  match f with
  | O => decimal n
  | S _ => decimal (n / 10 ^ Z.of_nat f) ++ js "."
           ++ fixedDigits f (n mod 10 ^ Z.of_nat f)
  end.

Section ToFixed.
(** Number::toString, which [toFixed] falls back to from 10^21 on. *)
Variable Number_toString : number -> jsstring.

(** [x.toFixed(f)] *)
Definition toFixed (f : nat) (x : number) : jsstring :=
  match x with
  | S754_nan => js "NaN"
  | S754_infinity false => js "Infinity"
  | S754_infinity true => js "-Infinity"
  | S754_zero _ => pointed f 0
  | S754_finite s m e =>
      (if s then js "-" else [])
      ++ (if atLeast1e21 m e then Number_toString (S754_finite false m e)
          else pointed f (scaledNearest f m e))
  end.
End ToFixed.

End JsNumber.
Import JsNumber.

(** ** Data carried by the orchestrator *)

(** Modelled from the spec: the usage report of [@common/types], with the
    fields [project.ts] reads; the two totals may be missing. *)
Module UsageReport.
Record UsageReportData := {
  sentTokens : number;
  receivedTokens : number;
  messageCost : number;
  aiderTotalCost : option number;
  mcpAgentTotalCost : option number;
}.
End UsageReport.
Abbreviation UsageReportData := UsageReport.UsageReportData.

(** Modelled from the spec: the question of [@common/types]; a missing
    [internal] flag is [false]. *)
Module Question.
Record QuestionData := {
  text : jsstring;
  subject : option jsstring;
  key : option jsstring;
  internal : bool;
}.
End Question.
Abbreviation QuestionData := Question.QuestionData.

(** The two values of the type ['y' | 'n']. *)
Inductive YesNo := Yes | No.

Definition yesNoString (a : YesNo) : jsstring :=
  match a with Yes => js "y" | No => js "n" end.

(** Modelled from the spec: the connector interest tags of [./messages]. *)
Inductive MessageAction :=
| AddFile | DropFile | AddMessage | Prompt | RunCommand | AnswerQuestion
| InterruptResponse | ApplyEdits | SetModels.

Definition actionEqb (a b : MessageAction) : bool :=
  match a, b with
  | AddFile, AddFile | DropFile, DropFile | AddMessage, AddMessage
  | Prompt, Prompt | RunCommand, RunCommand | AnswerQuestion, AnswerQuestion
  | InterruptResponse, InterruptResponse | ApplyEdits, ApplyEdits
  | SetModels, SetModels => true
  | _, _ => false
  end.

Record Connector := {
  connectorId : nat;
  listenTo : list MessageAction;
}.

Record ContextFile := {
  path : jsstring;
  readOnly : bool;
}.

(** Modelled from the spec: the message of a connector's response event
    ([./messages]), with the fields [project.ts] reads. *)
Module Message.
Record ResponseMessage := {
  id : option jsstring;
  content : jsstring;
  reflectedMessage : option jsstring;
  finished : bool;
  usageReport : option (jsstring + UsageReportData);
  commitHash : option jsstring;
  commitMessage : option jsstring;
  diff : option jsstring;
}.
End Message.
Abbreviation ResponseMessage := Message.ResponseMessage.

Module Completed.
Record ResponseCompletedData := {
  messageId : option jsstring;
  content : jsstring;
  reflectedMessage : option jsstring;
  commitHash : option jsstring;
  commitMessage : option jsstring;
  diff : option jsstring;
  usageReport : option UsageReportData;
}.
End Completed.
Abbreviation ResponseCompletedData := Completed.ResponseCompletedData.

(** The callbacks stored in [runPromptResolves]. *)
Inductive Waiter :=
| WakeQueued (caller : nat)
    (** [() => resolve()], pushed by a [runPrompt] that found a prompt running *)
| PromptResult (caller : nat).
    (** [resolve], pushed by [sendPrompt] *)

(** What a call of the orchestrator does to the outside. *)
Inductive Effect :=
| SendPromptMessage (connector : nat) (prompt : jsstring) (mode : option jsstring)
    (architectModel : option jsstring) (promptId : option jsstring)
    (clearContext : bool)
| SendAnswerQuestionMessage (connector : nat) (answer : YesNo)
| UiAskQuestion (question : QuestionData)
| UiResponseChunk (messageId : option jsstring) (chunk : jsstring)
| UiResponseCompleted (data : ResponseCompletedData)
| UiClearProject
| UiUserMessage (content : jsstring) (mode : option jsstring)
| UiLog (level : jsstring)
| UiInputHistoryUpdated (messages : list jsstring)
| SessionAddContextMessage (content : jsstring)
| SessionClearMessages
| RemovePidFile
| ResolveQuestion (promise : nat) (answer : YesNo) (userInput : option jsstring)
| InvokeWaiter (waiter : Waiter) (responses : list ResponseCompletedData).

(** [if (x)] on a nullable string. *)
Definition truthyOpt (x : option jsstring) : bool :=
  match x with
  | Some s => truthy s
  | None => false
  end.

(** [a || b] on nullable strings. *)
Definition orElse (a b : option jsstring) : option jsstring :=
  if truthyOpt a then a else b.

(** ** The project *)

Record Project := {
  baseDir : jsstring;
  process : option nat;
  connectors : list Connector;
  currentCommand : option jsstring;
  currentQuestion : option QuestionData;
  currentQuestionPromiseResolve : option nat;
  questionAnswers : gmap (list N) YesNo;
  allTrackedFiles : list jsstring;
  currentResponseMessageId : option jsstring;
  currentPromptId : option jsstring;
  inputHistoryFile : jsstring;
  currentPromptResponses : list ResponseCompletedData;
  runPromptResolves : list Waiter;
  contextFiles : list ContextFile;
  commandOutputs : gmap (list N) (list N);
  architectModel : option jsstring;
  mcpAgentTotalCost : number;
  aiderTotalCost : number;
}.

(** Assignments to the fields the orchestrator writes. *)

Definition set_process (v : option nat) (p : Project) : Project :=
  {| baseDir := baseDir p; process := v; connectors := connectors p;
     currentCommand := currentCommand p;
     currentQuestion := currentQuestion p;
     currentQuestionPromiseResolve := currentQuestionPromiseResolve p;
     questionAnswers := questionAnswers p;
     allTrackedFiles := allTrackedFiles p;
     currentResponseMessageId := currentResponseMessageId p;
     currentPromptId := currentPromptId p;
     inputHistoryFile := inputHistoryFile p;
     currentPromptResponses := currentPromptResponses p;
     runPromptResolves := runPromptResolves p;
     contextFiles := contextFiles p; commandOutputs := commandOutputs p;
     architectModel := architectModel p;
     mcpAgentTotalCost := mcpAgentTotalCost p;
     aiderTotalCost := aiderTotalCost p |}.

Definition set_currentCommand (v : option jsstring) (p : Project) : Project :=
  {| baseDir := baseDir p; process := process p; connectors := connectors p;
     currentCommand := v; currentQuestion := currentQuestion p;
     currentQuestionPromiseResolve := currentQuestionPromiseResolve p;
     questionAnswers := questionAnswers p;
     allTrackedFiles := allTrackedFiles p;
     currentResponseMessageId := currentResponseMessageId p;
     currentPromptId := currentPromptId p;
     inputHistoryFile := inputHistoryFile p;
     currentPromptResponses := currentPromptResponses p;
     runPromptResolves := runPromptResolves p;
     contextFiles := contextFiles p; commandOutputs := commandOutputs p;
     architectModel := architectModel p;
     mcpAgentTotalCost := mcpAgentTotalCost p;
     aiderTotalCost := aiderTotalCost p |}.

Definition set_currentQuestion (v : option QuestionData) (p : Project) : Project :=
  {| baseDir := baseDir p; process := process p; connectors := connectors p;
     currentCommand := currentCommand p; currentQuestion := v;
     currentQuestionPromiseResolve := currentQuestionPromiseResolve p;
     questionAnswers := questionAnswers p;
     allTrackedFiles := allTrackedFiles p;
     currentResponseMessageId := currentResponseMessageId p;
     currentPromptId := currentPromptId p;
     inputHistoryFile := inputHistoryFile p;
     currentPromptResponses := currentPromptResponses p;
     runPromptResolves := runPromptResolves p;
     contextFiles := contextFiles p; commandOutputs := commandOutputs p;
     architectModel := architectModel p;
     mcpAgentTotalCost := mcpAgentTotalCost p;
     aiderTotalCost := aiderTotalCost p |}.

Definition set_currentQuestionPromiseResolve (v : option nat) (p : Project) : Project :=
  {| baseDir := baseDir p; process := process p; connectors := connectors p;
     currentCommand := currentCommand p;
     currentQuestion := currentQuestion p;
     currentQuestionPromiseResolve := v;
     questionAnswers := questionAnswers p;
     allTrackedFiles := allTrackedFiles p;
     currentResponseMessageId := currentResponseMessageId p;
     currentPromptId := currentPromptId p;
     inputHistoryFile := inputHistoryFile p;
     currentPromptResponses := currentPromptResponses p;
     runPromptResolves := runPromptResolves p;
     contextFiles := contextFiles p; commandOutputs := commandOutputs p;
     architectModel := architectModel p;
     mcpAgentTotalCost := mcpAgentTotalCost p;
     aiderTotalCost := aiderTotalCost p |}.

Definition set_questionAnswers (v : gmap (list N) YesNo) (p : Project) : Project :=
  {| baseDir := baseDir p; process := process p; connectors := connectors p;
     currentCommand := currentCommand p;
     currentQuestion := currentQuestion p;
     currentQuestionPromiseResolve := currentQuestionPromiseResolve p;
     questionAnswers := v; allTrackedFiles := allTrackedFiles p;
     currentResponseMessageId := currentResponseMessageId p;
     currentPromptId := currentPromptId p;
     inputHistoryFile := inputHistoryFile p;
     currentPromptResponses := currentPromptResponses p;
     runPromptResolves := runPromptResolves p;
     contextFiles := contextFiles p; commandOutputs := commandOutputs p;
     architectModel := architectModel p;
     mcpAgentTotalCost := mcpAgentTotalCost p;
     aiderTotalCost := aiderTotalCost p |}.

Definition set_currentResponseMessageId (v : option jsstring) (p : Project) : Project :=
  {| baseDir := baseDir p; process := process p; connectors := connectors p;
     currentCommand := currentCommand p;
     currentQuestion := currentQuestion p;
     currentQuestionPromiseResolve := currentQuestionPromiseResolve p;
     questionAnswers := questionAnswers p;
     allTrackedFiles := allTrackedFiles p; currentResponseMessageId := v;
     currentPromptId := currentPromptId p;
     inputHistoryFile := inputHistoryFile p;
     currentPromptResponses := currentPromptResponses p;
     runPromptResolves := runPromptResolves p;
     contextFiles := contextFiles p; commandOutputs := commandOutputs p;
     architectModel := architectModel p;
     mcpAgentTotalCost := mcpAgentTotalCost p;
     aiderTotalCost := aiderTotalCost p |}.

Definition set_currentPromptId (v : option jsstring) (p : Project) : Project :=
  {| baseDir := baseDir p; process := process p; connectors := connectors p;
     currentCommand := currentCommand p;
     currentQuestion := currentQuestion p;
     currentQuestionPromiseResolve := currentQuestionPromiseResolve p;
     questionAnswers := questionAnswers p;
     allTrackedFiles := allTrackedFiles p;
     currentResponseMessageId := currentResponseMessageId p;
     currentPromptId := v; inputHistoryFile := inputHistoryFile p;
     currentPromptResponses := currentPromptResponses p;
     runPromptResolves := runPromptResolves p;
     contextFiles := contextFiles p; commandOutputs := commandOutputs p;
     architectModel := architectModel p;
     mcpAgentTotalCost := mcpAgentTotalCost p;
     aiderTotalCost := aiderTotalCost p |}.

Definition set_currentPromptResponses (v : list ResponseCompletedData) (p : Project) : Project :=
  {| baseDir := baseDir p; process := process p; connectors := connectors p;
     currentCommand := currentCommand p;
     currentQuestion := currentQuestion p;
     currentQuestionPromiseResolve := currentQuestionPromiseResolve p;
     questionAnswers := questionAnswers p;
     allTrackedFiles := allTrackedFiles p;
     currentResponseMessageId := currentResponseMessageId p;
     currentPromptId := currentPromptId p;
     inputHistoryFile := inputHistoryFile p; currentPromptResponses := v;
     runPromptResolves := runPromptResolves p;
     contextFiles := contextFiles p; commandOutputs := commandOutputs p;
     architectModel := architectModel p;
     mcpAgentTotalCost := mcpAgentTotalCost p;
     aiderTotalCost := aiderTotalCost p |}.

Definition set_runPromptResolves (v : list Waiter) (p : Project) : Project :=
  {| baseDir := baseDir p; process := process p; connectors := connectors p;
     currentCommand := currentCommand p;
     currentQuestion := currentQuestion p;
     currentQuestionPromiseResolve := currentQuestionPromiseResolve p;
     questionAnswers := questionAnswers p;
     allTrackedFiles := allTrackedFiles p;
     currentResponseMessageId := currentResponseMessageId p;
     currentPromptId := currentPromptId p;
     inputHistoryFile := inputHistoryFile p;
     currentPromptResponses := currentPromptResponses p;
     runPromptResolves := v; contextFiles := contextFiles p;
     commandOutputs := commandOutputs p; architectModel := architectModel p;
     mcpAgentTotalCost := mcpAgentTotalCost p;
     aiderTotalCost := aiderTotalCost p |}.

Definition set_commandOutputs (v : gmap (list N) (list N)) (p : Project) : Project :=
  {| baseDir := baseDir p; process := process p; connectors := connectors p;
     currentCommand := currentCommand p;
     currentQuestion := currentQuestion p;
     currentQuestionPromiseResolve := currentQuestionPromiseResolve p;
     questionAnswers := questionAnswers p;
     allTrackedFiles := allTrackedFiles p;
     currentResponseMessageId := currentResponseMessageId p;
     currentPromptId := currentPromptId p;
     inputHistoryFile := inputHistoryFile p;
     currentPromptResponses := currentPromptResponses p;
     runPromptResolves := runPromptResolves p;
     contextFiles := contextFiles p; commandOutputs := v;
     architectModel := architectModel p;
     mcpAgentTotalCost := mcpAgentTotalCost p;
     aiderTotalCost := aiderTotalCost p |}.

Definition set_mcpAgentTotalCost (v : number) (p : Project) : Project :=
  {| baseDir := baseDir p; process := process p; connectors := connectors p;
     currentCommand := currentCommand p;
     currentQuestion := currentQuestion p;
     currentQuestionPromiseResolve := currentQuestionPromiseResolve p;
     questionAnswers := questionAnswers p;
     allTrackedFiles := allTrackedFiles p;
     currentResponseMessageId := currentResponseMessageId p;
     currentPromptId := currentPromptId p;
     inputHistoryFile := inputHistoryFile p;
     currentPromptResponses := currentPromptResponses p;
     runPromptResolves := runPromptResolves p;
     contextFiles := contextFiles p; commandOutputs := commandOutputs p;
     architectModel := architectModel p; mcpAgentTotalCost := v;
     aiderTotalCost := aiderTotalCost p |}.

Definition set_aiderTotalCost (v : number) (p : Project) : Project :=
  {| baseDir := baseDir p; process := process p; connectors := connectors p;
     currentCommand := currentCommand p;
     currentQuestion := currentQuestion p;
     currentQuestionPromiseResolve := currentQuestionPromiseResolve p;
     questionAnswers := questionAnswers p;
     allTrackedFiles := allTrackedFiles p;
     currentResponseMessageId := currentResponseMessageId p;
     currentPromptId := currentPromptId p;
     inputHistoryFile := inputHistoryFile p;
     currentPromptResponses := currentPromptResponses p;
     runPromptResolves := runPromptResolves p;
     contextFiles := contextFiles p; commandOutputs := commandOutputs p;
     architectModel := architectModel p;
     mcpAgentTotalCost := mcpAgentTotalCost p; aiderTotalCost := v |}.

(** ** Calls as state transformers

    A call of a method maps the project to a result, the project after
    the call and the effects it had, in order. *)

Definition M (A : Type) : Type := Project -> A * Project * list Effect.

#[global] Instance M_ret : MRet M := fun A a p => (a, p, []).
#[global] Instance M_bind : MBind M := fun A B k m p =>
  match m p with
  | (a, p1, es1) =>
      match k a p1 with
      | (b, p2, es2) => (b, p2, es1 ++ es2)
      end
  end.

Definition get : M Project := fun p => (p, p, []).
Definition modify (f : Project -> Project) : M unit := fun p => (tt, f p, []).
Definition emit (es : list Effect) : M unit := fun p => (tt, p, es).
Definition skip : M unit := mret tt.

(** The project and the effects after a call. *)
Definition after {A} (m : M A) (p : Project) : Project := (m p).1.2.
Definition effects {A} (m : M A) (p : Project) : list Effect := (m p).2.
Definition result {A} (m : M A) (p : Project) : A := (m p).1.1.

(** Normal or abrupt end of a call. *)
Inductive Completion (A : Type) :=
| Normal (a : A)
| Throw (error : jsstring).
Arguments Normal {A} a.
Arguments Throw {A} error.

(** ** Routing *)

Definition includes (action : MessageAction) (l : list MessageAction) : bool :=
  existsb (actionEqb action) l.

Definition findMessageConnectors (action : MessageAction) (p : Project)
  : list Connector :=
  List.filter (fun connector => includes action (listenTo connector))
              (connectors p).

(** ** Cost accounting *)

Definition updateTotalCosts (usageReport : UsageReportData) : M unit :=
  match UsageReport.mcpAgentTotalCost usageReport with
  | Some v => if toBoolean v then modify (set_mcpAgentTotalCost v) else skip
  | None => skip
  end;;
  match UsageReport.aiderTotalCost usageReport with
  | Some v => if toBoolean v then modify (set_aiderTotalCost v) else skip
  | None => skip
  end.

(** ** Questions *)

Definition getQuestionKey (question : QuestionData) : jsstring :=
  if truthyOpt (Question.key question) then default [] (Question.key question)
  else Question.text question ++ js "_"
       ++ default [] (orElse (Question.subject question) (Some [])).

Definition answerQuestion (answer : jsstring) (userInput : option jsstring)
  : M bool :=
  p ← get;
  match currentQuestion p with
  | None => mret false
  | Some question =>
      let normalized := toLowerCase answer in
      let yesNoAnswer :=
        if eqb normalized (js "a") || eqb normalized (js "y") then Yes else No in
      (if eqb normalized (js "d") || eqb normalized (js "a")
       then modify (fun p => set_questionAnswers
                      (<[getQuestionKey question := yesNoAnswer]> (questionAnswers p)) p)
       else skip);;
      (if negb (Question.internal question)
       then emit (map (fun connector =>
                         SendAnswerQuestionMessage (connectorId connector) yesNoAnswer)
                      (findMessageConnectors AnswerQuestion p))
       else skip);;
      modify (set_currentQuestion None);;
      match currentQuestionPromiseResolve p with
      | Some promise =>
          emit [ResolveQuestion promise yesNoAnswer userInput];;
          modify (set_currentQuestionPromiseResolve None);;
          mret true
      | None => mret false
      end
  end.

(** The promise [askQuestion] returns: [Promise.resolve(...)] or a new
    pending promise, named by [promise]. *)
Inductive AskResult :=
| AlreadyResolved (answer : jsstring) (userInput : option jsstring)
| Pending (promise : nat).

Definition askQuestion (questionData : QuestionData) (promise : nat)
  : M AskResult :=
  modify (set_currentQuestion (Some questionData));;
  p ← get;
  match questionAnswers p !! getQuestionKey questionData with
  | Some storedAnswer =>
      (if negb (Question.internal questionData)
       then answerQuestion (yesNoString storedAnswer) None;; skip
       else skip);;
      mret (AlreadyResolved (yesNoString storedAnswer) None)
  | None =>
      modify (set_currentQuestionPromiseResolve (Some promise));;
      emit [UiAskQuestion questionData];;
      mret (Pending promise)
  end.

(** ** Command output *)

Definition closeCommandOutput : M unit :=
  p ← get;
  match currentCommand p with
  | Some command =>
      if truthy command then
        match commandOutputs p !! command with
        | Some output =>
            if truthy output && truthy (trim output)
            then emit [SessionAddContextMessage (command ++ [NL; NL] ++ output)]
            else skip
        | None => skip
        end;;
        modify (fun p => set_commandOutputs (delete command (commandOutputs p)) p);;
        modify (set_currentCommand None)
      else skip
  | None => skip
  end.

(** ** Prompts *)

Definition getArchitectModel (p : Project) : option jsstring :=
  orElse (architectModel p) None.

(** [uuid] is the value of [uuidv4()]; [caller] names the promise that
    [sendPrompt] returns. *)
Definition sendPrompt (caller : nat) (uuid : jsstring) (prompt : jsstring)
    (mode : option jsstring) (clearContext : bool) : M unit :=
  modify (set_currentPromptResponses []);;
  modify (set_currentResponseMessageId None);;
  modify (set_currentPromptId (Some uuid));;
  p ← get;
  emit (map (fun connector =>
               SendPromptMessage (connectorId connector) prompt mode
                 (getArchitectModel p) (currentPromptId p) clearContext)
            (findMessageConnectors Prompt p));;
  modify (fun p => set_runPromptResolves
                     (runPromptResolves p ++ [PromptResult caller]) p).

Definition emptyCompleted (messageId : option jsstring) : ResponseCompletedData :=
  {| Completed.messageId := messageId; Completed.content := [];
     Completed.reflectedMessage := None; Completed.commitHash := None;
     Completed.commitMessage := None; Completed.diff := None;
     Completed.usageReport := None |}.

Definition promptFinished : M unit :=
  p ← get;
  (if truthyOpt (currentResponseMessageId p)
   then emit [UiResponseCompleted (emptyCompleted (currentResponseMessageId p))];;
        modify (set_currentResponseMessageId None)
   else skip);;
  p ← get;
  let responses := currentPromptResponses p in
  modify (set_currentPromptResponses []);;
  modify (set_currentPromptId None);;
  closeCommandOutput;;
  p ← get;
  emit (map (fun resolve => InvokeWaiter resolve responses) (runPromptResolves p));;
  modify (set_runPromptResolves []).

Section Responses.
Variable Number_toString : number -> jsstring.
(** [parseUsageReport] of [@common/utils]; [None] stands for a falsy result. *)
Variable parseUsageReport : jsstring -> option UsageReportData.

Definition resolveUsageReport (message : ResponseMessage)
  : option UsageReportData :=
  match Message.usageReport message with
  | Some (inl text) => if truthy text then parseUsageReport text else None
  | Some (inr report) => Some report
  | None => None
  end.

(** The cost summary appended to a commit message. *)
Definition costSuffix (usageReport : UsageReportData) : jsstring :=
  let inputTokensK :=
    toFixed Number_toString 1 (div (UsageReport.sentTokens usageReport) (ofZ 1000)) in
  let outputTokensK :=
    toFixed Number_toString 1 (div (UsageReport.receivedTokens usageReport) (ofZ 1000)) in
  let cost := toFixed Number_toString 3 (UsageReport.messageCost usageReport) in
  js " i" ++ inputTokensK ++ js "k o" ++ outputTokensK ++ js "k $" ++ cost.

Definition forwardedCommitMessage (message : ResponseMessage)
    (usageReport : option UsageReportData) : option jsstring :=
  match Message.commitMessage message, usageReport with
  | Some commitMessage, Some report =>
      if truthy commitMessage then Some (commitMessage ++ costSuffix report)
      else Some commitMessage
  | commitMessage, _ => commitMessage
  end.

Definition processResponseMessage (uuid : jsstring) (message : ResponseMessage)
  : M (option jsstring) :=
  p ← get;
  (if truthyOpt (currentResponseMessageId p) then skip
   else modify (set_currentResponseMessageId (Some uuid)));;
  p ← get;
  (if negb (Message.finished message) then
     emit [UiResponseChunk (orElse (Message.id message) (currentResponseMessageId p))
                           (Message.content message)]
   else
     let usageReport := resolveUsageReport message in
     match usageReport with
     | Some report => updateTotalCosts report
     | None => skip
     end;;
     let data :=
       {| Completed.messageId := orElse (Message.id message) (currentResponseMessageId p);
          Completed.content := Message.content message;
          Completed.reflectedMessage := Message.reflectedMessage message;
          Completed.commitHash := Message.commitHash message;
          Completed.commitMessage := forwardedCommitMessage message usageReport;
          Completed.diff := Message.diff message;
          Completed.usageReport := usageReport |} in
     emit [UiResponseCompleted data];;
     modify (set_currentResponseMessageId None);;
     closeCommandOutput;;
     modify (fun p => set_currentPromptResponses (currentPromptResponses p ++ [data]) p));;
  p ← get;
  mret (currentResponseMessageId p).
End Responses.

(** ** Stopping the worker *)

(** [treeKill] reports an error or none. The body of the [try] runs after
    the kill has been awaited; [finally] clears the process handle. *)
Definition killAider (treeKill : option jsstring) : M (Completion unit) :=
  p ← get;
  match process p with
  | Some pid =>
      match treeKill with
      | None =>
          emit [RemovePidFile];;
          modify (set_currentCommand None);;
          modify (set_currentQuestion None);;
          modify (set_currentResponseMessageId None);;
          modify (set_currentPromptId None);;
          modify (set_currentPromptResponses []);;
          p ← get;
          emit (map (fun resolve => InvokeWaiter resolve []) (runPromptResolves p));;
          modify (set_runPromptResolves []);;
          emit [SessionClearMessages];;
          modify (set_process None);;
          mret (Normal tt)
      | Some err =>
          modify (set_process None);;
          mret (Throw err)
      end
  | None => mret (Normal tt)
  end.

Definition close (treeKill : option jsstring) : M (Completion unit) :=
  emit [UiClearProject];;
  killAider treeKill.

(** The ['close'] handler of the worker process, installed by [runAider]:
    it writes a log line. *)
Definition onProcessClose (code : Z) : M unit := skip.

(** ** Addable files *)

Section AddableFiles.
(** [new RegExp(pattern, 'i')]: the [test] function of the expression, or
    the SyntaxError it throws. *)
Variable RegExp_new : jsstring -> Completion (jsstring -> bool).

Definition has (paths : list jsstring) (file : jsstring) : bool :=
  existsb (eqb file) paths.

Definition addable (p : Project) : list jsstring :=
  let contextFilePaths := map path (contextFiles p) in
  List.filter (fun file => negb (has contextFilePaths file)) (allTrackedFiles p).

Definition getAddableFiles (searchRegex : option jsstring) (p : Project)
  : Completion (list jsstring) :=
  let files := addable p in
  match searchRegex with
  | Some pattern =>
      if truthy pattern then
        match RegExp_new pattern with
        | Normal test => Normal (List.filter test files)
        | Throw error => Normal files
        end
      else Normal files
  | None => Normal files
  end.
End AddableFiles.

(** ** Callers of runPrompt

    [runPrompt] is an async function: a call runs until it suspends at an
    [await] and resumes when the awaited promise settles. A caller is the
    prompt it submitted and the point at which it is suspended. *)

Module Scheduler.

Inductive Pc :=
| Queued          (** at [await new Promise(...)], waiting for the running prompt *)
| AwaitHistory    (** at [await this.addToInputHistory(prompt)] *)
| AwaitAgent      (** at [await this.agent.runAgent(this, prompt)] *)
| AwaitResponses  (** at [await this.sendPrompt(prompt, mode)] *)
| Returned (responses : list ResponseCompletedData).

Record Caller := {
  prompt : jsstring;
  mode : option jsstring;
  pc : Pc;
}.

Definition at_pc (c : Caller) (v : Pc) : Caller :=
  {| prompt := prompt c; mode := mode c; pc := v |}.

Record World := {
  project : Project;
  callers : list Caller;
  files : History.FileSystem;
  trace : list Effect;
}.

(** What happens to a project: calls from the UI, events from the
    connectors and the system, and settled awaits. *)
Inductive Event :=
| EvRunPrompt (prompt : jsstring) (mode : option jsstring)
| EvHistoryWritten (caller : nat) (timestamp uuid : jsstring)
| EvAgentFinished (caller : nat)
| EvPromptFinished
| EvKillAider (treeKill : option jsstring)
| EvProcessClosed (code : Z)
| EvAskQuestion (question : QuestionData) (promise : nat)
| EvAnswerQuestion (answer : jsstring) (userInput : option jsstring).

(** The callback of a waiter runs: a queued caller goes on to write the
    history, a caller of [sendPrompt] returns the responses. *)
Definition resume (e : Effect) (cs : list Caller) : list Caller :=
  match e with
  | InvokeWaiter (WakeQueued i) _ =>
      alter (fun c => match pc c with Queued => at_pc c AwaitHistory | _ => c end) i cs
  | InvokeWaiter (PromptResult i) responses =>
      alter (fun c => match pc c with
                      | AwaitResponses => at_pc c (Returned responses)
                      | _ => c
                      end) i cs
  | _ => cs
  end.

Definition settle (es : list Effect) (cs : list Caller) : list Caller :=
  fold_left (fun cs e => resume e cs) es cs.

(** A call on the project of a world. *)
Definition call {A} (m : M A) (w : World) : A * World :=
  let r := m (project w) in
  (r.1.1, {| project := r.1.2; callers := settle r.2 (callers w);
             files := files w; trace := trace w ++ r.2 |}).

Definition isAgent (mode : option jsstring) : bool :=
  match mode with
  | Some m => eqb m (js "agent")
  | None => false
  end.

(** [runPrompt] from its entry to its first suspension. *)
Definition runPrompt_enter (me : nat) (prompt : jsstring) : M Pc :=
  p ← get;
  consumed ← match currentQuestion p with
             | Some _ => answerQuestion (js "n") (Some prompt)
             | None => mret false
             end;
  if (consumed : bool) then mret (Returned [])
  else
    p ← get;
    if truthyOpt (currentPromptId p) then
      modify (fun p => set_runPromptResolves
                         (runPromptResolves p ++ [WakeQueued me]) p);;
      mret Queued
    else mret AwaitHistory.

(** [runPrompt] from the end of [addToInputHistory] to its next
    suspension. *)
Definition runPrompt_afterHistory (me : nat) (uuid : jsstring)
    (prompt : jsstring) (mode : option jsstring) : M Pc :=
  emit [UiUserMessage prompt mode; UiLog (js "loading")];;
  if isAgent mode then mret AwaitAgent
  else sendPrompt me uuid prompt mode false;; mret AwaitResponses.

Section Steps.
Variable path_isAbsolute : jsstring -> bool.
Variable path_join : jsstring -> jsstring -> jsstring.

(** The end of [addToInputHistory]: the entry is in the file, the file
    was read again and the UI was told. The append, the read and the
    event are taken as one step. In the code they are separate awaits
    during which the caller stays suspended; a run in which other events
    fall between them differs from the run with one step only in the
    files in between and in the history this event carries. *)
Definition writeHistory (timestamp message : jsstring) (w : World) : World :=
  let p := project w in
  let fs := History.addToInputHistory path_isAbsolute path_join
              (baseDir p) (inputHistoryFile p) timestamp message (files w) in
  {| project := p; callers := callers w; files := fs;
     trace := trace w ++ [UiInputHistoryUpdated
                (History.loadInputHistory path_isAbsolute path_join
                   (baseDir p) (inputHistoryFile p) fs)] |}.

Definition with_callers (cs : list Caller) (w : World) : World :=
  {| project := project w; callers := cs; files := files w; trace := trace w |}.

Definition step (ev : Event) (w : World) : World :=
  match ev with
  | EvRunPrompt prompt mode =>
      let me := length (callers w) in
      let r := call (runPrompt_enter me prompt) w in
      with_callers (callers r.2 ++ [{| prompt := prompt; mode := mode; pc := r.1 |}]) r.2
  | EvHistoryWritten i timestamp uuid =>
      match callers w !! i with
      | Some c =>
          match pc c with
          | AwaitHistory =>
              let w1 := writeHistory timestamp (prompt c) w in
              let r := call (runPrompt_afterHistory i uuid (prompt c) (mode c)) w1 in
              with_callers (alter (fun c => at_pc c r.1) i (callers r.2)) r.2
          | _ => w
          end
      | None => w
      end
  | EvAgentFinished i =>
      with_callers
        (alter (fun c => match pc c with AwaitAgent => at_pc c (Returned []) | _ => c end)
               i (callers w)) w
  | EvPromptFinished => (call promptFinished w).2
  | EvKillAider treeKill => (call (killAider treeKill) w).2
  | EvProcessClosed code => (call (onProcessClose code) w).2
  | EvAskQuestion question promise => (call (askQuestion question promise) w).2
  | EvAnswerQuestion answer userInput => (call (answerQuestion answer userInput) w).2
  end.

Definition run (evs : list Event) (w : World) : World :=
  fold_left (fun w ev => step ev w) evs w.

(** The prompt commands a step routes to the connectors. *)
Definition routed (ev : Event) (w : World) : list Effect :=
  List.filter (fun e => match e with SendPromptMessage _ _ _ _ _ _ => true | _ => false end)
              (drop (length (trace w)) (trace (step ev w))).
End Steps.

End Scheduler.

(** A project as its constructor leaves it. *)
Definition newProject (baseDir : jsstring) : Project :=
  {| baseDir := baseDir; process := None; connectors := [];
     currentCommand := None; currentQuestion := None;
     currentQuestionPromiseResolve := None; questionAnswers := ∅;
     allTrackedFiles := []; currentResponseMessageId := None;
     currentPromptId := None; inputHistoryFile := js ".aider.input.history";
     currentPromptResponses := []; runPromptResolves := [];
     contextFiles := []; commandOutputs := ∅; architectModel := None;
     mcpAgentTotalCost := ofZ 0; aiderTotalCost := ofZ 0 |}.

(** A project with one more registered connector (the registration
    itself, without the replay [addConnector] does). *)
Definition withConnector (connector : Connector) (p : Project) : Project :=
  {| baseDir := baseDir p; process := process p;
     connectors := connectors p ++ [connector];
     currentCommand := currentCommand p; currentQuestion := currentQuestion p;
     currentQuestionPromiseResolve := currentQuestionPromiseResolve p;
     questionAnswers := questionAnswers p; allTrackedFiles := allTrackedFiles p;
     currentResponseMessageId := currentResponseMessageId p;
     currentPromptId := currentPromptId p; inputHistoryFile := inputHistoryFile p;
     currentPromptResponses := currentPromptResponses p;
     runPromptResolves := runPromptResolves p; contextFiles := contextFiles p;
     commandOutputs := commandOutputs p; architectModel := architectModel p;
     mcpAgentTotalCost := mcpAgentTotalCost p; aiderTotalCost := aiderTotalCost p |}.

(** ** Vocabulary of the statements *)

#[global] Instance MessageAction_eq_dec : EqDecision MessageAction.
Proof. solve_decision. Defined.

(** A report carries the value [v] for a total: the field is there and
    its value is truthy. *)
Definition carries (x : option number) (v : number) : Prop :=
  x = Some v /\ toBoolean v = true.

(** The field of a report is missing or is a zero. *)
Definition zeroOrAbsent (x : option number) : Prop :=
  x = None \/ exists s, x = Some (S754_zero s).

(** The project after a sequence of usage reports, oldest first. *)
Definition afterReports (reports : list UsageReportData) (p : Project) : Project :=
  fold_left (fun p report => after (updateTotalCosts report) p) reports p.

(** A number below 10^21 in magnitude, the range in which [toFixed]
    prints plain decimals. *)
Definition plain (x : number) : Prop :=
  match x with
  | S754_zero _ => True
  | S754_finite _ m e => atLeast1e21 m e = false
  | S754_infinity _ | S754_nan => False
  end.

Definition isDigit (c : N) : bool := (48 <=? c) && (c <=? 57).

(** [s] is a decimal numeral with exactly [k] digits after its point. *)
Definition decimals (k : nat) (s : jsstring) : Prop :=
  exists whole frac,
    s = whole ++ js "." ++ frac
    /\ length frac = k
    /\ Forall (fun c => isDigit c = true) frac
    /\ 46 ∉ whole.

(** Single flight, for a run of events from a world: no step routes a
    prompt command while a prompt is running. *)
Definition singleFlight (path_isAbsolute : jsstring -> bool)
    (path_join : jsstring -> jsstring -> jsstring)
    (evs : list Scheduler.Event) (w : Scheduler.World) : Prop :=
  forall before ev rest,
    evs = before ++ ev :: rest ->
    let w' := Scheduler.run path_isAbsolute path_join before w in
    truthyOpt (currentPromptId (Scheduler.project w')) = true ->
    Scheduler.routed path_isAbsolute path_join ev w' = [].

(** ** Closed examples *)

Module Example.

Definition worker : Connector :=
  {| connectorId := 0; listenTo := [Prompt; AnswerQuestion] |}.

(** A started project with the worker's connector attached. *)
Definition started : Project :=
  set_process (Some 4242%nat) (withConnector worker (newProject (js "/repo"))).

Definition world (p : Project) : Scheduler.World :=
  {| Scheduler.project := p; Scheduler.callers := [];
     Scheduler.files := ∅; Scheduler.trace := [] |}.

Definition stamp : jsstring := js "2025-04-01T10:00:00.000Z".

(** A prompt runs, two more callers queue behind it, the turn finishes,
    and both queued callers go on. *)
Definition twoQueued : list Scheduler.Event :=
  [ Scheduler.EvRunPrompt (js "a") None;
    Scheduler.EvHistoryWritten 0 stamp (js "id-a");
    Scheduler.EvRunPrompt (js "b") None;
    Scheduler.EvRunPrompt (js "c") None;
    Scheduler.EvPromptFinished;
    Scheduler.EvHistoryWritten 1 stamp (js "id-b") ].

Definition lastQueued : Scheduler.Event :=
  Scheduler.EvHistoryWritten 2 stamp (js "id-c").

(** Two callers enter while no prompt is running. *)
Definition twoIdle : list Scheduler.Event :=
  [ Scheduler.EvRunPrompt (js "a") None;
    Scheduler.EvRunPrompt (js "b") None;
    Scheduler.EvHistoryWritten 0 stamp (js "id-a") ].

Definition lastIdle : Scheduler.Event :=
  Scheduler.EvHistoryWritten 1 stamp (js "id-b").

Definition run := Scheduler.run History.simple_isAbsolute History.simple_join.
Definition step := Scheduler.step History.simple_isAbsolute History.simple_join.
Definition routed := Scheduler.routed History.simple_isAbsolute History.simple_join.

Definition addFile : QuestionData :=
  {| Question.text := js "Add file to the chat?"; Question.subject := Some (js "a.ts");
     Question.key := None; Question.internal := false |}.

Definition runShell : QuestionData :=
  {| Question.text := js "Run shell command?"; Question.subject := None;
     Question.key := None; Question.internal := false |}.

(** A unit is running for caller 0 and caller 1 is queued behind it. *)
Definition running : Project :=
  set_runPromptResolves [PromptResult 0; WakeQueued 1]
    (set_currentPromptId (Some (js "id-a")) started).

(** The report of the spec's scenario: 2000 tokens sent, 500 received,
    cost 0.012. *)
Definition report : UsageReportData :=
  {| UsageReport.sentTokens := ofZ 2000; UsageReport.receivedTokens := ofZ 500;
     UsageReport.messageCost := div (ofZ 12) (ofZ 1000);
     UsageReport.aiderTotalCost := None; UsageReport.mcpAgentTotalCost := None |}.

Definition fixMessage : ResponseMessage :=
  {| Message.id := None; Message.content := js "done";
     Message.reflectedMessage := None; Message.finished := true;
     Message.usageReport := Some (inr report); Message.commitHash := None;
     Message.commitMessage := Some (js "fix"); Message.diff := None |}.

(** A stand-in for the expression engine: it refuses every pattern with an
    opening parenthesis and otherwise accepts every file. *)
Definition regExp (pattern : jsstring) : Completion (jsstring -> bool) :=
  if existsb (N.eqb 40) pattern then Throw (js "SyntaxError")
  else Normal (fun _ => true).

Definition tracked : Project :=
  {| baseDir := js "/repo"; process := None; connectors := [];
     currentCommand := None; currentQuestion := None;
     currentQuestionPromiseResolve := None; questionAnswers := ∅;
     allTrackedFiles := [js "a.ts"; js "b.ts"; js "c.ts"];
     currentResponseMessageId := None; currentPromptId := None;
     inputHistoryFile := js ".aider.input.history";
     currentPromptResponses := []; runPromptResolves := [];
     contextFiles := [{| path := js "b.ts"; readOnly := false |}];
     commandOutputs := ∅; architectModel := None;
     mcpAgentTotalCost := ofZ 0; aiderTotalCost := ofZ 0 |}.

(** Two prompts, the older one of two lines. *)
Definition clean : list (jsstring * jsstring) :=
  [ (stamp, js "fix the bug" ++ [NL] ++ js "in parse()");
    (js "2025-04-01T10:05:00.000Z", js "now add a test") ].

(** Two prompts with white space at their ends: the older one ends with
    a newline, the newer one begins with a space. *)
Definition padded : list (jsstring * jsstring) :=
  [ (stamp, js "fix" ++ [NL] ++ js "it" ++ [NL]);
    (js "2025-04-01T10:05:00.000Z", js " hi") ].

Definition load : History.FileSystem -> list jsstring :=
  History.loadInputHistory History.simple_isAbsolute History.simple_join
    (js "/repo") (js ".aider.input.history").

Definition addAll : list (jsstring * jsstring) -> History.FileSystem -> History.FileSystem :=
  History.addAll History.simple_isAbsolute History.simple_join
    (js "/repo") (js ".aider.input.history").

End Example.

(** * More of the orchestrator *)

(** ** Output of the worker process *)

(** What the calls below do to the outside, beyond the effects above. *)
Inductive Output :=
| Core (e : Effect)
| UiCommandOutput (command output : jsstring)
| UiLogMessage (level : jsstring) (message : option jsstring)
| SendRunCommandMessage (connector : nat) (command : jsstring)
| AppendHistory (message : jsstring).
    (** [void this.addToInputHistory(message)]: the write is started *)

Definition addCommandOutput (command output : jsstring) (p : Project)
  : Project * list Output :=
  let prev := default [] (commandOutputs p !! command) in
  (set_commandOutputs (<[command := prev ++ output]> (commandOutputs p)) p,
   [UiCommandOutput command output]).

Definition openCommandOutput (command : jsstring) (p : Project)
  : Project * list Output :=
  addCommandOutput command []
    (set_commandOutputs (<[command := []]> (commandOutputs p))
       (set_currentCommand (Some command) p)).

(** The ['data'] handler of the worker's standard output. *)
Definition onStdout (output : jsstring) (p : Project) : Project * list Output :=
  match currentCommand p with
  | Some command =>
      if truthy command then addCommandOutput command output p else (p, [])
  | None => (p, [])
  end.

(** Standard output arriving in several pieces. *)
Definition onStdoutAll (outputs : list jsstring) (p : Project) : Project * list Output :=
  fold_left (fun r output => let r' := onStdout output r.1 in (r'.1, r.2 ++ r'.2))
            outputs (p, []).

(** [s.indexOf(needle)]; [None] stands for -1. *)
Fixpoint indexOf (needle s : jsstring) : option nat :=
  if startsWith needle s then Some O
  else match s with
       | [] => None
       | _ :: s' => S <$> indexOf needle s'
       end.

(** The ['data'] handler of the worker's standard error: what it shows
    to the UI. *)
Definition onStderr (output : jsstring) : list Output :=
  if startsWith (js "Warning:") output then []
  else if startsWith (js "usage:") output then
    [UiLogMessage (js "error")
       (Some match indexOf (js "error:") output with
             | Some i => drop i output
             | None => output
             end)]
  else [].

(** ** Running a command *)

Definition runCommand (command : jsstring) (addToHistory : bool) (p : Project)
  : Project * list Output :=
  let r := match currentQuestion p with
           | Some _ => answerQuestion (js "n") None p
           | None => (false, p, [])
           end in
  (r.1.2,
   map Core r.2
   ++ (if addToHistory then [AppendHistory (js "/" ++ command)] else [])
   ++ map (fun connector => SendRunCommandMessage (connectorId connector) command)
          (findMessageConnectors RunCommand r.1.2)).

(** ** The arguments of the worker *)

Module Launch.

Definition QUOTE : N := 34.

Definition emitToken (token : jsstring) : list jsstring :=
  if truthy token then [token] else [].

(** The matches of [/(?:[^\sQ]+|Q[^Q]*Q)+/g] in [s], left to right,
    where Q stands for the double quote of the source: a
    match is a longest run of characters that are neither white space nor
    quotes and of quoted segments. [token] is the match under way;
    [quoted] says that the scan is inside a quoted segment, which it
    enters only when a closing quote follows. A quote without a closing
    one ends the match before it and is skipped. *)
Fixpoint matchOptions (s : jsstring) (token : jsstring) (quoted : bool)
  : list jsstring :=
  match s with
  | [] => emitToken token
  | c :: s' =>
      if quoted then matchOptions s' (token ++ [c]) (negb (c =? QUOTE))
      else if isWhiteSpace c then emitToken token ++ matchOptions s' [] false
      else if c =? QUOTE then
        if existsb (N.eqb QUOTE) s' then matchOptions s' (token ++ [c]) true
        else emitToken token ++ matchOptions s' [] false
      else matchOptions s' (token ++ [c]) false
  end.

(** [options.match(...) || []] *)
Definition rawOptionsArgs (options : jsstring) : list jsstring :=
  matchOptions options [] false.

(** [s.endsWith(Q)], Q the double quote *)
Definition endsWithQuote (s : jsstring) : bool :=
  match last s with
  | Some c => c =? QUOTE
  | None => false
  end.

(** [arg.startsWith(Q) && arg.endsWith(Q) ? arg.slice(1, -1) : arg] *)
Definition unquoteArg (arg : jsstring) : jsstring :=
  if startsWith [QUOTE] arg && endsWithQuote arg then removelast (tl arg)
  else arg.

(** The loop over [rawOptionsArgs]: [--model] and the argument after it
    are skipped, the other arguments lose their quotes. *)
Fixpoint processedOptionsArgs (raw : list jsstring) : list jsstring :=
  match raw with
  | [] => []
  | arg :: rest =>
      if eqb arg (js "--model") then
        match rest with
        | [] => []
        | _ :: rest' => processedOptionsArgs rest'
        end
      else unquoteArg arg :: processedOptionsArgs rest
  end.

(** The settings [runAider] reads: the free-text options and the models
    of the project. [mainModel] is [projectSettings.mainModel ||
    DEFAULT_MAIN_MODEL]. *)
Record Settings := {
  options : jsstring;
  mainModel : jsstring;
  weakModel : option jsstring;
  reasoningEffort : option jsstring;
  thinkingTokens : option jsstring;
}.

Definition optionalFlag (flag : jsstring) (value : option jsstring)
    (raw : list jsstring) : list jsstring :=
  match value with
  | Some v => if has raw flag then [] else [flag; v]
  | None => []
  end.

Definition args (s : Settings) : list jsstring :=
  let raw := rawOptionsArgs (options s) in
  [js "-m"; js "connector"]
  ++ processedOptionsArgs raw
  ++ [js "--no-check-update"; js "--no-show-model-warnings"]
  ++ [js "--model"; mainModel s]
  ++ (if truthyOpt (weakModel s) then [js "--weak-model"; default [] (weakModel s)] else [])
  ++ optionalFlag (js "--reasoning-effort") (reasoningEffort s) raw
  ++ optionalFlag (js "--thinking-tokens") (thinkingTokens s) raw.

(** Words joined by single spaces. *)
Fixpoint joinSpace (words : list jsstring) : jsstring :=
  match words with
  | [] => []
  | [w] => w
  | w :: ws => w ++ js " " ++ joinSpace ws
  end.

(** A word of an option string: not empty, without white space and
    without quotes. *)
Definition word (w : jsstring) : Prop :=
  w <> [] /\ Forall (fun c => isWhiteSpace c = false /\ c <> QUOTE) w.

End Launch.

(** ** The store (src/main/store/store.ts) *)

Module Store.

(** A value of a settings object. *)
Inductive JsValue :=
| VString (s : jsstring)
| VBool (b : bool)
| VNumber (n : number).

(** A settings object, as its properties. *)
Abbreviation ProjectSettings := (gmap (list N) JsValue).

(** Modelled from the spec: the project entry of [@common/types]. *)
Record ProjectData := {
  baseDir : jsstring;
  settings : option ProjectSettings;
  active : option bool;
}.

(** The part of the persisted schema that holds the projects; a key that
    was never set reads as [None]. *)
Record Schema := {
  openProjects : option (list ProjectData);
  recentProjects : option (list jsstring);
}.

Definition DEFAULT_MAIN_MODEL : jsstring := js "deepseek/deepseek-chat".

Definition DEFAULT_PROJECT_SETTINGS : ProjectSettings :=
  {[ js "mainModel" := VString DEFAULT_MAIN_MODEL;
     js "currentMode" := VString (js "code");
     js "renderMarkdown" := VBool false ]}.

Section Projects.
(** [normalizeBaseDir] of [@common/utils]. *)
Variable normalizeBaseDir : jsstring -> jsstring.

Definition compareBaseDirs (baseDir1 baseDir2 : jsstring) : bool :=
  eqb (normalizeBaseDir baseDir1) (normalizeBaseDir baseDir2).

Definition getOpenProjects (s : Schema) : list ProjectData :=
  default [] (openProjects s).

Definition setOpenProjects (projects : list ProjectData) (s : Schema) : Schema :=
  {| openProjects := Some projects; recentProjects := recentProjects s |}.

Definition setRecentProjects (recent : list jsstring) (s : Schema) : Schema :=
  {| openProjects := openProjects s; recentProjects := Some recent |}.

Definition getRecentProjects (s : Schema) : list jsstring :=
  let recent := default [] (recentProjects s) in
  let openProjectBaseDirs := map baseDir (getOpenProjects s) in
  List.filter
    (fun baseDir =>
       negb (existsb (fun openProjectBaseDir =>
                        compareBaseDirs openProjectBaseDir baseDir)
                     openProjectBaseDirs))
    recent.

Definition addRecentProject (baseDir : jsstring) (s : Schema) : Schema :=
  let recent := default [] (recentProjects s) in
  let filtered :=
    List.filter (fun recentProject => negb (compareBaseDirs recentProject baseDir))
                recent in
  setRecentProjects (take 10 (baseDir :: filtered)) s.

Definition removeRecentProject (baseDir : jsstring) (s : Schema) : Schema :=
  let recent := getRecentProjects s in
  setRecentProjects (List.filter (fun p => negb (compareBaseDirs p baseDir)) recent) s.

(** [{ ...DEFAULT_PROJECT_SETTINGS, ...project?.settings }]: the
    properties of the project's settings, and the defaults for the
    others. *)
Definition getProjectSettings (baseDir' : jsstring) (s : Schema) : ProjectSettings :=
  let project := List.find (fun p => compareBaseDirs (baseDir p) baseDir')
                           (getOpenProjects s) in
  default ∅ (project ≫= settings) ∪ DEFAULT_PROJECT_SETTINGS.

(** [projects.findIndex(...)]; [None] stands for -1. *)
Fixpoint findIndex (f : ProjectData -> bool) (projects : list ProjectData)
  : option nat :=
  match projects with
  | [] => None
  | p :: rest => if f p then Some O else S <$> findIndex f rest
  end.

(** The schema after the call; the call returns [settings']. *)
Definition saveProjectSettings (baseDir' : jsstring) (settings' : ProjectSettings)
    (s : Schema) : Schema :=
  let projects := getOpenProjects s in
  match findIndex (fun project => compareBaseDirs (baseDir project) baseDir') projects with
  | Some projectIndex =>
      match projects !! projectIndex with
      | Some project =>
          setOpenProjects
            (<[projectIndex := {| baseDir := baseDir project;
                                  settings := Some settings';
                                  active := active project |}]> projects) s
      | None => s
      end
  | None => s
  end.
End Projects.

Section Migration.
(** The settings object and the three migrations of [./migrations]. *)
Variable SettingsData : Type.
Variable migrateSettingsV0toV1 : SettingsData -> SettingsData.
Variable migrateSettingsV1toV2 : SettingsData -> SettingsData.
Variable migrateSettingsV2toV3 : SettingsData -> SettingsData.

(** The part of the persisted schema that holds the settings. *)
Record Persisted := {
  storedSettings : option SettingsData;
  settingsVersion : option number;
}.

Definition CURRENT_SETTINGS_VERSION : number := ofZ 3.

Definition lessThan (x y : number) : bool := SFltb x y.
Definition strictEquals (x y : number) : bool := SFeqb x y.

(** One [if (settingsVersion === v) { settings = f(settings); settingsVersion = v + 1 }]. *)
Definition migrationStep (v : Z) (f : SettingsData -> SettingsData)
    (r : SettingsData * number) : SettingsData * number :=
  if strictEquals r.2 (ofZ v) then (f r.1, ofZ (v + 1)) else r.

(** [migrate(settings)]: the migrated settings and the store after it. *)
Definition migrate (settings : SettingsData) (s : Persisted)
  : SettingsData * Persisted :=
  let settingsVersion := default CURRENT_SETTINGS_VERSION (settingsVersion s) in
  if lessThan settingsVersion CURRENT_SETTINGS_VERSION then
    let r := migrationStep 2 migrateSettingsV2toV3
               (migrationStep 1 migrateSettingsV1toV2
                  (migrationStep 0 migrateSettingsV0toV1 (settings, settingsVersion))) in
    (r.1, {| storedSettings := Some r.1;
             settingsVersion := Some CURRENT_SETTINGS_VERSION |})
  else (settings, s).
End Migration.

End Store.

(** ** Vocabulary of the further statements *)

Definition isInvoke (e : Effect) : bool :=
  match e with
  | InvokeWaiter _ _ => true
  | _ => false
  end.

(** The callback that resumes caller [i] when it is suspended at [pc]:
    only callers waiting for the running prompt or for their responses
    depend on one. *)
Definition callbackOf (i : nat) (pc : Scheduler.Pc) : option Waiter :=
  match pc with
  | Scheduler.Queued => Some (WakeQueued i)
  | Scheduler.AwaitResponses => Some (PromptResult i)
  | _ => None
  end.

(** Every caller that depends on a callback has it in
    [runPromptResolves]. *)
Definition registered (w : Scheduler.World) : Prop :=
  forall i c waiter,
    Scheduler.callers w !! i = Some c ->
    callbackOf i (Scheduler.pc c) = Some waiter ->
    waiter ∈ runPromptResolves (Scheduler.project w).

(** The project after a sequence of response messages, oldest first,
    each with the value [uuidv4()] would give at its arrival. *)
Definition afterResponses (Number_toString : number -> jsstring)
    (parseUsageReport : jsstring -> option UsageReportData)
    (messages : list (jsstring * ResponseMessage)) (p : Project) : Project :=
  fold_left (fun p m => after (processResponseMessage Number_toString parseUsageReport
                                 m.1 m.2) p)
            messages p.

(** The finished ones among the messages. *)
Definition finishedOnes (messages : list (jsstring * ResponseMessage))
  : list ResponseMessage :=
  List.filter Message.finished (map snd messages).

(** ** More closed examples *)

Module Sample.

(** A question of the agent that the worker is not told about. *)
Definition approveTool : QuestionData :=
  {| Question.text := js "Approve the tool call?"; Question.subject := None;
     Question.key := Some (js "tool:search"); Question.internal := true |}.

(** The started project with [Example.addFile] asked and pending. *)
Definition asking : Project :=
  after (askQuestion Example.addFile 1) Example.started.

(** The started project with the internal question asked and pending. *)
Definition askingInternal : Project :=
  after (askQuestion approveTool 1) Example.started.

(** A question left open without a waiter. *)
Definition stale : Project := set_currentQuestion (Some Example.addFile) Example.started.

Definition chunk (text : string) : ResponseMessage :=
  {| Message.id := None; Message.content := js text;
     Message.reflectedMessage := None; Message.finished := false;
     Message.usageReport := None; Message.commitHash := None;
     Message.commitMessage := None; Message.diff := None |}.

(** A directory is normalised by dropping one final slash. *)
Definition normalize (dir : jsstring) : jsstring :=
  match last dir with
  | Some 47 => removelast dir
  | _ => dir
  end.

Definition store : Store.Schema :=
  {| Store.openProjects :=
       Some [ {| Store.baseDir := js "/work/app"; Store.settings := None;
                 Store.active := Some true |};
              {| Store.baseDir := js "/work/lib";
                 Store.settings := Some {[ js "mainModel" := Store.VString (js "gpt-4o") ]};
                 Store.active := None |} ];
     Store.recentProjects := Some [js "/work/old"; js "/work/app/"] |}.

Definition saved : Store.ProjectSettings :=
  {[ js "currentMode" := Store.VString (js "architect") ]}.

(** The started project with two more connectors: one that does not
    listen to answers and one that listens to nothing else. *)
Definition observed : Project :=
  withConnector {| connectorId := 2; listenTo := [AnswerQuestion] |}
    (withConnector {| connectorId := 1; listenTo := [AddFile; DropFile] |}
       Example.started).

(** A report whose count of sent tokens is infinite, as [JSON.parse]
    reads the literal [1e999]. *)
Definition overflowReport : UsageReportData :=
  {| UsageReport.sentTokens := S754_infinity false;
     UsageReport.receivedTokens := ofZ 500;
     UsageReport.messageCost := div (ofZ 12) (ofZ 1000);
     UsageReport.aiderTotalCost := None; UsageReport.mcpAgentTotalCost := None |}.

Definition overflowMessage : ResponseMessage :=
  {| Message.id := None; Message.content := js "done";
     Message.reflectedMessage := None; Message.finished := true;
     Message.usageReport := Some (inr overflowReport); Message.commitHash := None;
     Message.commitMessage := Some (js "fix"); Message.diff := None |}.

(** A grinning face (U+1F600, a surrogate pair), a space, and a high
    surrogate without its partner. *)
Definition smile : jsstring := [55357; 56832; 32; 55357].

(** Two prompts outside ASCII: the older one of two lines, with U+00EF
    and U+2615. *)
Definition accented : list (jsstring * jsstring) :=
  [ (Example.stamp, js "na" ++ [239] ++ js "ve" ++ [NL; 9749]);
    (js "2025-04-01T10:05:00.000Z", smile) ].

(** A history file that was cut inside a code point: its last byte is
    the first of the two bytes of U+00E9. *)
Definition torn : History.FileSystem :=
  {[ js "/repo/.aider.input.history"
     := [10; 35; 32; 116; 10; 43; 99; 97; 102; 195] ]}.

End Sample.

(** ** Callers that come one at a time *)

Definition isPromptSend (e : Effect) : bool :=
  match e with
  | SendPromptMessage _ _ _ _ _ _ => true
  | _ => false
  end.

(** A caller that has entered [runPrompt] and has not reached
    [sendPrompt] or the agent yet. *)
Definition entering (c : Scheduler.Caller) : bool :=
  match Scheduler.pc c with
  | Scheduler.Queued | Scheduler.AwaitHistory => true
  | _ => false
  end.

(** At most one caller is entering, and while a caller is writing the
    history no prompt is running. *)
Definition serial (w : Scheduler.World) : Prop :=
  (forall i j ci cj,
     Scheduler.callers w !! i = Some ci -> Scheduler.callers w !! j = Some cj ->
     entering ci = true -> entering cj = true -> i = j)
  /\ (forall i c,
        Scheduler.callers w !! i = Some c ->
        Scheduler.pc c = Scheduler.AwaitHistory ->
        truthyOpt (currentPromptId (Scheduler.project w)) = false).

(** In a run, [runPrompt] is called only when no earlier caller is still
    entering. *)
Fixpoint oneAtATime (path_isAbsolute : jsstring -> bool)
    (path_join : jsstring -> jsstring -> jsstring)
    (evs : list Scheduler.Event) (w : Scheduler.World) : Prop :=
  match evs with
  | [] => True
  | ev :: evs' =>
      match ev with
      | Scheduler.EvRunPrompt _ _ =>
          Forall (fun c => entering c = false) (Scheduler.callers w)
      | _ => True
      end
      /\ oneAtATime path_isAbsolute path_join evs'
           (Scheduler.step path_isAbsolute path_join ev w)
  end.

Module Serial.

(** Three prompts, each submitted after the one before it was sent. *)
Definition events : list Scheduler.Event :=
  [ Scheduler.EvRunPrompt (js "a") None;
    Scheduler.EvHistoryWritten 0 Example.stamp (js "id-a");
    Scheduler.EvRunPrompt (js "b") None;
    Scheduler.EvPromptFinished;
    Scheduler.EvHistoryWritten 1 Example.stamp (js "id-b");
    Scheduler.EvRunPrompt (js "c") None;
    Scheduler.EvPromptFinished;
    Scheduler.EvHistoryWritten 2 Example.stamp (js "id-c") ].

End Serial.

(** ** Answers that stay remembered *)

(** An answer that is remembered: [d] or [a], in either case. *)
Definition remembered (answer : jsstring) : bool :=
  eqb (toLowerCase answer) (js "d") || eqb (toLowerCase answer) (js "a").

(** In a run, no remembered answer is given while the question that is
    open has the key [k]. *)
Fixpoint untouched (path_isAbsolute : jsstring -> bool)
    (path_join : jsstring -> jsstring -> jsstring) (k : jsstring)
    (evs : list Scheduler.Event) (w : Scheduler.World) : Prop :=
  match evs with
  | [] => True
  | ev :: evs' =>
      match ev with
      | Scheduler.EvAnswerQuestion answer _ =>
          remembered answer = true ->
          forall question,
            currentQuestion (Scheduler.project w) = Some question ->
            getQuestionKey question <> k
      | _ => True
      end
      /\ untouched path_isAbsolute path_join k evs'
           (Scheduler.step path_isAbsolute path_join ev w)
  end.

Module Recall.

(** A prompt runs and finishes, another question is asked and answered
    with "don't ask again", and the worker is stopped. *)
Definition events : list Scheduler.Event :=
  [ Scheduler.EvRunPrompt (js "a") None;
    Scheduler.EvHistoryWritten 0 Example.stamp (js "id-a");
    Scheduler.EvAskQuestion Example.runShell 2;
    Scheduler.EvAnswerQuestion (js "d") None;
    Scheduler.EvPromptFinished;
    Scheduler.EvKillAider None ].

End Recall.

(** * Properties *)

(** ** Lines *)

Lemma split_nl_nonempty (s : jsstring) : split_nl s <> [].
Proof.
  destruct s as [|c s]; simpl; [discriminate|].
  destruct (c =? NL); [discriminate|].
  destruct (split_nl s); discriminate.
Qed.

Lemma split_nl_app_nl (a b : jsstring) :
  split_nl (a ++ NL :: b) = split_nl a ++ split_nl b.
Proof.
  induction a as [|c a IH]; simpl.
  - reflexivity.
  - destruct (c =? NL); [now rewrite IH|].
    rewrite IH. pose proof (split_nl_nonempty a) as Hne.
    destruct (split_nl a); [contradiction|reflexivity].
Qed.

Lemma split_nl_line (s : jsstring) : NL ∉ s -> split_nl s = [s].
Proof.
  induction s as [|c s IH]; intros Hnl; simpl; [reflexivity|].
  apply not_elem_of_cons in Hnl as [Hc Hs].
  destruct (N.eqb_spec c NL) as [->|_]; [contradiction|].
  now rewrite (IH Hs).
Qed.

Lemma split_nl_cons (c : N) (s : jsstring) :
  c <> NL ->
  split_nl (c :: s) = (c :: hd [] (split_nl s)) :: tl (split_nl s).
Proof.
  intros Hc. simpl. destruct (N.eqb_spec c NL) as [?|_]; [contradiction|].
  pose proof (split_nl_nonempty s) as Hne.
  destruct (split_nl s); [contradiction|reflexivity].
Qed.

Lemma split_nl_entry (m : jsstring) :
  split_nl (PLUS :: replace_nl m ++ [NL]) = map (cons PLUS) (split_nl m) ++ [[]].
Proof.
  assert (Hplus : PLUS <> NL) by discriminate.
  induction m as [|c m IH]; [reflexivity|].
  rewrite split_nl_cons in IH by assumption.
  rewrite split_nl_cons by assumption.
  unfold replace_nl in *. cbn [flat_map].
  destruct (N.eqb_spec c NL) as [->|Hc].
  - change ([NL; PLUS] ++ ?x) with (NL :: PLUS :: x). cbn [app].
    change (split_nl (NL :: ?x)) with ([] :: split_nl x).
    rewrite split_nl_cons by assumption. rewrite IH. reflexivity.
  - cbn [app]. rewrite !split_nl_cons by assumption.
    pose proof (split_nl_nonempty m) as Hne.
    destruct (split_nl m) as [|l ls]; [contradiction|].
    cbn [map app hd tl] in *. now inversion IH.
Qed.

Lemma lines_concat (m : jsstring) :
  concat (map (fun l => l ++ [NL]) (split_nl m)) = m ++ [NL].
Proof.
  induction m as [|c m IH]; simpl; [reflexivity|].
  destruct (N.eqb_spec c NL) as [->|_]; simpl; [now rewrite IH|].
  pose proof (split_nl_nonempty m) as Hne.
  destruct (split_nl m) as [|l ls]; [contradiction|].
  simpl in *. now rewrite IH.
Qed.

Lemma trim_app_nl (m : jsstring) : trim (m ++ [NL]) = trim m.
Proof. unfold trim, trimEnd. now rewrite rev_app_distr. Qed.

(** ** UTF-8 *)

Section Utf8Facts.
Import Utf8.

Ltac divlia := zify; Z.to_euclidean_division_equations; lia.

Lemma first_ascii (b : N) : b < 128 -> first b = ([b], Between).
Proof. intros H. unfold first. now apply N.ltb_lt in H as ->. Qed.

Lemma next_continue (cp : N) (n : nat) (lo hi b : N) :
  lo <= b -> b <= hi ->
  next (Inside cp n lo hi) b
  = match n with
    | S (S m) => ([], Inside (cp * 64 + (b - 128)) (S m) 128 191)
    | _ => (utf16 (cp * 64 + (b - 128)), Between)
    end.
Proof.
  intros Hlo Hhi. unfold next.
  apply N.leb_le in Hlo as ->. apply N.leb_le in Hhi as ->. reflexivity.
Qed.

Lemma first_two (b : N) :
  194 <= b -> b <= 223 -> first b = ([], Inside (b - 192) 1 128 191).
Proof.
  intros H1 H2. unfold first.
  destruct (N.ltb_spec b 128); [lia|].
  apply N.leb_le in H1 as ->. apply N.leb_le in H2 as ->. reflexivity.
Qed.

Lemma first_three (b : N) :
  224 <= b -> b <= 239 ->
  first b = ([], Inside (b - 224) 2 (if b =? 224 then 160 else 128)
                                    (if b =? 237 then 159 else 191)).
Proof.
  intros H1 H2. unfold first.
  destruct (N.ltb_spec b 128); [lia|].
  destruct (N.leb_spec 194 b); [|lia]. destruct (N.leb_spec b 223); [lia|].
  apply N.leb_le in H1 as ->. apply N.leb_le in H2 as ->. reflexivity.
Qed.

Lemma first_four (b : N) :
  240 <= b -> b <= 244 ->
  first b = ([], Inside (b - 240) 3 (if b =? 240 then 144 else 128)
                                    (if b =? 244 then 143 else 191)).
Proof.
  intros H1 H2. unfold first.
  destruct (N.ltb_spec b 128); [lia|].
  destruct (N.leb_spec 194 b); [|lia]. destruct (N.leb_spec b 223); [lia|].
  destruct (N.leb_spec 224 b); [|lia]. destruct (N.leb_spec b 239); [lia|].
  apply N.leb_le in H1 as ->. apply N.leb_le in H2 as ->. reflexivity.
Qed.

(** A code point that is no surrogate is decoded from its bytes. *)
Lemma decode_encodePoint (cp : N) (rest : list N) :
  cp < 1114112 -> ~ (55296 <= cp <= 57343) ->
  decodeFrom Between (encodePoint cp ++ rest) = utf16 cp ++ decodeFrom Between rest.
Proof.
  intros Hmax Hsur. unfold encodePoint.
  destruct (N.ltb_spec cp 128) as [H1|H1].
  { cbn [app decodeFrom next]. rewrite first_ascii by assumption.
    unfold utf16. destruct (N.ltb_spec cp 65536); [reflexivity|lia]. }
  destruct (N.ltb_spec cp 2048) as [H2|H2].
  { cbn [app decodeFrom next]. rewrite first_two by divlia. cbn [fst snd app].
    rewrite next_continue by divlia. cbn [fst snd].
    replace ((192 + cp / 64 - 192) * 64 + (128 + cp mod 64 - 128)) with cp by divlia.
    reflexivity. }
  destruct (N.ltb_spec cp 65536) as [H3|H3].
  { cbn [app decodeFrom next]. rewrite first_three by divlia. cbn [fst snd app].
    rewrite next_continue.
    2:{ destruct (N.eqb_spec (224 + cp / 4096) 224); divlia. }
    2:{ destruct (N.eqb_spec (224 + cp / 4096) 237); divlia. }
    cbn [fst snd app]. rewrite next_continue by divlia. cbn [fst snd].
    replace (((224 + cp / 4096 - 224) * 64 + (128 + (cp / 64) mod 64 - 128)) * 64
             + (128 + cp mod 64 - 128)) with cp by divlia.
    reflexivity. }
  cbn [app decodeFrom next]. rewrite first_four by divlia. cbn [fst snd app].
  rewrite next_continue.
  2:{ destruct (N.eqb_spec (240 + cp / 262144) 240); divlia. }
  2:{ destruct (N.eqb_spec (240 + cp / 262144) 244); divlia. }
  cbn [fst snd app]. rewrite next_continue by divlia.
  cbn [fst snd app]. rewrite next_continue by divlia. cbn [fst snd].
  replace ((((240 + cp / 262144 - 240) * 64 + (128 + (cp / 4096) mod 64 - 128)) * 64
            + (128 + (cp / 64) mod 64 - 128)) * 64 + (128 + cp mod 64 - 128))
    with cp by divlia.
  reflexivity.
Qed.

Lemma decode_replacement (rest : list N) :
  decodeFrom Between (encodePoint REPLACEMENT ++ rest)
  = REPLACEMENT :: decodeFrom Between rest.
Proof. apply (decode_encodePoint REPLACEMENT); unfold REPLACEMENT; lia. Qed.

Lemma utf16_pair (h l : N) :
  isHigh h = true -> isLow l = true -> utf16 (pairPoint h l) = [h; l].
Proof.
  unfold isHigh, isLow, utf16, pairPoint. intros Hh Hl.
  apply andb_true_iff in Hh as [Hh1 Hh2]. apply andb_true_iff in Hl as [Hl1 Hl2].
  apply N.leb_le in Hh1, Hh2, Hl1, Hl2.
  destruct (N.ltb_spec (65536 + (h - 55296) * 1024 + (l - 56320)) 65536); [lia|].
  f_equal; [|f_equal]; divlia.
Qed.

(** Reading back the bytes of a string gives the string with its lone
    surrogates replaced. *)
Lemma decode_encode_app (s : jsstring) (rest : list N) :
  codeUnits s ->
  decodeFrom Between (encode s ++ rest) = toWellFormed s ++ decodeFrom Between rest.
Proof.
  remember (length s) as n eqn:Hn. revert s Hn.
  induction n as [n IH] using lt_wf_ind. intros s Hn Hs. subst n.
  destruct s as [|c s]; [reflexivity|].
  apply Forall_cons in Hs as [Hc Hs]. cbn [encode toWellFormed].
  destruct (isHigh c) eqn:Hhigh.
  - destruct s as [|d s].
    + rewrite decode_replacement. reflexivity.
    + destruct (isLow d) eqn:Hlow.
      * apply Forall_cons in Hs as [Hd Hs].
        rewrite <- app_assoc, decode_encodePoint, utf16_pair by
          (try assumption; unfold isHigh, isLow, pairPoint in *;
           apply andb_true_iff in Hhigh as [? ?]; apply andb_true_iff in Hlow as [? ?];
           rewrite ?N.leb_le in *; lia).
        cbn [app]. do 2 f_equal. apply (IH (length s)); [cbn; lia|reflexivity|assumption].
      * rewrite <- app_assoc, decode_replacement. cbn [app]. f_equal.
        apply (IH (length (d :: s))); [cbn; lia|reflexivity|assumption].
  - destruct (isLow c) eqn:Hlow.
    + rewrite <- app_assoc, decode_replacement. cbn [app]. f_equal.
      apply (IH (length s)); [cbn; lia|reflexivity|assumption].
    + rewrite <- app_assoc, decode_encodePoint.
      * unfold utf16. apply N.ltb_lt in Hc as Hc'. rewrite Hc'. cbn [app]. f_equal.
        apply (IH (length s)); [cbn; lia|reflexivity|assumption].
      * lia.
      * unfold isHigh, isLow in *. intros [? ?].
        apply andb_false_iff in Hhigh, Hlow. rewrite !N.leb_gt in *. lia.
Qed.

Lemma decode_encode (s : jsstring) :
  codeUnits s -> decode (encode s) = toWellFormed s.
Proof.
  intros Hs. unfold decode.
  rewrite <- (app_nil_r (encode s)), decode_encode_app by assumption.
  apply app_nil_r.
Qed.

Lemma first_steady (b : N) : steady (first b).2.
Proof.
  unfold first.
  repeat match goal with
         | |- context [if ?c then _ else _] => destruct c
         end; cbn; lia.
Qed.

Lemma next_steady (st : Decoder) (b : N) : steady (next st b).2.
Proof.
  destruct st as [|cp n lo hi]; [apply first_steady|]. unfold next.
  destruct ((lo <=? b) && (b <=? hi)).
  - destruct n as [|[|n]]; cbn; lia.
  - apply first_steady.
Qed.

(** Bytes behind any others are decoded on their own when they begin
    with an ASCII byte: a code point left unfinished before them ends in
    U+FFFD either way. *)
Lemma decodeFrom_app (bytes : list N) (st : Decoder) (b : N) (more : list N) :
  steady st -> b < 128 ->
  decodeFrom st (bytes ++ b :: more)
  = decodeFrom st bytes ++ decodeFrom Between (b :: more).
Proof.
  intros Hst Hb. revert st Hst.
  induction bytes as [|x bytes IH]; intros st Hst.
  - destruct st as [|cp n lo hi]; [reflexivity|].
    cbn [app decodeFrom next] in *. destruct Hst as [Hlo _].
    destruct (N.leb_spec lo b); [lia|]. reflexivity.
  - cbn [app decodeFrom]. rewrite IH by apply next_steady.
    now rewrite app_assoc.
Qed.

Lemma encode_ascii (c : N) (s : jsstring) :
  c < 128 -> encode (c :: s) = c :: encode s.
Proof.
  intros Hc. cbn [encode]. unfold isHigh, isLow, encodePoint.
  destruct (N.leb_spec 55296 c); [lia|]. destruct (N.leb_spec 56320 c); [lia|].
  cbn [andb]. now apply N.ltb_lt in Hc as ->.
Qed.

(** What is read after text that begins with an ASCII character was
    appended to a file, whatever bytes the file held. *)
Lemma decode_append (bytes : list N) (c : N) (s : jsstring) :
  c < 128 -> codeUnits (c :: s) ->
  decode (bytes ++ encode (c :: s)) = decode bytes ++ toWellFormed (c :: s).
Proof.
  intros Hc Hs. unfold decode.
  rewrite encode_ascii, decodeFrom_app by (assumption || exact I).
  rewrite <- encode_ascii by assumption.
  now rewrite <- (decode_encode (c :: s)).
Qed.

Lemma toWellFormed_plain (c : N) (s : jsstring) :
  plainUnit c -> toWellFormed (c :: s) = c :: toWellFormed s.
Proof. intros [Hh Hl]. cbn [toWellFormed]. now rewrite Hh, Hl. Qed.

Lemma toWellFormed_lone (c d : N) (s : jsstring) :
  isLow d = false ->
  toWellFormed (c :: d :: s)
  = (if isHigh c || isLow c then REPLACEMENT else c) :: toWellFormed (d :: s).
Proof.
  intros Hd. cbn [toWellFormed]. rewrite Hd.
  destruct (isHigh c); [reflexivity|]. now destruct (isLow c).
Qed.

Lemma toWellFormed_pair (c d : N) (s : jsstring) :
  isHigh c = true -> isLow d = true ->
  toWellFormed (c :: d :: s) = c :: d :: toWellFormed s.
Proof. intros Hc Hd. cbn [toWellFormed]. now rewrite Hc, Hd. Qed.

Lemma toWellFormed_low (c : N) (s : jsstring) :
  isHigh c = false ->
  toWellFormed (c :: s) = (if isLow c then REPLACEMENT else c) :: toWellFormed s.
Proof. intros Hc. cbn [toWellFormed]. rewrite Hc. now destruct (isLow c). Qed.

Lemma toWellFormed_app (a b : jsstring) (c : N) :
  plainUnit c ->
  toWellFormed (a ++ c :: b) = toWellFormed a ++ c :: toWellFormed b.
Proof.
  intros Hc. remember (length a) as n eqn:Hn. revert a Hn.
  induction n as [n IH] using lt_wf_ind. intros a ->.
  destruct a as [|x [|d a]].
  - now apply toWellFormed_plain.
  - cbn [app]. rewrite toWellFormed_lone by apply Hc.
    rewrite toWellFormed_plain by assumption. cbn [toWellFormed].
    destruct (isHigh x); [reflexivity|]. now destruct (isLow x).
  - pose proof (IH (length (d :: a)) ltac:(cbn; lia) (d :: a) eq_refl) as IH1.
    pose proof (IH (length a) ltac:(cbn; lia) a eq_refl) as IH2.
    change ((x :: d :: a) ++ c :: b) with (x :: (d :: a) ++ c :: b) in *.
    destruct (isLow d) eqn:Hd.
    + destruct (isHigh x) eqn:Hx.
      * change ((d :: a) ++ c :: b) with (d :: a ++ c :: b).
        rewrite !toWellFormed_pair by assumption. now rewrite IH2.
      * rewrite !(toWellFormed_low x) by assumption. now rewrite IH1.
    + change ((d :: a) ++ c :: b) with (d :: a ++ c :: b) in *.
      rewrite !toWellFormed_lone by assumption. now rewrite IH1.
Qed.

(** Replacing lone surrogates adds no code unit but U+FFFD. *)
Lemma toWellFormed_elem (s : jsstring) (x : N) :
  x ∈ toWellFormed s -> x ∈ s \/ x = REPLACEMENT.
Proof.
  remember (length s) as n eqn:Hn. revert s Hn.
  induction n as [n IH] using lt_wf_ind. intros s ->.
  destruct s as [|c [|d s]].
  - intros H. now left.
  - cbn [toWellFormed]. destruct (isHigh c); [|destruct (isLow c)];
      rewrite !elem_of_cons; intros [->|H]; auto.
  - pose proof (IH (length (d :: s)) ltac:(cbn; lia) (d :: s) eq_refl) as IH1.
    pose proof (IH (length s) ltac:(cbn; lia) s eq_refl) as IH2.
    destruct (isLow d) eqn:Hd.
    + destruct (isHigh c) eqn:Hc.
      * rewrite toWellFormed_pair by assumption. rewrite !elem_of_cons.
        intros [->|[->|H]]; auto. destruct (IH2 H); auto.
      * rewrite toWellFormed_low by assumption.
        rewrite elem_of_cons. intros [->|H].
        -- destruct (isLow c); auto. left. apply elem_of_cons. now left.
        -- destruct (IH1 H) as [H'|H']; auto. left. apply elem_of_cons. now right.
    + rewrite toWellFormed_lone by assumption.
      rewrite elem_of_cons. intros [->|H].
      * destruct (isHigh c || isLow c); auto. left. apply elem_of_cons. now left.
      * destruct (IH1 H) as [H'|H']; auto. left. apply elem_of_cons. now right.
Qed.

Lemma toWellFormed_no_nl (s : jsstring) : NL ∉ s -> NL ∉ toWellFormed s.
Proof.
  intros Hs Hin. apply toWellFormed_elem in Hin as [Hin|Hin]; [auto|discriminate].
Qed.

Lemma replace_nl_cons (c : N) (s : jsstring) :
  replace_nl (c :: s) = (if c =? NL then [NL; PLUS] else [c]) ++ replace_nl s.
Proof. reflexivity. Qed.

Lemma plain_NL : plainUnit NL.
Proof. now split. Qed.

Lemma plain_PLUS : plainUnit PLUS.
Proof. now split. Qed.

Lemma replace_nl_head (d : N) (s : jsstring) :
  exists t, replace_nl (d :: s) = d :: t.
Proof.
  rewrite replace_nl_cons. destruct (N.eqb_spec d NL) as [->|_]; cbn; eauto.
Qed.

Lemma surrogate_not_NL (c : N) : isHigh c || isLow c = true -> (c =? NL) = false.
Proof.
  intros H. destruct (N.eqb_spec c NL) as [->|]; [discriminate|reflexivity].
Qed.

(** Replacing lone surrogates and prefixing the lines commute. *)
Lemma toWellFormed_replace_nl (s : jsstring) :
  toWellFormed (replace_nl s) = replace_nl (toWellFormed s).
Proof.
  remember (length s) as n eqn:Hn. revert s Hn.
  induction n as [n IH] using lt_wf_ind. intros s ->.
  assert (Hrep : (REPLACEMENT =? NL) = false) by reflexivity.
  destruct s as [|c s]; [reflexivity|].
  pose proof (IH (length s) ltac:(cbn; lia) s eq_refl) as IH1.
  destruct (isHigh c) eqn:Hc.
  - assert (Hcn : (c =? NL) = false) by (apply surrogate_not_NL; now rewrite Hc).
    rewrite replace_nl_cons, Hcn. cbn [app].
    destruct s as [|d s].
    + cbn [toWellFormed replace_nl flat_map]. rewrite Hc. cbn [flat_map].
      now rewrite Hrep.
    + destruct (replace_nl_head d s) as [t Ht].
      destruct (isLow d) eqn:Hd.
      * assert (Hdn : (d =? NL) = false)
          by (apply surrogate_not_NL; rewrite Hd; apply orb_true_r).
        rewrite replace_nl_cons, Hdn. cbn [app].
        rewrite !toWellFormed_pair by assumption.
        rewrite !replace_nl_cons, Hcn, Hdn. cbn [app].
        now rewrite (IH (length s) ltac:(cbn; lia) s eq_refl).
      * rewrite Ht, !toWellFormed_lone by assumption. rewrite Hc. cbn [orb].
        rewrite <- Ht, IH1, replace_nl_cons, Hrep. reflexivity.
  - rewrite (toWellFormed_low c s) by assumption.
    destruct (isLow c) eqn:Hl.
    + assert (Hcn : (c =? NL) = false)
        by (apply surrogate_not_NL; rewrite Hl; apply orb_true_r).
      rewrite !replace_nl_cons, Hcn, Hrep. cbn [app].
      rewrite toWellFormed_low, Hl by assumption. now rewrite IH1.
    + rewrite !replace_nl_cons. destruct (c =? NL) eqn:Hcn.
      * cbn [app]. rewrite !toWellFormed_plain by (apply plain_NL || apply plain_PLUS).
        now rewrite IH1.
      * cbn [app]. rewrite toWellFormed_plain by now split. now rewrite IH1.
Qed.

(** What is read back of one written entry. *)
Lemma toWellFormed_formattedMessage (timestamp message : jsstring) :
  toWellFormed (History.formattedMessage timestamp message)
  = History.formattedMessage (toWellFormed timestamp) (toWellFormed message).
Proof.
  unfold History.formattedMessage. cbn [js app].
  rewrite !toWellFormed_plain by now split.
  rewrite toWellFormed_app by apply plain_NL.
  rewrite toWellFormed_plain by apply plain_PLUS.
  rewrite toWellFormed_app by apply plain_NL.
  now rewrite toWellFormed_replace_nl.
Qed.

Lemma codeUnits_formattedMessage (timestamp message : jsstring) :
  codeUnits timestamp -> codeUnits message ->
  codeUnits (History.formattedMessage timestamp message).
Proof.
  intros Ht Hm. unfold codeUnits, History.formattedMessage in *. cbn [js app].
  repeat (apply List.Forall_cons; [reflexivity|]).
  apply Forall_app. split; [assumption|].
  repeat (apply List.Forall_cons; [reflexivity|]).
  apply Forall_app. split; [|apply List.Forall_cons; [reflexivity|constructor]].
  unfold replace_nl. apply Forall_flat_map. eapply Forall_impl; [exact Hm|].
  intros c Hc. cbn beta. destruct (c =? NL).
  - repeat (apply List.Forall_cons; [reflexivity|]). constructor.
  - apply List.Forall_cons; [assumption|constructor].
Qed.

End Utf8Facts.

(** ** Input history *)

Section HistoryFacts.
Import History.
Variable path_isAbsolute : jsstring -> bool.
Variable path_join : jsstring -> jsstring -> jsstring.
Variables dir file : jsstring.

#[local] Abbreviation hpath := (historyPath path_isAbsolute path_join dir file).
#[local] Abbreviation add := (addToInputHistory path_isAbsolute path_join dir file).
#[local] Abbreviation load := (loadInputHistory path_isAbsolute path_join dir file).
#[local] Abbreviation addAll := (History.addAll path_isAbsolute path_join dir file).
#[local] Abbreviation contentOf := (History.contentOf path_isAbsolute path_join dir file).

Lemma scanLine_header (st : list jsstring * jsstring) (rest : jsstring) :
  scanLine st (js "# " ++ rest) = (flush st, []).
Proof. destruct st as [h [|c cur]]; reflexivity. Qed.

Lemma scanLine_blank (st : list jsstring * jsstring) : scanLine st [] = st.
Proof. now destruct st. Qed.

Lemma scan_plus_lines (ls : list jsstring) (h : list jsstring) (cur : jsstring) :
  fold_left scanLine (map (cons PLUS) ls) (h, cur)
  = (h, cur ++ concat (map (fun l => l ++ [NL]) ls)).
Proof.
  revert cur. induction ls as [|l ls IH]; intros cur; simpl.
  - now rewrite app_nil_r.
  - rewrite IH. unfold substring1. simpl. now rewrite <- !app_assoc.
Qed.

(** Reading a file that ends with one more entry: the entry before it is
    closed, and the new prompt (with a final newline) is the open one. *)
Lemma scan_entry (content timestamp message : jsstring) :
  NL ∉ timestamp ->
  scan (content ++ formattedMessage timestamp message)
  = (flush (scan content), message ++ [NL]).
Proof.
  intros Hts. unfold scan, formattedMessage.
  change (NL :: js "# " ++ timestamp ++ NL :: PLUS :: replace_nl message ++ [NL])
    with (NL :: (js "# " ++ timestamp) ++ NL :: PLUS :: replace_nl message ++ [NL]).
  rewrite !split_nl_app_nl, split_nl_entry.
  rewrite (split_nl_line (js "# " ++ timestamp)).
  - rewrite !fold_left_app. cbn [fold_left].
    rewrite scanLine_header, scan_plus_lines, scanLine_blank, lines_concat.
    reflexivity.
  - cbn. rewrite !not_elem_of_cons. repeat split; try discriminate. assumption.
Qed.

Lemma flush_entry (h : list jsstring) (message : jsstring) :
  flush (h, message ++ [NL]) = h ++ [trim message].
Proof.
  unfold flush. rewrite trim_app_nl. now destruct message.
Qed.

(** The file as it is read after a write: what was read before, then the
    new entry with its lone surrogates replaced. *)
Lemma contentOf_add (timestamp message : jsstring) (fs : FileSystem) :
  Utf8.codeUnits timestamp -> Utf8.codeUnits message ->
  contentOf (add timestamp message fs)
  = contentOf fs
    ++ formattedMessage (Utf8.toWellFormed timestamp) (Utf8.toWellFormed message).
Proof.
  intros Ht Hm. unfold contentOf, History.contentOf, bytesOf, add, addToInputHistory.
  fold hpath. rewrite lookup_insert_eq. cbn [default from_option id].
  rewrite <- toWellFormed_formattedMessage.
  pose proof (codeUnits_formattedMessage _ _ Ht Hm) as Hunits.
  unfold formattedMessage in *.
  now rewrite decode_append by (reflexivity || assumption).
Qed.

Lemma addAll_snoc (entries : list (jsstring * jsstring)) (e : jsstring * jsstring)
    (fs : FileSystem) :
  addAll (entries ++ [e]) fs = add e.1 e.2 (addAll entries fs).
Proof. unfold addAll, History.addAll. now rewrite fold_left_app. Qed.

(** What the scan has collected after a sequence of writes. *)
Lemma flush_scan_addAll (entries : list (jsstring * jsstring)) (fs : FileSystem) :
  Forall (fun e => NL ∉ e.1) entries ->
  Forall (fun e => Utf8.codeUnits e.1 /\ Utf8.codeUnits e.2) entries ->
  flush (scan (contentOf (addAll entries fs)))
  = flush (scan (contentOf fs))
    ++ map (fun e => trim (Utf8.toWellFormed e.2)) entries.
Proof.
  induction entries as [|e entries IH] using rev_ind; intros Hts Hunits.
  - simpl. now rewrite app_nil_r.
  - apply Forall_app in Hts as [Hts He]. apply Forall_inv in He.
    apply Forall_app in Hunits as [Hunits Hu]. apply Forall_inv in Hu as [Hu1 Hu2].
    rewrite addAll_snoc, contentOf_add by assumption.
    rewrite scan_entry by now apply toWellFormed_no_nl.
    rewrite flush_entry, IH by assumption.
    now rewrite map_app, app_assoc.
Qed.

Lemma load_parse (fs : FileSystem) :
  load fs = parseHistory (contentOf fs).
Proof.
  unfold load, loadInputHistory, contentOf, History.contentOf, bytesOf. fold hpath.
  now destruct (fs !! hpath).
Qed.

Lemma parseHistory_flush (content : jsstring) :
  parseHistory content = rev (flush (scan content)).
Proof. destruct content; reflexivity. Qed.

(** C4 (as amended). Starting from a missing or empty history file,
    writing prompts with [addToInputHistory] and then reading with
    [loadInputHistory] gives one entry for each prompt, most recent
    first: the prompt with every lone surrogate replaced by U+FFFD (the
    file is UTF-8) and then its leading and trailing white space
    removed, its inner newlines kept. Prompts that are well-formed
    UTF-16 come back trimmed, and those that also neither begin nor end
    with white space come back unchanged. Timestamps hold no newline;
    [codeUnits] holds of every JavaScript string. *)
Theorem history_roundtrip_trimmed (entries : list (jsstring * jsstring))
    (fs : FileSystem) :
  contentOf fs = [] ->
  Forall (fun e => NL ∉ e.1) entries ->
  Forall (fun e => Utf8.codeUnits e.1 /\ Utf8.codeUnits e.2) entries ->
  load (addAll entries fs)
  = rev (map (fun e => trim (Utf8.toWellFormed e.2)) entries)
  /\ (Forall (fun e => Utf8.isWellFormed e.2) entries ->
      load (addAll entries fs) = rev (map (fun e => trim e.2) entries))
  /\ (Forall (fun e => Utf8.isWellFormed e.2 /\ trim e.2 = e.2) entries ->
      load (addAll entries fs) = rev (map snd entries)).
Proof.
  intros Hempty Hts Hunits.
  assert (Hload : load (addAll entries fs)
                  = rev (map (fun e => trim (Utf8.toWellFormed e.2)) entries)).
  { rewrite load_parse, parseHistory_flush, flush_scan_addAll by assumption.
    now rewrite Hempty. }
  split; [exact Hload|]. split.
  - intros Hwf. rewrite Hload. f_equal. apply map_ext_Forall.
    eapply Forall_impl; [exact Hwf|]. intros e He. cbn beta. now rewrite He.
  - intros Hclean. rewrite Hload. f_equal. apply map_ext_Forall.
    eapply Forall_impl; [exact Hclean|]. intros e [He1 He2]. cbn beta.
    now rewrite He1.
Qed.

End HistoryFacts.

(** ** Cost accounting *)

Lemma present_carries (x : option number) :
  present x = true <-> exists v, carries x v.
Proof.
  unfold present, carries. split.
  - destruct x as [v|]; [|discriminate]. intros Hv. now exists v.
  - intros [v [-> Hv]]. exact Hv.
Qed.

Lemma updateTotalCosts_mcp (r : UsageReportData) (p : Project) :
  mcpAgentTotalCost (after (updateTotalCosts r) p)
  = if present (UsageReport.mcpAgentTotalCost r)
    then default (mcpAgentTotalCost p) (UsageReport.mcpAgentTotalCost r)
    else mcpAgentTotalCost p.
Proof.
  unfold updateTotalCosts, after, present.
  destruct (UsageReport.mcpAgentTotalCost r) as [v|],
           (UsageReport.aiderTotalCost r) as [v'|];
    try destruct (toBoolean v); try destruct (toBoolean v'); reflexivity.
Qed.

Lemma updateTotalCosts_aider (r : UsageReportData) (p : Project) :
  aiderTotalCost (after (updateTotalCosts r) p)
  = if present (UsageReport.aiderTotalCost r)
    then default (aiderTotalCost p) (UsageReport.aiderTotalCost r)
    else aiderTotalCost p.
Proof.
  unfold updateTotalCosts, after, present.
  destruct (UsageReport.mcpAgentTotalCost r) as [v|],
           (UsageReport.aiderTotalCost r) as [v'|];
    try destruct (toBoolean v); try destruct (toBoolean v'); reflexivity.
Qed.

(** C5. For every usage report and every project, each of the two totals
    becomes the report's value when the report carries a (truthy) value
    for it, whatever the total was before, and keeps its value when the
    report carries none; so a report with a value for one total only
    leaves the other one as it was. *)
Theorem updateTotalCosts_replaces (r : UsageReportData) (p : Project) :
  let p' := after (updateTotalCosts r) p in
  (forall v, carries (UsageReport.mcpAgentTotalCost r) v -> mcpAgentTotalCost p' = v)
  /\ ((~ exists v, carries (UsageReport.mcpAgentTotalCost r) v) ->
      mcpAgentTotalCost p' = mcpAgentTotalCost p)
  /\ (forall v, carries (UsageReport.aiderTotalCost r) v -> aiderTotalCost p' = v)
  /\ ((~ exists v, carries (UsageReport.aiderTotalCost r) v) ->
      aiderTotalCost p' = aiderTotalCost p).
Proof.
  cbv zeta. rewrite updateTotalCosts_mcp, updateTotalCosts_aider.
  repeat split.
  - intros v [Hv Ht]. rewrite Hv. simpl. now rewrite Ht.
  - intros Hno. destruct (present _) eqn:Hp; [|reflexivity].
    apply present_carries in Hp. contradiction.
  - intros v [Hv Ht]. rewrite Hv. simpl. now rewrite Ht.
  - intros Hno. destruct (present _) eqn:Hp; [|reflexivity].
    apply present_carries in Hp. contradiction.
Qed.

(** C10. A report whose value for a total is a zero, or is missing,
    leaves that total as it was. *)
Theorem updateTotalCosts_zero_keeps (r : UsageReportData) (p : Project) :
  (zeroOrAbsent (UsageReport.mcpAgentTotalCost r) ->
   mcpAgentTotalCost (after (updateTotalCosts r) p) = mcpAgentTotalCost p)
  /\ (zeroOrAbsent (UsageReport.aiderTotalCost r) ->
      aiderTotalCost (after (updateTotalCosts r) p) = aiderTotalCost p).
Proof.
  rewrite updateTotalCosts_mcp, updateTotalCosts_aider.
  split; intros [->|[s ->]]; reflexivity.
Qed.

(** Over a sequence of reports each total is the value of the latest
    report that carried one. *)
Lemma afterReports_keeps (later : list UsageReportData) (p : Project) :
  Forall (fun r => present (UsageReport.mcpAgentTotalCost r) = false) later ->
  mcpAgentTotalCost (afterReports later p) = mcpAgentTotalCost p.
Proof.
  revert p. induction later as [|r later IH]; intros p Hnone; [reflexivity|].
  apply Forall_cons in Hnone as [Hr Hlater]. simpl.
  rewrite (IH _ Hlater), updateTotalCosts_mcp, Hr. reflexivity.
Qed.

Lemma afterReports_latest (before later : list UsageReportData)
    (r : UsageReportData) (v : number) (p : Project) :
  carries (UsageReport.mcpAgentTotalCost r) v ->
  Forall (fun r => present (UsageReport.mcpAgentTotalCost r) = false) later ->
  mcpAgentTotalCost (afterReports (before ++ r :: later) p) = v.
Proof.
  intros [Hv Ht] Hnone. unfold afterReports. rewrite fold_left_app. simpl.
  fold (afterReports later). rewrite (afterReports_keeps later _ Hnone).
  rewrite updateTotalCosts_mcp, Hv. simpl. now rewrite Ht.
Qed.

(** ** Questions *)

(** Unfolds the plumbing of a call, leaving the reads and writes. *)
Ltac unfold_call :=
  unfold after, effects, result, mbind, M_bind, mret, M_ret, get, modify, emit, skip;
  cbn [fst snd].

Lemma answerQuestion_closed (answer : jsstring) (userInput : option jsstring)
    (p : Project) :
  currentQuestion p = None ->
  answerQuestion answer userInput p = (false, p, []).
Proof. intros H. unfold answerQuestion. unfold_call. now rewrite H. Qed.

(** [answerQuestion] resolves no waiter but the one the project holds. *)
Lemma answerQuestion_resolves_held (answer : jsstring) (userInput : option jsstring)
    (p : Project) (waiter : nat) (a : YesNo) (input : option jsstring) :
  ResolveQuestion waiter a input ∈ effects (answerQuestion answer userInput) p ->
  currentQuestionPromiseResolve p = Some waiter.
Proof.
  unfold answerQuestion. unfold_call.
  destruct (currentQuestion p) as [question|]; [|intros H; inversion H].
  destruct (eqb _ _ || eqb _ _), (eqb _ _ || eqb _ _),
    (Question.internal question), (currentQuestionPromiseResolve p) as [w|];
    cbn; rewrite ?app_nil_r; intros Hin.
  all: repeat (apply elem_of_app in Hin as [Hin|Hin]).
  all: try (apply list_elem_of_fmap in Hin as [c [Hc _]]; discriminate).
  all: try (apply list_elem_of_singleton in Hin; now inversion Hin).
  all: try (now inversion Hin).
Qed.

(** C9. Whatever the raw answer and the user input, [answerQuestion]
    called while a question is open leaves no question open, whether or
    not it resolved a waiter. *)
Theorem answerQuestion_clears (answer : jsstring) (userInput : option jsstring)
    (p : Project) (question : QuestionData) :
  currentQuestion p = Some question ->
  currentQuestion (after (answerQuestion answer userInput) p) = None
  /\ result (answerQuestion answer userInput) p
     = match currentQuestionPromiseResolve p with
       | Some _ => true
       | None => false
       end.
Proof.
  intros H. unfold answerQuestion. unfold_call. rewrite H.
  destruct (eqb _ _ || eqb _ _), (eqb _ _ || eqb _ _),
    (Question.internal question), (currentQuestionPromiseResolve p);
    split; reflexivity.
Qed.

Lemma toLowerCase_yesNo (a : YesNo) : toLowerCase (yesNoString a) = yesNoString a.
Proof. now destruct a. Qed.

(** Answering with a remembered answer: it is routed as it is, nothing is
    stored, and a waiter still held is resolved with it. *)
Lemma answerQuestion_stored (a : YesNo) (p : Project) (question : QuestionData) :
  currentQuestion p = Some question ->
  Question.internal question = false ->
  effects (answerQuestion (yesNoString a) None) p
  = map (fun connector => SendAnswerQuestionMessage (connectorId connector) a)
        (findMessageConnectors AnswerQuestion p)
    ++ match currentQuestionPromiseResolve p with
       | Some promise => [ResolveQuestion promise a None]
       | None => []
       end
  /\ currentQuestion (after (answerQuestion (yesNoString a) None) p) = None.
Proof.
  intros Hq Hint. unfold answerQuestion. unfold_call.
  rewrite Hq, Hint, toLowerCase_yesNo.
  destruct a, (currentQuestionPromiseResolve p); cbn;
    rewrite ?app_nil_r; split; reflexivity.
Qed.

(** The key of a question: its own key when it has a non-empty one, else
    its text, an underscore and its subject. *)
Lemma getQuestionKey_spec (question : QuestionData) :
  getQuestionKey question
  = match Question.key question with
    | Some (c :: key) => c :: key
    | _ => Question.text question ++ js "_" ++ default [] (Question.subject question)
    end.
Proof.
  unfold getQuestionKey, orElse, truthyOpt.
  destruct (Question.key question) as [[|c key]|];
    destruct (Question.subject question) as [[|d subject]|]; reflexivity.
Qed.

(** The connectors a message goes to: those that list its action, in
    the order of their registration. *)
Lemma findMessageConnectors_spec (action : MessageAction) (p : Project) :
  findMessageConnectors action p
  = filter (fun connector => action ∈ listenTo connector) (connectors p).
Proof.
  unfold findMessageConnectors.
  induction (connectors p) as [|c cs IH]; [reflexivity|].
  cbn [List.filter]. rewrite filter_cons, IH.
  assert (Hinc : includes action (listenTo c) = true <-> action ∈ listenTo c).
  { unfold includes. rewrite existsb_exists. split.
    - intros (x & Hx & Heq). apply list_elem_of_In in Hx.
      destruct action, x; try discriminate; exact Hx.
    - intros Hin. exists action. split; [now apply list_elem_of_In|].
      now destruct action. }
  destruct (includes action (listenTo c)) eqn:Hc.
  - rewrite decide_True by now apply Hinc. reflexivity.
  - rewrite decide_False; [reflexivity|]. intros Hin. apply Hinc in Hin. discriminate.
Qed.

(** C7. When a question has a remembered answer under its identity (its
    own key when it has a non-empty one, else its text, an underscore
    and its subject) and the question is not internal, [askQuestion]
    sends the remembered answer to the connectors that listen to
    answer-question, and to no other, in the order of their
    registration; it returns the promise already resolved with the
    answer and no user input, shows no question to the UI, and leaves no
    question open. *)
Theorem askQuestion_remembered (questionData : QuestionData) (promise : nat)
    (p : Project) (storedAnswer : YesNo) :
  questionAnswers p
    !! match Question.key questionData with
       | Some (c :: key) => c :: key
       | _ => Question.text questionData ++ js "_"
              ++ default [] (Question.subject questionData)
       end = Some storedAnswer ->
  Question.internal questionData = false ->
  result (askQuestion questionData promise) p
  = AlreadyResolved (yesNoString storedAnswer) None
  /\ effects (askQuestion questionData promise) p
     = map (fun connector =>
              SendAnswerQuestionMessage (connectorId connector) storedAnswer)
           (filter (fun connector => AnswerQuestion ∈ listenTo connector)
                   (connectors p))
       ++ match currentQuestionPromiseResolve p with
          | Some waiter => [ResolveQuestion waiter storedAnswer None]
          | None => []
          end
  /\ (forall question, UiAskQuestion question ∉ effects (askQuestion questionData promise) p)
  /\ currentQuestion (after (askQuestion questionData promise) p) = None.
Proof.
  intros Hstored Hint. rewrite <- getQuestionKey_spec in Hstored.
  rewrite <- (findMessageConnectors_spec AnswerQuestion p).
  pose proof (answerQuestion_stored storedAnswer
                (set_currentQuestion (Some questionData) p) questionData
                eq_refl Hint) as [Heff Hcur].
  unfold askQuestion. unfold_call. unfold effects, after in Heff, Hcur.
  cbn [questionAnswers set_currentQuestion]. rewrite Hstored, Hint.
  cbn [negb].
  destruct (answerQuestion (yesNoString storedAnswer) None
              (set_currentQuestion (Some questionData) p)) as [[b p1] es].
  cbn in Heff, Hcur |- *. rewrite !app_nil_r. subst es.
  repeat split; try assumption.
  intros question Hin.
  apply elem_of_app in Hin as [Hin|Hin].
  - apply list_elem_of_fmap in Hin as [c [Hc _]]. discriminate.
  - destruct (currentQuestionPromiseResolve _).
    + apply list_elem_of_singleton in Hin. discriminate.
    + inversion Hin.
Qed.

(** C2 (as amended). A project records one current question and holds
    one waiter. [askQuestion] for a question without a remembered answer,
    also while another question is pending, makes the new question the
    current one and its promise the held waiter, and only shows the new
    question to the UI: a waiter held before is replaced without being
    resolved. *)
Theorem askQuestion_replaces (questionData : QuestionData) (promise : nat)
    (p : Project) :
  questionAnswers p !! getQuestionKey questionData = None ->
  result (askQuestion questionData promise) p = Pending promise
  /\ currentQuestion (after (askQuestion questionData promise) p) = Some questionData
  /\ currentQuestionPromiseResolve (after (askQuestion questionData promise) p)
     = Some promise
  /\ effects (askQuestion questionData promise) p = [UiAskQuestion questionData].
Proof.
  intros Hnone. unfold askQuestion. unfold_call.
  cbn [questionAnswers set_currentQuestion]. rewrite Hnone.
  repeat split.
Qed.

(** Against C2 as stated: asking a second question while the first is
    pending creates a second pending promise and drops the first waiter.
    The first promise is neither resolved nor held any more, and the next
    answer resolves the second promise only, after which nothing is held. *)
Lemma askQuestion_twice_drops_waiter :
  let first := askQuestion Example.addFile 1 Example.started in
  let second := askQuestion Example.runShell 2 first.1.2 in
  let answer := answerQuestion (js "y") None second.1.2 in
  first.1.1 = Pending 1%nat
  /\ currentQuestionPromiseResolve first.1.2 = Some 1%nat
  /\ second.1.1 = Pending 2%nat
  /\ currentQuestion second.1.2 = Some Example.runShell
  /\ currentQuestionPromiseResolve second.1.2 = Some 2%nat
  /\ second.2 = [UiAskQuestion Example.runShell]
  /\ answer.2 = [SendAnswerQuestionMessage 0 Yes; ResolveQuestion 2 Yes None]
  /\ currentQuestionPromiseResolve answer.1.2 = None.
Proof. vm_compute. repeat split. Qed.

Lemma askQuestion_replaces_witness :
  result (askQuestion Example.runShell 2)
         (askQuestion Example.addFile 1 Example.started).1.2 = Pending 2%nat
  /\ effects (askQuestion Example.runShell 2)
             (askQuestion Example.addFile 1 Example.started).1.2
     = [UiAskQuestion Example.runShell].
Proof.
  destruct (askQuestion_replaces Example.runShell 2
              (askQuestion Example.addFile 1 Example.started).1.2)
    as (Hres & _ & _ & Heff).
  - vm_compute. reflexivity.
  - split; [exact Hres | exact Heff].
Defined.

(** The project after "don't ask again" was answered to
    [Example.addFile], with three connectors of which the first and the
    last listen to answers. *)
Lemma askQuestion_remembered_witness :
  let p := after (answerQuestion (js "d") None)
                 (after (askQuestion Example.addFile 1) Sample.observed) in
  result (askQuestion Example.addFile 2) p = AlreadyResolved (js "n") None
  /\ effects (askQuestion Example.addFile 2) p
     = [SendAnswerQuestionMessage 0 No; SendAnswerQuestionMessage 2 No].
Proof.
  cbv zeta.
  destruct (askQuestion_remembered Example.addFile 2
              (after (answerQuestion (js "d") None)
                     (after (askQuestion Example.addFile 1) Sample.observed)) No)
    as (Hres & Heff & _ & _).
  - vm_compute. reflexivity.
  - reflexivity.
  - split; [exact Hres | rewrite Heff; vm_compute; reflexivity].
Defined.

Lemma answerQuestion_clears_witness :
  currentQuestion
    (after (answerQuestion (js "maybe") (Some (js "next prompt")))
           (after (askQuestion Example.addFile 1) Example.started)) = None.
Proof.
  apply (answerQuestion_clears (js "maybe") (Some (js "next prompt"))
           (after (askQuestion Example.addFile 1) Example.started) Example.addFile).
  reflexivity.
Defined.

Lemma updateTotalCosts_zero_keeps_witness :
  let r := {| UsageReport.sentTokens := ofZ 10; UsageReport.receivedTokens := ofZ 5;
              UsageReport.messageCost := ofZ 1;
              UsageReport.aiderTotalCost := Some (ofZ 0);
              UsageReport.mcpAgentTotalCost := None |} in
  let p := set_aiderTotalCost (ofZ 3) (set_mcpAgentTotalCost (ofZ 2) Example.started) in
  mcpAgentTotalCost (after (updateTotalCosts r) p) = ofZ 2
  /\ aiderTotalCost (after (updateTotalCosts r) p) = ofZ 3.
Proof.
  cbv zeta.
  destruct (updateTotalCosts_zero_keeps
              {| UsageReport.sentTokens := ofZ 10; UsageReport.receivedTokens := ofZ 5;
                 UsageReport.messageCost := ofZ 1;
                 UsageReport.aiderTotalCost := Some (ofZ 0);
                 UsageReport.mcpAgentTotalCost := None |}
              (set_aiderTotalCost (ofZ 3) (set_mcpAgentTotalCost (ofZ 2) Example.started)))
    as [Hmcp Haider].
  split.
  - rewrite Hmcp; [reflexivity | left; reflexivity].
  - rewrite Haider; [reflexivity | right; exists false; reflexivity].
Defined.

(** ** Stopping the worker *)

(** C3 (as amended). When a worker process is held and killing it
    succeeds, [killAider] (also through [close]) calls every callback in
    [runPromptResolves] with the empty list, in order, and empties the
    queue; afterwards the current question, command, response message id
    and prompt id are cleared, no responses are buffered and no process
    is held. When no process is held, [killAider] does nothing, whatever
    the kill would report. When the kill fails, [killAider] throws the
    error again and changes nothing but the process handle, which it
    clears: no callback is called and the queue, the question, the
    prompt id and the responses stay. The exit handler of the worker
    process changes nothing and calls nobody. *)
Theorem killAider_resolves_waiters (p : Project) :
  (forall pid,
     process p = Some pid ->
     let p' := after (killAider None) p in
     result (killAider None) p = Normal tt
     /\ effects (killAider None) p
        = RemovePidFile
          :: map (fun resolve => InvokeWaiter resolve []) (runPromptResolves p)
          ++ [SessionClearMessages]
     /\ runPromptResolves p' = []
     /\ currentQuestion p' = None /\ currentCommand p' = None
     /\ currentResponseMessageId p' = None /\ currentPromptId p' = None
     /\ currentPromptResponses p' = [] /\ process p' = None
     /\ result (close None) p = Normal tt
     /\ after (close None) p = p'
     /\ effects (close None) p = UiClearProject :: effects (killAider None) p)
  /\ (forall treeKill,
        process p = None ->
        killAider treeKill p = (Normal tt, p, [])
        /\ close treeKill p = (Normal tt, p, [UiClearProject]))
  /\ (forall pid err,
        process p = Some pid ->
        killAider (Some err) p = (Throw err, set_process None p, [])
        /\ close (Some err) p = (Throw err, set_process None p, [UiClearProject])
        /\ runPromptResolves (set_process None p) = runPromptResolves p
        /\ currentQuestion (set_process None p) = currentQuestion p
        /\ currentPromptId (set_process None p) = currentPromptId p
        /\ currentPromptResponses (set_process None p) = currentPromptResponses p)
  /\ (forall code, onProcessClose code p = (tt, p, [])).
Proof.
  repeat apply conj.
  - intros pid Hproc. unfold close, killAider. unfold_call. rewrite Hproc.
    cbn. rewrite ?app_nil_r. repeat split.
  - intros treeKill Hproc. unfold close, killAider. unfold_call. rewrite Hproc.
    split; reflexivity.
  - intros pid err Hproc. unfold close, killAider. unfold_call. rewrite Hproc.
    repeat split.
  - intros code. reflexivity.
Qed.

Lemma killAider_resolves_waiters_witness :
  effects (killAider None) Example.running
  = [RemovePidFile; InvokeWaiter (PromptResult 0) []; InvokeWaiter (WakeQueued 1) [];
     SessionClearMessages]
  /\ currentPromptId (after (killAider None) Example.running) = None
  /\ killAider (Some (js "EPERM")) Example.running
     = (Throw (js "EPERM"), set_process None Example.running, [])
  /\ killAider None (set_process None Example.running)
     = (Normal tt, set_process None Example.running, []).
Proof.
  destruct (killAider_resolves_waiters Example.running) as (Hkill & _ & Hfail & _).
  destruct (Hkill 4242%nat eq_refl) as (_ & Heff & _ & _ & _ & _ & Hid & _).
  destruct (Hfail 4242%nat (js "EPERM") eq_refl) as (Hthrow & _).
  destruct (killAider_resolves_waiters (set_process None Example.running))
    as (_ & Hnone & _).
  destruct (Hnone None eq_refl) as (Hidle & _).
  split; [rewrite Heff; reflexivity|].
  split; [exact Hid|]. split; [exact Hthrow | exact Hidle].
Defined.

(** Against C3 as stated. With a unit running and a caller queued: when
    the worker process exits, the handler changes nothing and resolves
    nobody; when killing the process fails, the error is thrown, the
    waiters stay queued and the prompt id stays set; and when no process
    is held, [killAider] does nothing at all. *)
Lemma worker_death_leaves_waiters :
  onProcessClose 1 Example.running = (tt, Example.running, [])
  /\ runPromptResolves Example.running = [PromptResult 0; WakeQueued 1]
  /\ result (killAider (Some (js "EPERM"))) Example.running = Throw (js "EPERM")
  /\ effects (killAider (Some (js "EPERM"))) Example.running = []
  /\ runPromptResolves (after (killAider (Some (js "EPERM"))) Example.running)
     = [PromptResult 0; WakeQueued 1]
  /\ currentPromptId (after (killAider (Some (js "EPERM"))) Example.running)
     = Some (js "id-a")
  /\ killAider None (set_process None Example.running)
     = (Normal tt, set_process None Example.running, []).
Proof. vm_compute. repeat split. Qed.

(** ** Addable files *)

Lemma eqb_eq (a b : jsstring) : eqb a b = true <-> a = b.
Proof.
  revert b. induction a as [|x a IH]; intros [|y b]; simpl; try easy.
  rewrite andb_true_iff, N.eqb_eq, IH. split.
  - now intros [-> ->].
  - intros H. now inversion H.
Qed.

Lemma has_elem (paths : list jsstring) (file : jsstring) :
  has paths file = true <-> file ∈ paths.
Proof.
  unfold has. rewrite existsb_exists. split.
  - intros [x [Hin Heq]]. apply eqb_eq in Heq as ->. now apply list_elem_of_In.
  - intros Hin. exists file. split; [now apply list_elem_of_In | now apply eqb_eq].
Qed.

(** The unfiltered list: the tracked files that are not context files, in
    the order of the tracked files. *)
Lemma addable_spec (p : Project) (file : jsstring) :
  file ∈ addable p <-> file ∈ allTrackedFiles p /\ file ∉ map path (contextFiles p).
Proof.
  unfold addable. rewrite list_elem_of_In, filter_In, <- list_elem_of_In.
  rewrite negb_true_iff, <- not_true_iff_false, has_elem. reflexivity.
Qed.

Lemma getAddableFiles_returns (RegExp_new : jsstring -> Completion (jsstring -> bool))
    (searchRegex : option jsstring) (p : Project) :
  exists files, getAddableFiles RegExp_new searchRegex p = Normal files.
Proof.
  unfold getAddableFiles. destruct searchRegex as [pattern|]; [|eauto].
  destruct (truthy pattern); [|eauto].
  destruct (RegExp_new pattern); eauto.
Qed.

(** C8. When the search pattern is not a valid regular expression,
    [getAddableFiles] does not throw: it returns the whole unfiltered list,
    the tracked files that are not context files. *)
Theorem getAddableFiles_invalid_regex
    (RegExp_new : jsstring -> Completion (jsstring -> bool))
    (pattern error : jsstring) (p : Project) :
  RegExp_new pattern = Throw error ->
  getAddableFiles RegExp_new (Some pattern) p = Normal (addable p)
  /\ forall file, file ∈ addable p
       <-> file ∈ allTrackedFiles p /\ file ∉ map path (contextFiles p).
Proof.
  intros Hbad. split; [|apply addable_spec].
  unfold getAddableFiles. rewrite Hbad. now destruct (truthy pattern).
Qed.

Lemma getAddableFiles_invalid_regex_witness :
  getAddableFiles Example.regExp (Some (js "(a")) Example.tracked
  = Normal [js "a.ts"; js "c.ts"].
Proof.
  destruct (getAddableFiles_invalid_regex Example.regExp (js "(a")
              (js "SyntaxError") Example.tracked) as [Hall _].
  - reflexivity.
  - rewrite Hall. reflexivity.
Defined.

(** ** Printing numbers *)

Lemma digit_isDigit (n : Z) : isDigit (digit (n mod 10)) = true.
Proof.
  pose proof (Z.mod_pos_bound n 10 eq_refl) as Hb.
  unfold isDigit, digit. apply andb_true_iff.
  rewrite N.leb_le, N.leb_le. lia.
Qed.

Lemma fixedDigits_length (w : nat) (n : Z) : length (fixedDigits w n) = w.
Proof.
  revert n. induction w as [|w IH]; intros n; simpl; [reflexivity|].
  rewrite length_app, IH. simpl. lia.
Qed.

Lemma fixedDigits_digits (w : nat) (n : Z) :
  Forall (fun c => isDigit c = true) (fixedDigits w n).
Proof.
  revert n. induction w as [|w IH]; intros n; simpl; [constructor|].
  apply Forall_app. split; [apply IH|].
  constructor; [apply digit_isDigit|constructor].
Qed.

Lemma decimalFuel_digits (fuel : nat) (n : Z) :
  (0 <= n)%Z -> Forall (fun c => isDigit c = true) (decimalFuel fuel n).
Proof.
  revert n. induction fuel as [|fuel IH]; intros n Hn; simpl; [constructor|].
  destruct (Z.ltb_spec n 10) as [Hlt|Hge].
  - constructor; [|constructor].
    unfold isDigit, digit. apply andb_true_iff. rewrite N.leb_le, N.leb_le. lia.
  - apply Forall_app. split.
    + apply IH. apply Z.div_pos; lia.
    + constructor; [apply digit_isDigit|constructor].
Qed.

Lemma digits_no_point (s : jsstring) :
  Forall (fun c => isDigit c = true) s -> 46 ∉ s.
Proof.
  intros Hd Hin. rewrite Forall_forall in Hd.
  specialize (Hd 46 Hin). discriminate.
Qed.

Lemma scaledNearest_nonneg (f : nat) (m : positive) (e : Z) :
  (0 <= scaledNearest f m e)%Z.
Proof.
  unfold scaledNearest.
  assert (0 < 10 ^ Z.of_nat f)%Z by (apply Z.pow_pos_nonneg; lia).
  destruct e as [|k|k].
  - lia.
  - assert (0 < 2 ^ Z.pos k)%Z by (apply Z.pow_pos_nonneg; lia). nia.
  - assert (0 < 2 ^ Z.pos k)%Z by (apply Z.pow_pos_nonneg; lia).
    apply Z.div_pos; nia.
Qed.

(** [scaledNearest f m e] is the nearest integer to [m * 2^e * 10^f], the
    larger one of two: with [e = -k], twice its distance to
    [m * 10^f / 2^k] lies in (-1, 1]. *)
Lemma scaledNearest_nearest (f : nat) (m : positive) (k : positive) :
  let n := scaledNearest f m (Zneg k) in
  let p := (10 ^ Z.of_nat f)%Z in
  let d := (2 ^ Zpos k)%Z in
  (- d < 2 * (n * d - Zpos m * p) <= d)%Z.
Proof.
  cbv zeta. unfold scaledNearest.
  assert (Hd : (0 < 2 ^ Z.pos k)%Z) by (apply Z.pow_pos_nonneg; lia).
  set (d := (2 ^ Z.pos k)%Z) in *. set (p := (10 ^ Z.of_nat f)%Z).
  pose proof (Z.div_mod (2 * Z.pos m * p + d) (2 * d) ltac:(lia)) as Hdm.
  pose proof (Z.mod_pos_bound (2 * Z.pos m * p + d) (2 * d) ltac:(lia)) as Hb.
  lia.
Qed.

Lemma pointed_decimals (f : nat) (n : Z) :
  (0 <= n)%Z -> decimals (S f) (pointed (S f) n).
Proof.
  intros Hn. unfold pointed.
  exists (decimal (n / 10 ^ Z.of_nat (S f))), (fixedDigits (S f) (n mod 10 ^ Z.of_nat (S f))).
  repeat split.
  - apply fixedDigits_length.
  - apply fixedDigits_digits.
  - apply digits_no_point, decimalFuel_digits.
    apply Z.div_pos; [assumption|]. apply Z.pow_pos_nonneg; lia.
Qed.

Lemma decimals_sign (k : nat) (s : jsstring) :
  decimals k s -> decimals k (js "-" ++ s).
Proof.
  intros (whole & frac & -> & Hlen & Hd & Hp).
  exists (js "-" ++ whole), frac. repeat split; try assumption.
  simpl. apply not_elem_of_cons. split; [discriminate|assumption].
Qed.

(** Below 10^21, [toFixed] with a positive number of fraction digits
    prints exactly that many digits after the point. *)
Lemma toFixed_decimals (Number_toString : number -> jsstring) (f : nat) (x : number) :
  plain x -> decimals (S f) (toFixed Number_toString (S f) x).
Proof.
  destruct x as [s|s| |s m e]; simpl; try contradiction.
  - intros _. apply (pointed_decimals f 0). lia.
  - intros ->. pose proof (pointed_decimals f _ (scaledNearest_nonneg (S f) m e)) as H.
    destruct s; [apply decimals_sign|]; exact H.
Qed.

(** ** Completed responses *)

Section ResponseFacts.
Variable Number_toString : number -> jsstring.
Variable parseUsageReport : jsstring -> option UsageReportData.

#[local] Abbreviation process_ :=
  (processResponseMessage Number_toString parseUsageReport).
#[local] Abbreviation fixed := (toFixed Number_toString).

(** What a finished message becomes: one completed response, shown to
    the UI first and appended to the responses of the running prompt. *)
Lemma processResponseMessage_finished (uuid : jsstring) (message : ResponseMessage)
    (p : Project) :
  Message.finished message = true ->
  exists data rest,
    effects (process_ uuid message) p = UiResponseCompleted data :: rest
    /\ currentPromptResponses (after (process_ uuid message) p)
       = currentPromptResponses p ++ [data]
    /\ Completed.commitMessage data
       = forwardedCommitMessage Number_toString message
           (resolveUsageReport parseUsageReport message)
    /\ Completed.usageReport data = resolveUsageReport parseUsageReport message.
Proof.
  intros Hfin. unfold processResponseMessage. unfold_call.
  rewrite Hfin. cbn [negb].
  destruct (truthyOpt (currentResponseMessageId p)); cbn.
  all: destruct (resolveUsageReport parseUsageReport message) as [report|]; cbn.
  all: unfold updateTotalCosts, closeCommandOutput; unfold_call; cbn.
  all: repeat match goal with
       | |- context [match ?x with _ => _ end] =>
           match x with
           | UsageReport.mcpAgentTotalCost _ => destruct x
           | UsageReport.aiderTotalCost _ => destruct x
           | toBoolean _ => destruct x
           end; cbn
       end.
  all: destruct (currentCommand p) as [command|]; cbn.
  all: try (destruct (truthy command); cbn).
  all: try (destruct (commandOutputs p !! command) as [output|]; cbn).
  all: try (destruct (truthy output && truthy (trim output)); cbn).
  all: eexists _, _; repeat split; reflexivity.
Qed.

(** C6 (as amended). A finished message with a non-empty commit message
    and a usage report is forwarded with the commit message followed by
    [ i<sent/1000>k o<received/1000>k $<cost>], the quotients printed
    with [toFixed(1)] and the cost with [toFixed(3)]; for finite numbers
    below 10^21 in magnitude these have exactly one, one and three
    digits after the point. *)
Theorem commit_message_cost_suffix (uuid : jsstring) (message : ResponseMessage)
    (p : Project) (commit : jsstring) (report : UsageReportData) :
  Message.finished message = true ->
  Message.commitMessage message = Some commit ->
  commit <> [] ->
  resolveUsageReport parseUsageReport message = Some report ->
  let sentK := fixed 1 (div (UsageReport.sentTokens report) (ofZ 1000)) in
  let receivedK := fixed 1 (div (UsageReport.receivedTokens report) (ofZ 1000)) in
  let cost := fixed 3 (UsageReport.messageCost report) in
  (exists data rest,
     effects (process_ uuid message) p = UiResponseCompleted data :: rest
     /\ currentPromptResponses (after (process_ uuid message) p)
        = currentPromptResponses p ++ [data]
     /\ Completed.commitMessage data
        = Some (commit ++ js " i" ++ sentK ++ js "k o" ++ receivedK
                ++ js "k $" ++ cost))
  /\ (plain (div (UsageReport.sentTokens report) (ofZ 1000)) -> decimals 1 sentK)
  /\ (plain (div (UsageReport.receivedTokens report) (ofZ 1000)) -> decimals 1 receivedK)
  /\ (plain (UsageReport.messageCost report) -> decimals 3 cost).
Proof.
  intros Hfin Hcommit Hne Hreport. cbv zeta.
  split; [|repeat split; apply toFixed_decimals].
  destruct (processResponseMessage_finished uuid message p Hfin)
    as (data & rest & Heff & Hresp & Hmsg & _).
  exists data, rest. repeat split; try assumption.
  rewrite Hmsg, Hreport. unfold forwardedCommitMessage. rewrite Hcommit.
  destruct commit; [contradiction|]. reflexivity.
Qed.

End ResponseFacts.

Lemma commit_message_cost_suffix_witness :
  exists data rest,
    effects (processResponseMessage (fun _ => []) (fun _ => None)
               (js "m-1") Example.fixMessage) Example.started
    = UiResponseCompleted data :: rest
    /\ Completed.commitMessage data = Some (js "fix i2.0k o0.5k $0.012").
Proof.
  destruct (commit_message_cost_suffix (fun _ => []) (fun _ => None) (js "m-1")
              Example.fixMessage Example.started (js "fix") Example.report)
    as [(data & rest & Heff & _ & Hmsg) _].
  - reflexivity.
  - reflexivity.
  - discriminate.
  - reflexivity.
  - exists data, rest. split; [exact Heff|]. rewrite Hmsg. vm_compute. reflexivity.
Defined.

(** Against C6 as stated: a count too large for a number is printed as
    [Infinity], with no decimals at all, whatever [Number::toString] is;
    and a cost of 10^21 is printed by [Number::toString] (in exponent
    notation), however many decimals [toFixed] was asked for. *)
Lemma cost_suffix_without_decimals :
  (forall Number_toString parseUsageReport,
     exists data rest,
       effects (processResponseMessage Number_toString parseUsageReport
                  (js "m-1") Sample.overflowMessage) Example.started
       = UiResponseCompleted data :: rest
       /\ Completed.commitMessage data = Some (js "fix iInfinityk o0.5k $0.012"))
  /\ ~ decimals 1 (js "Infinity")
  /\ (forall Number_toString,
        toFixed Number_toString 3 (ofZ (10 ^ 21)) = Number_toString (ofZ (10 ^ 21))).
Proof.
  split; [|split].
  - intros Number_toString parseUsageReport.
    destruct (processResponseMessage_finished Number_toString parseUsageReport
                (js "m-1") Sample.overflowMessage Example.started eq_refl)
      as (data & rest & Heff & _ & Hmsg & _).
    exists data, rest. split; [exact Heff|]. rewrite Hmsg. vm_compute. reflexivity.
  - intros (whole & frac & Heq & _).
    assert (Hin : 46 ∈ js "Infinity").
    { rewrite Heq. apply elem_of_app. right. apply elem_of_cons. now left. }
    revert Hin. apply (bool_decide_unpack _). vm_compute. exact I.
  - intros Number_toString. vm_compute. reflexivity.
Qed.

(** ** Closed runs of the history *)

Lemma history_roundtrip_trimmed_witness :
  Example.load (Example.addAll Example.clean ∅)
  = [js "now add a test"; js "fix the bug" ++ [NL] ++ js "in parse()"]
  /\ Example.load (Example.addAll Sample.accented ∅)
     = [[55357; 56832; 32; 65533]; js "na" ++ [239] ++ js "ve" ++ [NL; 9749]].
Proof.
  split.
  - destruct (history_roundtrip_trimmed History.simple_isAbsolute History.simple_join
                (js "/repo") (js ".aider.input.history") Example.clean ∅)
      as (_ & _ & Hexact).
    + reflexivity.
    + repeat (apply List.Forall_cons; [apply (bool_decide_unpack _); vm_compute; exact I|]).
      apply List.Forall_nil.
    + repeat (apply List.Forall_cons;
                [split; repeat (apply List.Forall_cons; [reflexivity|]);
                 apply List.Forall_nil|]).
      apply List.Forall_nil.
    + apply Hexact.
      repeat (apply List.Forall_cons; [split; reflexivity|]). apply List.Forall_nil.
  - destruct (history_roundtrip_trimmed History.simple_isAbsolute History.simple_join
                (js "/repo") (js ".aider.input.history") Sample.accented ∅)
      as (Hload & _ & _).
    + reflexivity.
    + repeat (apply List.Forall_cons; [apply (bool_decide_unpack _); vm_compute; exact I|]).
      apply List.Forall_nil.
    + repeat (apply List.Forall_cons;
                [split; repeat (apply List.Forall_cons; [reflexivity|]);
                 apply List.Forall_nil|]).
      apply List.Forall_nil.
    + etransitivity; [exact Hload|]. vm_compute. reflexivity.
Defined.

(** Against C4 as stated: a prompt that ends with a newline and one that
    begins with a space do not come back as they were written, and
    neither does a prompt that holds a surrogate without its partner. *)
Lemma history_roundtrip_not_exact :
  Example.load (Example.addAll Example.padded ∅)
  = [js "hi"; js "fix" ++ [NL] ++ js "it"]
  /\ Example.load (Example.addAll Example.padded ∅)
     <> rev (map snd Example.padded)
  /\ Example.load (Example.addAll [(Example.stamp, js "ok" ++ [55357])] ∅)
     = [js "ok" ++ [65533]].
Proof.
  split; [vm_compute; reflexivity|].
  split; [vm_compute; discriminate | vm_compute; reflexivity].
Qed.

(** ** The prompt queue *)

(** The check at the entry of [runPrompt]: with no question open and a
    prompt running, the caller is queued behind it and nothing is routed. *)
Lemma runPrompt_enter_queues (me : nat) (prompt : jsstring) (p : Project) :
  currentQuestion p = None ->
  truthyOpt (currentPromptId p) = true ->
  result (Scheduler.runPrompt_enter me prompt) p = Scheduler.Queued
  /\ effects (Scheduler.runPrompt_enter me prompt) p = []
  /\ runPromptResolves (after (Scheduler.runPrompt_enter me prompt) p)
     = runPromptResolves p ++ [WakeQueued me].
Proof.
  intros Hq Hid. unfold Scheduler.runPrompt_enter. unfold_call.
  rewrite Hq. cbn. rewrite Hid. repeat split.
Qed.

(** [sendPrompt] itself routes the prompt whether or not one is running. *)
Lemma sendPrompt_routes (caller : nat) (uuid prompt : jsstring)
    (mode : option jsstring) (clearContext : bool) (p : Project) :
  effects (sendPrompt caller uuid prompt mode clearContext) p
  = map (fun connector =>
           SendPromptMessage (connectorId connector) prompt mode
             (getArchitectModel p) (Some uuid) clearContext)
        (findMessageConnectors Prompt p)
  /\ currentPromptId (after (sendPrompt caller uuid prompt mode clearContext) p)
     = Some uuid.
Proof.
  unfold sendPrompt. unfold_call. cbn. rewrite app_nil_r. split; reflexivity.
Qed.

(** C1 (the code departs from it). A prompt runs and two callers queue
    behind it; when the turn finishes both are woken, and neither looks at
    the prompt id again: the first routes its prompt, and the second
    routes its own while the first one's unit is running. The same
    happens when two callers enter while no prompt is running. *)
Theorem runPrompt_not_single_flight :
  let w := Example.run Example.twoQueued (Example.world Example.started) in
  let w' := Example.run Example.twoIdle (Example.world Example.started) in
  currentPromptId (Scheduler.project w) = Some (js "id-b")
  /\ Example.routed Example.lastQueued w
     = [SendPromptMessage 0 (js "c") None None (Some (js "id-c")) false]
  /\ runPromptResolves (Scheduler.project (Example.step Example.lastQueued w))
     = [PromptResult 1; PromptResult 2]
  /\ ~ singleFlight History.simple_isAbsolute History.simple_join
         (Example.twoQueued ++ [Example.lastQueued]) (Example.world Example.started)
  /\ currentPromptId (Scheduler.project w') = Some (js "id-a")
  /\ Example.routed Example.lastIdle w'
     = [SendPromptMessage 0 (js "b") None None (Some (js "id-b")) false]
  /\ ~ singleFlight History.simple_isAbsolute History.simple_join
         (Example.twoIdle ++ [Example.lastIdle]) (Example.world Example.started).
Proof.
  cbv zeta.
  split; [vm_compute; reflexivity|].
  split; [vm_compute; reflexivity|].
  split; [vm_compute; reflexivity|].
  split.
  { intros Hsf.
    specialize (Hsf Example.twoQueued Example.lastQueued [] eq_refl).
    cbv zeta in Hsf.
    assert (Hrun : truthyOpt (currentPromptId (Scheduler.project
                     (Scheduler.run History.simple_isAbsolute History.simple_join
                        Example.twoQueued (Example.world Example.started)))) = true)
      by (vm_compute; reflexivity).
    specialize (Hsf Hrun). vm_compute in Hsf. discriminate. }
  split; [vm_compute; reflexivity|].
  split; [vm_compute; reflexivity|].
  intros Hsf.
  specialize (Hsf Example.twoIdle Example.lastIdle [] eq_refl).
  cbv zeta in Hsf.
  assert (Hrun : truthyOpt (currentPromptId (Scheduler.project
                   (Scheduler.run History.simple_isAbsolute History.simple_join
                      Example.twoIdle (Example.world Example.started)))) = true)
    by (vm_compute; reflexivity).
  specialize (Hsf Hrun). vm_compute in Hsf. discriminate.
Qed.

(** After a successful kill the caller of [sendPrompt] returns no
    responses, while the queued caller is woken: it goes on to write the
    history and routes its own prompt. *)
Lemma killAider_wakes_queued :
  let w := Example.run
             [ Scheduler.EvRunPrompt (js "a") None;
               Scheduler.EvHistoryWritten 0 Example.stamp (js "id-a");
               Scheduler.EvRunPrompt (js "b") None;
               Scheduler.EvKillAider None ]
             (Example.world Example.started) in
  map Scheduler.pc (Scheduler.callers w)
  = [Scheduler.Returned []; Scheduler.AwaitHistory]
  /\ currentPromptId (Scheduler.project w) = None
  /\ Example.routed (Scheduler.EvHistoryWritten 1 Example.stamp (js "id-b")) w
     = [SendPromptMessage 0 (js "b") None None (Some (js "id-b")) false].
Proof. vm_compute. repeat split. Qed.

(** * More properties *)

(** ** The history file, whatever it holds *)

Lemma dropWhile_idem (f : N -> bool) (s : jsstring) :
  dropWhile f (dropWhile f s) = dropWhile f s.
Proof.
  induction s as [|c s IH]; simpl; [reflexivity|].
  destruct (f c) eqn:Hc; [exact IH|]. simpl. now rewrite Hc.
Qed.

Lemma dropWhile_snoc (f : N -> bool) (s : jsstring) (c : N) :
  f c = false -> dropWhile f (s ++ [c]) = dropWhile f s ++ [c].
Proof.
  intros Hc. induction s as [|x s IH]; simpl.
  - now rewrite Hc.
  - destruct (f x); [exact IH|reflexivity].
Qed.

(** What [trimEnd] leaves is empty or ends with a character that is not
    white space. *)
Lemma trimEnd_shape (s : jsstring) :
  trimEnd s = [] \/ exists t c, trimEnd s = t ++ [c] /\ isWhiteSpace c = false.
Proof.
  unfold trimEnd. induction (rev s) as [|c r IH]; simpl; [now left|].
  destruct (isWhiteSpace c) eqn:Hc; [exact IH|].
  right. exists (rev r), c. now split.
Qed.

Lemma trimEnd_snoc (t : jsstring) (c : N) :
  isWhiteSpace c = false -> trimEnd (t ++ [c]) = t ++ [c].
Proof.
  intros Hc. unfold trimEnd. rewrite rev_app_distr. simpl. rewrite Hc.
  simpl. now rewrite rev_involutive.
Qed.

(** Trimming twice is trimming once. *)
Lemma trim_idem (s : jsstring) : trim (trim s) = trim s.
Proof.
  change (trim s) with (trimStart (trimEnd s)).
  destruct (trimEnd_shape s) as [->|(t & c & -> & Hc)].
  - reflexivity.
  - unfold trimStart. rewrite (dropWhile_snoc _ _ _ Hc).
    unfold trim. rewrite (trimEnd_snoc _ _ Hc).
    unfold trimStart. rewrite <- (dropWhile_snoc _ _ _ Hc).
    apply dropWhile_idem.
Qed.

Lemma scanLine_trimmed (st : list jsstring * jsstring) (line : jsstring) :
  Forall (fun e => trim e = e) st.1 ->
  Forall (fun e => trim e = e) (History.scanLine st line).1.
Proof.
  destruct st as [h cur]. intros Hh. cbn [fst] in Hh. unfold History.scanLine.
  destruct (startsWith (js "# ") line).
  - destruct (truthy cur); cbn [fst]; [|exact Hh].
    apply Forall_app. split; [exact Hh|].
    apply List.Forall_cons; [apply trim_idem|apply List.Forall_nil].
  - destruct (startsWith (js "+") line); exact Hh.
Qed.

Lemma scan_trimmed (lines : list jsstring) (st : list jsstring * jsstring) :
  Forall (fun e => trim e = e) st.1 ->
  Forall (fun e => trim e = e) (fold_left History.scanLine lines st).1.
Proof.
  revert st. induction lines as [|l lines IH]; intros st Hst; simpl; [exact Hst|].
  apply IH, scanLine_trimmed, Hst.
Qed.

Section HistoryMore.
Import History.
Variable path_isAbsolute : jsstring -> bool.
Variable path_join : jsstring -> jsstring -> jsstring.
Variables dir file : jsstring.

#[local] Abbreviation hpath' := (historyPath path_isAbsolute path_join dir file).
#[local] Abbreviation add' := (addToInputHistory path_isAbsolute path_join dir file).
#[local] Abbreviation load' := (loadInputHistory path_isAbsolute path_join dir file).

(** X1. Whatever bytes the history file holds, or if it is missing, a
    prompt written with [addToInputHistory] is read back by
    [loadInputHistory] as the first entry, in front of the entries read
    before the write: it comes back with every lone surrogate replaced
    by U+FFFD and then trimmed, so a well-formed prompt comes back
    trimmed. No other file changes. The timestamp holds no newline;
    [codeUnits] holds of every JavaScript string. *)
Theorem addToInputHistory_front (timestamp message : jsstring) (fs : FileSystem) :
  NL ∉ timestamp ->
  Utf8.codeUnits timestamp -> Utf8.codeUnits message ->
  load' (add' timestamp message fs) = trim (Utf8.toWellFormed message) :: load' fs
  /\ (Utf8.isWellFormed message ->
      load' (add' timestamp message fs) = trim message :: load' fs)
  /\ forall other, other <> hpath' -> add' timestamp message fs !! other = fs !! other.
Proof.
  intros Hts Hut Hum.
  assert (Hload : load' (add' timestamp message fs)
                  = trim (Utf8.toWellFormed message) :: load' fs).
  { rewrite !load_parse, !parseHistory_flush, contentOf_add by assumption.
    rewrite scan_entry by now apply toWellFormed_no_nl.
    rewrite flush_entry, rev_app_distr. reflexivity. }
  split; [exact Hload|]. split.
  - intros Hwf. rewrite Hload. now rewrite Hwf.
  - intros other Hother. unfold addToInputHistory.
    now rewrite lookup_insert_ne.
Qed.

(** X2. Whatever bytes the history file holds, no entry that
    [loadInputHistory] returns begins or ends with white space: every
    entry is its own [trim]. *)
Theorem loadInputHistory_trimmed (fs : FileSystem) :
  Forall (fun entry => trim entry = entry) (load' fs).
Proof.
  rewrite load_parse, parseHistory_flush.
  apply Forall_rev.
  pose proof (scan_trimmed (split_nl (contentOf path_isAbsolute path_join dir file fs))
                ([], []) (List.Forall_nil _)) as Hscan.
  unfold scan. destruct (fold_left _ _ _) as [h cur]. simpl in *.
  destruct (truthy cur); [|exact Hscan].
  apply Forall_app. split; [exact Hscan|].
  apply List.Forall_cons; [apply trim_idem|apply List.Forall_nil].
Qed.

End HistoryMore.

(** ** Remembered answers *)

(** The answer a raw answer stands for, and whether it is remembered. *)
Lemma answerQuestion_table (answer : jsstring) (userInput : option jsstring)
    (p : Project) (question : QuestionData) :
  currentQuestion p = Some question ->
  questionAnswers (after (answerQuestion answer userInput) p)
  = if eqb (toLowerCase answer) (js "d") || eqb (toLowerCase answer) (js "a")
    then <[getQuestionKey question :=
             if eqb (toLowerCase answer) (js "a") || eqb (toLowerCase answer) (js "y")
             then Yes else No]> (questionAnswers p)
    else questionAnswers p.
Proof.
  intros Hq. unfold answerQuestion. unfold_call. rewrite Hq.
  destruct (eqb (toLowerCase answer) (js "a") || eqb (toLowerCase answer) (js "y")),
    (eqb (toLowerCase answer) (js "d") || eqb (toLowerCase answer) (js "a")),
    (Question.internal question), (currentQuestionPromiseResolve p);
    reflexivity.
Qed.

(** The effects of [answerQuestion] are sends of the answer and at most
    the resolution of the held waiter. *)
Lemma answerQuestion_effects (answer : jsstring) (userInput : option jsstring)
    (p : Project) (question : QuestionData) :
  currentQuestion p = Some question ->
  exists a,
    effects (answerQuestion answer userInput) p
    = (if Question.internal question then []
       else map (fun connector => SendAnswerQuestionMessage (connectorId connector) a)
                (findMessageConnectors AnswerQuestion p))
      ++ match currentQuestionPromiseResolve p with
         | Some waiter => [ResolveQuestion waiter a userInput]
         | None => []
         end.
Proof.
  intros Hq. unfold answerQuestion. unfold_call. rewrite Hq.
  destruct (eqb (toLowerCase answer) (js "a") || eqb (toLowerCase answer) (js "y"));
    [exists Yes|exists No].
  all: destruct (eqb (toLowerCase answer) (js "d") || eqb (toLowerCase answer) (js "a")),
         (Question.internal question), (currentQuestionPromiseResolve p);
       cbn; rewrite ?app_nil_r; reflexivity.
Qed.

Lemma answerQuestion_no_ask (answer : jsstring) (userInput : option jsstring)
    (p : Project) (question : QuestionData) :
  UiAskQuestion question ∉ effects (answerQuestion answer userInput) p.
Proof.
  destruct (currentQuestion p) as [q|] eqn:Hq.
  - destruct (answerQuestion_effects answer userInput p q Hq) as [a ->].
    intros Hin. apply elem_of_app in Hin as [Hin|Hin].
    + destruct (Question.internal q); [inversion Hin|].
      apply list_elem_of_fmap in Hin as [c [Hc _]]. discriminate.
    + destruct (currentQuestionPromiseResolve p).
      * apply list_elem_of_singleton in Hin. discriminate.
      * inversion Hin.
  - unfold effects. rewrite (answerQuestion_closed _ _ _ Hq). intros Hin. inversion Hin.
Qed.

(** [askQuestion] for a question with a remembered answer, internal or
    not: the promise is resolved at once and the UI is not asked. *)
Lemma askQuestion_stored (questionData : QuestionData) (promise : nat)
    (p : Project) (storedAnswer : YesNo) :
  questionAnswers p !! getQuestionKey questionData = Some storedAnswer ->
  result (askQuestion questionData promise) p
  = AlreadyResolved (yesNoString storedAnswer) None
  /\ forall question, UiAskQuestion question ∉ effects (askQuestion questionData promise) p.
Proof.
  intros Hstored.
  pose proof (answerQuestion_no_ask (yesNoString storedAnswer) None
                (set_currentQuestion (Some questionData) p)) as Hquiet.
  unfold askQuestion. unfold_call. unfold effects in Hquiet.
  cbn [questionAnswers set_currentQuestion]. rewrite Hstored.
  destruct (Question.internal questionData); cbn [negb].
  - cbn. split; [reflexivity|]. intros question Hin. inversion Hin.
  - destruct (answerQuestion (yesNoString storedAnswer) None
                (set_currentQuestion (Some questionData) p)) as [[b p1] es].
    cbn in Hquiet |- *. rewrite !app_nil_r. split; [reflexivity|exact Hquiet].
Qed.

(** X4. [answerQuestion] touches the remembered answers only for [d] and
    [a] and then only under the key of the question that was open: any
    other answer leaves the table as it was, and every other key keeps
    its entry. With no question open nothing changes at all. *)
Theorem answerQuestion_table_frame (answer : jsstring) (userInput : option jsstring)
    (p : Project) :
  (eqb (toLowerCase answer) (js "d") || eqb (toLowerCase answer) (js "a") = false ->
   questionAnswers (after (answerQuestion answer userInput) p) = questionAnswers p)
  /\ (forall question k,
        currentQuestion p = Some question -> k <> getQuestionKey question ->
        questionAnswers (after (answerQuestion answer userInput) p) !! k
        = questionAnswers p !! k)
  /\ (currentQuestion p = None ->
      answerQuestion answer userInput p = (false, p, [])).
Proof.
  repeat split.
  - intros Hno. destruct (currentQuestion p) as [q|] eqn:Hq.
    + now rewrite (answerQuestion_table _ _ _ _ Hq), Hno.
    + unfold after. now rewrite (answerQuestion_closed _ _ _ Hq).
  - intros question k Hq Hk. rewrite (answerQuestion_table _ _ _ _ Hq).
    destruct (_ || _); [|reflexivity].
    now rewrite lookup_insert_ne.
  - apply answerQuestion_closed.
Qed.

(** X5. The answer to an internal question never reaches a connector:
    [answerQuestion] only resolves the held waiter, and [askQuestion] for
    an internal question with a remembered answer has no effect at all
    and leaves the question recorded as the current one. *)
Theorem internal_question_not_routed (question : QuestionData) (p : Project) :
  Question.internal question = true ->
  (forall answer userInput connector a,
     currentQuestion p = Some question ->
     SendAnswerQuestionMessage connector a
       ∉ effects (answerQuestion answer userInput) p)
  /\ (forall promise storedAnswer,
        questionAnswers p !! getQuestionKey question = Some storedAnswer ->
        effects (askQuestion question promise) p = []
        /\ currentQuestion (after (askQuestion question promise) p) = Some question).
Proof.
  intros Hint. split.
  - intros answer userInput connector a Hq Hin.
    destruct (answerQuestion_effects answer userInput p question Hq) as [a' Heff].
    rewrite Heff, Hint in Hin. simpl in Hin.
    destruct (currentQuestionPromiseResolve p).
    + apply list_elem_of_singleton in Hin. discriminate.
    + inversion Hin.
  - intros promise storedAnswer Hstored. unfold askQuestion. unfold_call.
    cbn [questionAnswers set_currentQuestion]. rewrite Hstored, Hint.
    split; reflexivity.
Qed.

(** X6. The key of a question without an explicit key runs its text and
    subject together, so different questions can share it: after [d]
    was answered to the question with text [t_s] and no subject, the
    question with text [t] and subject [s_] is answered from memory. *)
Theorem remembered_answer_shared (t s : jsstring) (p : Project)
    (userInput : option jsstring) (promise : nat) :
  let asked := {| Question.text := t ++ js "_" ++ s; Question.subject := None;
                  Question.key := None; Question.internal := false |} in
  let other := {| Question.text := t; Question.subject := Some (s ++ js "_");
                  Question.key := None; Question.internal := false |} in
  currentQuestion p = Some asked ->
  result (askQuestion other promise) (after (answerQuestion (js "d") userInput) p)
  = AlreadyResolved (js "n") None.
Proof.
  cbv zeta. intros Hq.
  assert (Hkey : getQuestionKey
                   {| Question.text := t; Question.subject := Some (s ++ js "_");
                      Question.key := None; Question.internal := false |}
                 = getQuestionKey
                     {| Question.text := t ++ js "_" ++ s; Question.subject := None;
                        Question.key := None; Question.internal := false |}).
  { unfold getQuestionKey, orElse, truthyOpt. cbn.
    destruct s; cbn; now rewrite <- ?app_assoc. }
  refine (proj1 (askQuestion_stored _ promise _ No _)).
  rewrite (answerQuestion_table _ _ _ _ Hq), Hkey. cbn. apply lookup_insert_eq.
Qed.

(** ** A prompt or a command while a question is open *)

(** Declining the open question, as [runPrompt] and [runCommand] do. *)
Lemma answerQuestion_no (userInput : option jsstring) (p : Project)
    (question : QuestionData) :
  currentQuestion p = Some question ->
  answerQuestion (js "n") userInput p
  = (match currentQuestionPromiseResolve p with Some _ => true | None => false end,
     match currentQuestionPromiseResolve p with
     | Some _ => set_currentQuestionPromiseResolve None (set_currentQuestion None p)
     | None => set_currentQuestion None p
     end,
     (if Question.internal question then []
      else map (fun connector => SendAnswerQuestionMessage (connectorId connector) No)
               (findMessageConnectors AnswerQuestion p))
     ++ match currentQuestionPromiseResolve p with
        | Some waiter => [ResolveQuestion waiter No userInput]
        | None => []
        end).
Proof.
  intros Hq. unfold answerQuestion. unfold_call. rewrite Hq.
  destruct (Question.internal question), (currentQuestionPromiseResolve p);
    cbn; rewrite ?app_nil_r; reflexivity.
Qed.

(** X7. A [runPrompt] that finds a question open with its waiter held is
    used up as the answer: the waiter is resolved with [n] and the prompt
    as user input, the caller returns no responses without suspending,
    nothing is remembered or queued, the prompt id stays as it was, and
    the only messages sent are the answer to the connectors (none for an
    internal question). *)
Theorem runPrompt_answers_question (me : nat) (prompt : jsstring) (p : Project)
    (question : QuestionData) (waiter : nat) :
  currentQuestion p = Some question ->
  currentQuestionPromiseResolve p = Some waiter ->
  let p' := after (Scheduler.runPrompt_enter me prompt) p in
  result (Scheduler.runPrompt_enter me prompt) p = Scheduler.Returned []
  /\ effects (Scheduler.runPrompt_enter me prompt) p
     = (if Question.internal question then []
        else map (fun connector => SendAnswerQuestionMessage (connectorId connector) No)
                 (findMessageConnectors AnswerQuestion p))
       ++ [ResolveQuestion waiter No (Some prompt)]
  /\ currentQuestion p' = None
  /\ currentQuestionPromiseResolve p' = None
  /\ questionAnswers p' = questionAnswers p
  /\ runPromptResolves p' = runPromptResolves p
  /\ currentPromptId p' = currentPromptId p.
Proof.
  intros Hq Hw. cbv zeta.
  unfold Scheduler.runPrompt_enter. unfold_call.
  rewrite Hq, (answerQuestion_no _ _ _ Hq), Hw.
  cbn. rewrite ?app_nil_r. repeat split.
Qed.

(** X8. A question that is open without a held waiter does not use the
    prompt up: it is closed with [n], and the caller goes on as if no
    question had been open, queued behind a running prompt or on its way
    to the history. *)
Theorem runPrompt_closes_stale_question (me : nat) (prompt : jsstring) (p : Project)
    (question : QuestionData) :
  currentQuestion p = Some question ->
  currentQuestionPromiseResolve p = None ->
  let p' := after (Scheduler.runPrompt_enter me prompt) p in
  result (Scheduler.runPrompt_enter me prompt) p
  = (if truthyOpt (currentPromptId p) then Scheduler.Queued else Scheduler.AwaitHistory)
  /\ currentQuestion p' = None
  /\ runPromptResolves p'
     = runPromptResolves p
       ++ (if truthyOpt (currentPromptId p) then [WakeQueued me] else []).
Proof.
  intros Hq Hw. cbv zeta.
  unfold Scheduler.runPrompt_enter. unfold_call.
  rewrite Hq, (answerQuestion_no _ _ _ Hq), Hw.
  cbn. destruct (truthyOpt (currentPromptId p)); cbn; rewrite ?app_nil_r; repeat split.
Qed.

(** X9. [runCommand] declines an open question before it routes the
    command: afterwards no question is open, a held waiter has been
    resolved with [n] and no user input, and the command went to the
    connectors listening to run-command, in registration order, after
    the answer. With [addToHistory] the command is written to the history
    with a leading slash. *)
Theorem runCommand_declines_question (command : jsstring) (addToHistory : bool)
    (p : Project) (question : QuestionData) :
  currentQuestion p = Some question ->
  let r := runCommand command addToHistory p in
  currentQuestion r.1 = None
  /\ currentQuestionPromiseResolve r.1 = None
  /\ r.2 = map Core
             ((if Question.internal question then []
               else map (fun connector =>
                           SendAnswerQuestionMessage (connectorId connector) No)
                        (findMessageConnectors AnswerQuestion p))
              ++ match currentQuestionPromiseResolve p with
                 | Some waiter => [ResolveQuestion waiter No None]
                 | None => []
                 end)
           ++ (if addToHistory then [AppendHistory (js "/" ++ command)] else [])
           ++ map (fun connector => SendRunCommandMessage (connectorId connector) command)
                  (findMessageConnectors RunCommand p).
Proof.
  intros Hq. cbv zeta. unfold runCommand.
  rewrite Hq, (answerQuestion_no _ _ _ Hq). cbn [fst snd].
  destruct (currentQuestionPromiseResolve p) eqn:Hw; repeat split;
    try reflexivity; exact Hw.
Qed.

(** ** The prompt queue: nobody is forgotten *)

Lemma settle_cons (e : Effect) (es : list Effect) (cs : list Scheduler.Caller) :
  Scheduler.settle (e :: es) cs = Scheduler.settle es (Scheduler.resume e cs).
Proof. reflexivity. Qed.

Lemma settle_app (es1 es2 : list Effect) (cs : list Scheduler.Caller) :
  Scheduler.settle (es1 ++ es2) cs = Scheduler.settle es2 (Scheduler.settle es1 cs).
Proof. unfold Scheduler.settle. apply fold_left_app. Qed.

Lemma settle_quiet (es : list Effect) (cs : list Scheduler.Caller) :
  Forall (fun e => isInvoke e = false) es -> Scheduler.settle es cs = cs.
Proof.
  revert cs. induction es as [|e es IH]; intros cs Hq; [reflexivity|].
  apply Forall_cons in Hq as [He Hes]. rewrite settle_cons, (IH _ Hes).
  destruct e; try reflexivity. discriminate.
Qed.

(** A caller that still depends on a callback after an effect was there
    before, unchanged, and the effect was not its callback. *)
Lemma resume_blocked (e : Effect) (cs : list Scheduler.Caller) (j : nat)
    (c : Scheduler.Caller) (waiter : Waiter) :
  Scheduler.resume e cs !! j = Some c ->
  callbackOf j (Scheduler.pc c) = Some waiter ->
  cs !! j = Some c /\ forall rs, e <> InvokeWaiter waiter rs.
Proof.
  intros Hj Hcb. destruct e as [| | | | | | | | | | | | |w rs];
    try (split; [exact Hj|discriminate]).
  destruct w as [i|i]; simpl in Hj; rewrite list_lookup_alter in Hj;
    destruct (decide (i = j)) as [->|Hne].
  - destruct (cs !! j) as [c0|] eqn:Hc0; [|discriminate]. simpl in Hj.
    destruct (Scheduler.pc c0) eqn:Hpc; inversion Hj; subst; clear Hj;
      try (simpl in Hcb; discriminate);
      rewrite Hpc in Hcb; simpl in Hcb; inversion Hcb; subst;
      (split; [reflexivity|discriminate]).
  - split; [exact Hj|]. intros rs' Heq. inversion Heq; subst.
    destruct (Scheduler.pc c); simpl in Hcb; inversion Hcb; subst; contradiction.
  - destruct (cs !! j) as [c0|] eqn:Hc0; [|discriminate]. simpl in Hj.
    destruct (Scheduler.pc c0) eqn:Hpc; inversion Hj; subst; clear Hj;
      try (simpl in Hcb; discriminate);
      rewrite Hpc in Hcb; simpl in Hcb; inversion Hcb; subst;
      (split; [reflexivity|discriminate]).
  - split; [exact Hj|]. intros rs' Heq. inversion Heq; subst.
    destruct (Scheduler.pc c); simpl in Hcb; inversion Hcb; subst; contradiction.
Qed.

Lemma settle_blocked (es : list Effect) (cs : list Scheduler.Caller) (j : nat)
    (c : Scheduler.Caller) (waiter : Waiter) :
  Scheduler.settle es cs !! j = Some c ->
  callbackOf j (Scheduler.pc c) = Some waiter ->
  cs !! j = Some c /\ forall rs, InvokeWaiter waiter rs ∉ es.
Proof.
  revert cs. induction es as [|e es IH]; intros cs Hj Hcb.
  - split; [exact Hj|]. intros rs Hin. inversion Hin.
  - rewrite settle_cons in Hj. destruct (IH _ Hj Hcb) as [Hres Hnot].
    destruct (resume_blocked _ _ _ _ _ Hres Hcb) as [Hcs Hne].
    split; [exact Hcs|]. intros rs Hin.
    apply elem_of_cons in Hin as [Heq|Hin]; [now apply (Hne rs)|now apply (Hnot rs)].
Qed.

Lemma quiet_sends (f : Connector -> Effect) (cs : list Connector) :
  (forall c, isInvoke (f c) = false) ->
  Forall (fun e => isInvoke e = false) (map f cs).
Proof. intros Hf. apply Forall_map, Forall_forall. intros c _. apply Hf. Qed.

Lemma answerQuestion_queue (answer : jsstring) (userInput : option jsstring)
    (p : Project) :
  runPromptResolves (after (answerQuestion answer userInput) p) = runPromptResolves p
  /\ Forall (fun e => isInvoke e = false) (effects (answerQuestion answer userInput) p).
Proof.
  destruct (currentQuestion p) as [q|] eqn:Hq.
  - split.
    + unfold answerQuestion. unfold_call. rewrite Hq.
      destruct (eqb _ _ || eqb _ _), (eqb _ _ || eqb _ _),
        (Question.internal q), (currentQuestionPromiseResolve p); reflexivity.
    + destruct (answerQuestion_effects answer userInput p q Hq) as [a ->].
      apply Forall_app. split.
      * destruct (Question.internal q); [constructor|]. now apply quiet_sends.
      * destruct (currentQuestionPromiseResolve p); repeat constructor.
  - unfold after, effects. rewrite (answerQuestion_closed _ _ _ Hq).
    split; [reflexivity|constructor].
Qed.

Lemma askQuestion_queue (questionData : QuestionData) (promise : nat) (p : Project) :
  runPromptResolves (after (askQuestion questionData promise) p) = runPromptResolves p
  /\ Forall (fun e => isInvoke e = false) (effects (askQuestion questionData promise) p).
Proof.
  unfold askQuestion. unfold_call.
  cbn [questionAnswers set_currentQuestion].
  destruct (questionAnswers p !! getQuestionKey questionData) as [stored|].
  - destruct (Question.internal questionData); cbn [negb].
    + cbn. split; [reflexivity|constructor].
    + pose proof (answerQuestion_queue (yesNoString stored) None
                    (set_currentQuestion (Some questionData) p)) as [Hres Hquiet].
      unfold after, effects in Hres, Hquiet.
      destruct (answerQuestion (yesNoString stored) None
                  (set_currentQuestion (Some questionData) p)) as [[b p1] es].
      cbn in Hres, Hquiet |- *. rewrite !app_nil_r. now split.
  - cbn. split; [reflexivity|repeat constructor].
Qed.

(** Closes the side goals of the queue lemmas. *)
Ltac queue_side :=
  repeat split;
  first [ assumption | discriminate | solve [repeat constructor]
        | congruence | (rewrite ?app_nil_r; congruence) ].

(** Where [runPrompt] suspends first, and what it leaves in the queue. *)
Lemma runPrompt_enter_queue (me : nat) (prompt : jsstring) (p : Project) :
  let r := Scheduler.runPrompt_enter me prompt p in
  Forall (fun e => isInvoke e = false) r.2
  /\ r.1.1 <> Scheduler.AwaitResponses
  /\ runPromptResolves r.1.2
     = runPromptResolves p
       ++ match r.1.1 with Scheduler.Queued => [WakeQueued me] | _ => [] end.
Proof.
  cbv zeta.
  pose proof (answerQuestion_queue (js "n") (Some prompt) p) as [Hres Hquiet].
  unfold after, effects in Hres, Hquiet.
  unfold Scheduler.runPrompt_enter. unfold_call.
  destruct (currentQuestion p) as [q|].
  - destruct (answerQuestion (js "n") (Some prompt) p) as [[b p1] es].
    cbn in Hres, Hquiet |- *. destruct b; cbn.
    + rewrite !app_nil_r. queue_side.
    + destruct (truthyOpt (currentPromptId p1)); cbn; rewrite !app_nil_r; queue_side.
  - cbn. destruct (truthyOpt (currentPromptId p)); cbn; queue_side.
Qed.

Lemma runPrompt_afterHistory_queue (me : nat) (uuid prompt : jsstring)
    (mode : option jsstring) (p : Project) :
  let r := Scheduler.runPrompt_afterHistory me uuid prompt mode p in
  Forall (fun e => isInvoke e = false) r.2
  /\ r.1.1 <> Scheduler.Queued
  /\ runPromptResolves r.1.2
     = runPromptResolves p
       ++ match r.1.1 with Scheduler.AwaitResponses => [PromptResult me] | _ => [] end.
Proof.
  cbv zeta. unfold Scheduler.runPrompt_afterHistory, sendPrompt. unfold_call.
  destruct (Scheduler.isAgent mode); cbn; rewrite ?app_nil_r.
  - queue_side.
  - split; [|queue_side].
    repeat (apply List.Forall_cons; [reflexivity|]). now apply quiet_sends.
Qed.

Lemma closeCommandOutput_frame (p : Project) :
  let p' := after closeCommandOutput p in
  Forall (fun e => isInvoke e = false) (effects closeCommandOutput p)
  /\ truthyOpt (currentCommand p') = false
  /\ runPromptResolves p' = runPromptResolves p
  /\ currentPromptResponses p' = currentPromptResponses p
  /\ currentPromptId p' = currentPromptId p
  /\ currentResponseMessageId p' = currentResponseMessageId p.
Proof.
  cbv zeta. unfold closeCommandOutput. unfold_call.
  destruct (currentCommand p) as [command|] eqn:Hc; cbn; [|rewrite Hc; repeat split; constructor].
  destruct (truthy command) eqn:Ht; cbn; [|rewrite Hc; cbn; rewrite Ht; repeat split; constructor].
  destruct (commandOutputs p !! command) as [output|]; cbn.
  - destruct (truthy output && truthy (trim output)); cbn; repeat split; repeat constructor.
  - repeat split; constructor.
Qed.

(** What [promptFinished] does, in one piece. *)
Lemma promptFinished_spec (p : Project) :
  let p' := after promptFinished p in
  (exists pre,
     effects promptFinished p
     = pre ++ map (fun resolve => InvokeWaiter resolve (currentPromptResponses p))
                  (runPromptResolves p)
     /\ Forall (fun e => isInvoke e = false) pre)
  /\ runPromptResolves p' = []
  /\ currentPromptResponses p' = []
  /\ currentPromptId p' = None
  /\ truthyOpt (currentResponseMessageId p') = false
  /\ truthyOpt (currentCommand p') = false.
Proof.
  cbv zeta. unfold promptFinished. unfold_call.
  destruct (truthyOpt (currentResponseMessageId p)) eqn:Hid; cbn.
  - pose proof (closeCommandOutput_frame
                  (set_currentPromptId None
                     (set_currentPromptResponses []
                        (set_currentResponseMessageId None p))))
      as (Hquiet & Hcmd & Hres & Hresp & Hpid & Hmid).
    unfold after, effects in *.
    destruct (closeCommandOutput _) as [[u p3] es]. cbn in *.
    rewrite Hres, !app_nil_r. repeat split; try assumption.
    + exists (UiResponseCompleted (emptyCompleted (currentResponseMessageId p)) :: es).
      split; [reflexivity|].
      apply List.Forall_cons; [reflexivity|assumption].
    + now rewrite Hmid.
  - pose proof (closeCommandOutput_frame
                  (set_currentPromptId None (set_currentPromptResponses [] p)))
      as (Hquiet & Hcmd & Hres & Hresp & Hpid & Hmid).
    unfold after, effects in *.
    destruct (closeCommandOutput _) as [[u p3] es]. cbn in *.
    rewrite Hres, !app_nil_r. repeat split; try assumption.
    + exists es. now split.
    + now rewrite Hmid.
Qed.

(** X10. [promptFinished] calls every callback of the queue once, in
    the order of the queue, each with the responses collected so far,
    after everything else it does; afterwards the queue and the
    collected responses are empty and no prompt id, response message id
    or command is current. *)
Theorem promptFinished_resolves_in_order (p : Project) :
  let p' := after promptFinished p in
  List.filter isInvoke (effects promptFinished p)
  = map (fun resolve => InvokeWaiter resolve (currentPromptResponses p))
        (runPromptResolves p)
  /\ (exists pre,
        effects promptFinished p
        = pre ++ List.filter isInvoke (effects promptFinished p)
        /\ List.filter isInvoke pre = [])
  /\ runPromptResolves p' = []
  /\ currentPromptResponses p' = []
  /\ currentPromptId p' = None
  /\ truthyOpt (currentResponseMessageId p') = false
  /\ truthyOpt (currentCommand p') = false.
Proof.
  cbv zeta.
  destruct (promptFinished_spec p) as ((pre & Heff & Hquiet) & Hrest).
  assert (Hpre : List.filter isInvoke pre = []).
  { clear Heff. induction pre as [|e pre IH]; [reflexivity|].
    apply Forall_cons in Hquiet as [He Hq]. simpl. rewrite He. now apply IH. }
  assert (Hinv : forall rs ws,
             List.filter isInvoke (map (fun w => InvokeWaiter w rs) ws)
             = map (fun w => InvokeWaiter w rs) ws).
  { intros rs ws. induction ws as [|w ws IH]; [reflexivity|]. simpl. now rewrite IH. }
  assert (Hfilter : List.filter isInvoke (effects promptFinished p)
                    = map (fun resolve => InvokeWaiter resolve (currentPromptResponses p))
                          (runPromptResolves p)).
  { rewrite Heff, List.filter_app, Hpre, Hinv. reflexivity. }
  split; [exact Hfilter|]. split; [|exact Hrest].
  exists pre. rewrite Hfilter. now split.
Qed.

Lemma killAider_queue (treeKill : option jsstring) (p : Project) :
  (exists pid, process p = Some pid) /\ treeKill = None
  /\ effects (killAider treeKill) p
     = RemovePidFile :: map (fun resolve => InvokeWaiter resolve []) (runPromptResolves p)
       ++ [SessionClearMessages]
  /\ runPromptResolves (after (killAider treeKill) p) = []
  \/ effects (killAider treeKill) p = []
     /\ runPromptResolves (after (killAider treeKill) p) = runPromptResolves p.
Proof.
  unfold killAider. unfold_call.
  destruct (process p) as [pid|] eqn:Hp; [|right; split; reflexivity].
  destruct treeKill as [err|]; [right; split; reflexivity|].
  left. cbn. rewrite ?app_nil_r. repeat split. now exists pid.
Qed.

(** A call that only adds to the queue and calls no callback keeps
    every caller registered. *)
Lemma registered_keeps {A : Type} (m : M A) (w : Scheduler.World) :
  registered w ->
  Forall (fun e => isInvoke e = false) (effects m (Scheduler.project w)) ->
  (forall waiter, waiter ∈ runPromptResolves (Scheduler.project w) ->
                  waiter ∈ runPromptResolves (after m (Scheduler.project w))) ->
  registered (Scheduler.call m w).2
  /\ Scheduler.callers (Scheduler.call m w).2 = Scheduler.callers w.
Proof.
  intros Hreg Hquiet Hsub. unfold Scheduler.call, registered. cbn.
  unfold effects in Hquiet. rewrite (settle_quiet _ _ Hquiet).
  split; [|reflexivity]. intros i c waiter Hi Hcb.
  apply Hsub. exact (Hreg i c waiter Hi Hcb).
Qed.

(** A call that calls every callback of the queue leaves no caller
    depending on one. *)
Lemma registered_flushes {A : Type} (m : M A) (w : Scheduler.World)
    (pre post : list Effect) (rs : list ResponseCompletedData) :
  registered w ->
  effects m (Scheduler.project w)
  = pre ++ map (fun resolve => InvokeWaiter resolve rs)
               (runPromptResolves (Scheduler.project w)) ++ post ->
  forall i c, Scheduler.callers (Scheduler.call m w).2 !! i = Some c ->
              callbackOf i (Scheduler.pc c) = None.
Proof.
  intros Hreg Heff i c Hi. unfold Scheduler.call in Hi. cbn in Hi.
  destruct (callbackOf i (Scheduler.pc c)) as [waiter|] eqn:Hcb; [|reflexivity].
  exfalso. destruct (settle_blocked _ _ _ _ _ Hi Hcb) as [Hold Hnot].
  apply (Hnot rs). unfold effects in Heff. rewrite Heff.
  apply elem_of_app. right. apply elem_of_app. left.
  apply list_elem_of_fmap. exists waiter. split; [reflexivity|].
  exact (Hreg i c waiter Hold Hcb).
Qed.

Lemma unblocked_registered (w : Scheduler.World) :
  (forall i c, Scheduler.callers w !! i = Some c ->
               callbackOf i (Scheduler.pc c) = None) ->
  registered w.
Proof.
  intros Hnone i c waiter Hi Hcb. rewrite (Hnone i c Hi) in Hcb. discriminate.
Qed.

Section QueueFacts.
Variable path_isAbsolute : jsstring -> bool.
Variable path_join : jsstring -> jsstring -> jsstring.

#[local] Abbreviation step' := (Scheduler.step path_isAbsolute path_join).
#[local] Abbreviation run' := (Scheduler.run path_isAbsolute path_join).

Lemma promptFinished_unblocks (w : Scheduler.World) :
  registered w ->
  forall i c, Scheduler.callers (step' Scheduler.EvPromptFinished w) !! i = Some c ->
              callbackOf i (Scheduler.pc c) = None.
Proof.
  intros Hreg.
  destruct (promptFinished_spec (Scheduler.project w)) as ((pre & Heff & _) & _).
  apply (registered_flushes promptFinished w pre []
           (currentPromptResponses (Scheduler.project w)) Hreg).
  now rewrite app_nil_r.
Qed.

Lemma step_registered (ev : Scheduler.Event) (w : Scheduler.World) :
  registered w -> registered (step' ev w).
Proof.
  intros Hreg. destruct ev as [prompt mode|i timestamp uuid|i| |treeKill|code|q promise|answer userInput].
  - (* a new caller *)
    pose proof (runPrompt_enter_queue (length (Scheduler.callers w)) prompt
                  (Scheduler.project w)) as (Hquiet & Hpc & Hres).
    cbv zeta in Hquiet, Hpc, Hres.
    unfold Scheduler.step, Scheduler.with_callers, Scheduler.call, registered. cbn.
    rewrite (settle_quiet _ _ Hquiet), Hres.
    intros j c waiter Hj Hcb. apply lookup_snoc_Some in Hj as [[_ Hj]|[-> <-]].
    + apply elem_of_app. left. exact (Hreg j c waiter Hj Hcb).
    + cbn in Hcb.
      destruct (Scheduler.runPrompt_enter _ prompt (Scheduler.project w)).1.1;
        cbn in Hcb; try discriminate; [|contradiction].
      inversion Hcb. apply elem_of_app. right. now apply list_elem_of_singleton.
  - (* the history was written *)
    unfold Scheduler.step.
    destruct (Scheduler.callers w !! i) as [c0|] eqn:Hc0; [|exact Hreg].
    destruct (Scheduler.pc c0) eqn:Hpc0; try exact Hreg.
    pose proof (runPrompt_afterHistory_queue i uuid (Scheduler.prompt c0)
                  (Scheduler.mode c0) (Scheduler.project w)) as (Hquiet & Hpc & Hres).
    cbv zeta in Hquiet, Hpc, Hres.
    unfold Scheduler.with_callers, Scheduler.call, Scheduler.writeHistory, registered. cbn.
    rewrite (settle_quiet _ _ Hquiet), Hres.
    intros j c waiter Hj Hcb. rewrite list_lookup_alter in Hj.
    destruct (decide (i = j)) as [->|Hne].
    + rewrite Hc0 in Hj. cbn in Hj. inversion Hj; subst; clear Hj. cbn in Hcb.
      destruct (Scheduler.runPrompt_afterHistory _ uuid _ _ (Scheduler.project w)).1.1;
        cbn in Hcb; try discriminate; [contradiction|].
      inversion Hcb. apply elem_of_app. right. now apply list_elem_of_singleton.
    + apply elem_of_app. left. exact (Hreg j c waiter Hj Hcb).
  - (* the agent finished *)
    unfold Scheduler.step, Scheduler.with_callers, registered. cbn.
    intros j c waiter Hj Hcb. rewrite list_lookup_alter in Hj.
    destruct (decide (i = j)) as [->|Hne]; [|exact (Hreg j c waiter Hj Hcb)].
    destruct (Scheduler.callers w !! j) as [c0|] eqn:Hc0; [|discriminate].
    cbn in Hj. injection Hj as <-.
    destruct (Scheduler.pc c0) eqn:Hpc0; cbn in Hcb; rewrite ?Hpc0 in Hcb;
      cbn in Hcb; try discriminate;
      apply (Hreg j c0 waiter Hc0); rewrite Hpc0; exact Hcb.
  - (* the turn finished *)
    apply unblocked_registered, promptFinished_unblocks, Hreg.
  - (* the worker is stopped *)
    unfold Scheduler.step.
    destruct (killAider_queue treeKill (Scheduler.project w))
      as [(_ & _ & Heff & _)|[Heff Hres]].
    + apply unblocked_registered.
      apply (registered_flushes (killAider treeKill) w [RemovePidFile]
               [SessionClearMessages] [] Hreg). exact Heff.
    + apply registered_keeps; [exact Hreg| |].
      * rewrite Heff. constructor.
      * intros waiter Hin. now rewrite Hres.
  - (* the worker process exits *)
    unfold Scheduler.step. apply registered_keeps; [exact Hreg|constructor|auto].
  - unfold Scheduler.step.
    destruct (askQuestion_queue q promise (Scheduler.project w)) as [Hres Hquiet].
    apply registered_keeps; [exact Hreg|exact Hquiet|].
    intros waiter Hin. now rewrite Hres.
  - unfold Scheduler.step.
    destruct (answerQuestion_queue answer userInput (Scheduler.project w)) as [Hres Hquiet].
    apply registered_keeps; [exact Hreg|exact Hquiet|].
    intros waiter Hin. now rewrite Hres.
Qed.

Lemma run_registered (evs : list Scheduler.Event) (w : Scheduler.World) :
  registered w -> registered (run' evs w).
Proof.
  revert w. induction evs as [|ev evs IH]; intros w Hreg; [exact Hreg|].
  simpl. apply IH, step_registered, Hreg.
Qed.

(** X11. Nobody is forgotten in the queue. Along every run of calls and
    events, every caller of [runPrompt] that waits for the running prompt
    or for its responses has its callback in [runPromptResolves]; so
    whenever [promptFinished] is called, and whenever [killAider] stops a
    process, no caller is left waiting: queued callers go on and callers
    of [sendPrompt] return. *)
Theorem queue_leaves_nobody_waiting (evs : list Scheduler.Event) (w : Scheduler.World) :
  registered w ->
  let w' := run' evs w in
  registered w'
  /\ (forall i c, Scheduler.callers (step' Scheduler.EvPromptFinished w') !! i = Some c ->
                  Scheduler.pc c <> Scheduler.Queued
                  /\ Scheduler.pc c <> Scheduler.AwaitResponses)
  /\ (forall pid i c,
        process (Scheduler.project w') = Some pid ->
        Scheduler.callers (step' (Scheduler.EvKillAider None) w') !! i = Some c ->
        Scheduler.pc c <> Scheduler.Queued
        /\ Scheduler.pc c <> Scheduler.AwaitResponses).
Proof.
  intros Hreg. cbv zeta.
  pose proof (run_registered evs w Hreg) as Hrun.
  split; [exact Hrun|]. split.
  - intros i c Hi.
    pose proof (promptFinished_unblocks _ Hrun i c Hi) as Hcb.
    split; intros Hpc; rewrite Hpc in Hcb; discriminate.
  - intros pid i c Hproc Hi.
    destruct (killAider_queue None (Scheduler.project (run' evs w)))
      as [(_ & _ & Heff & _)|[Heff _]].
    + pose proof (registered_flushes (killAider None) _ [RemovePidFile]
                    [SessionClearMessages] [] Hrun Heff i c Hi) as Hcb.
      split; intros Hpc; rewrite Hpc in Hcb; discriminate.
    + exfalso. revert Heff. unfold killAider. unfold_call. rewrite Hproc.
      cbn. discriminate.
Qed.

End QueueFacts.

(** ** Responses of a turn *)

Section TurnFacts.
Variable Number_toString : number -> jsstring.
Variable parseUsageReport : jsstring -> option UsageReportData.

#[local] Abbreviation process' :=
  (processResponseMessage Number_toString parseUsageReport).
#[local] Abbreviation afterResponses' :=
  (afterResponses Number_toString parseUsageReport).

(** An unfinished message: one chunk for the UI, under the id of the
    message or else the current response id, which is allocated now if
    there is none. *)
Lemma processResponseMessage_chunk (uuid : jsstring) (message : ResponseMessage)
    (p : Project) :
  Message.finished message = false ->
  let current := if truthyOpt (currentResponseMessageId p)
                 then currentResponseMessageId p else Some uuid in
  process' uuid message p
  = (current,
     if truthyOpt (currentResponseMessageId p) then p
     else set_currentResponseMessageId (Some uuid) p,
     [UiResponseChunk (orElse (Message.id message) current) (Message.content message)]).
Proof.
  intros Hfin. cbv zeta. unfold processResponseMessage. unfold_call.
  rewrite Hfin. cbn [negb].
  destruct (truthyOpt (currentResponseMessageId p)) eqn:Hid; cbn; reflexivity.
Qed.

(** A finished message: one more collected response that carries the
    content and the forwarded commit message; the queue and the prompt id
    stay and no response id is current afterwards. *)
Lemma processResponseMessage_completed (uuid : jsstring) (message : ResponseMessage)
    (p : Project) :
  Message.finished message = true ->
  let p' := after (process' uuid message) p in
  (exists data,
     currentPromptResponses p' = currentPromptResponses p ++ [data]
     /\ Completed.content data = Message.content message
     /\ Completed.commitMessage data
        = forwardedCommitMessage Number_toString message
            (resolveUsageReport parseUsageReport message))
  /\ runPromptResolves p' = runPromptResolves p
  /\ currentPromptId p' = currentPromptId p
  /\ currentResponseMessageId p' = None
  /\ result (process' uuid message) p = None.
Proof.
  intros Hfin. cbv zeta. unfold processResponseMessage. unfold_call.
  rewrite Hfin. cbn [negb].
  destruct (truthyOpt (currentResponseMessageId p)); cbn.
  all: destruct (resolveUsageReport parseUsageReport message) as [report|]; cbn.
  all: unfold updateTotalCosts, closeCommandOutput; unfold_call; cbn.
  all: repeat match goal with
       | |- context [match ?x with _ => _ end] =>
           match x with
           | UsageReport.mcpAgentTotalCost _ => destruct x
           | UsageReport.aiderTotalCost _ => destruct x
           | toBoolean _ => destruct x
           end; cbn
       end.
  all: destruct (currentCommand p) as [command|]; cbn.
  all: try (destruct (truthy command); cbn).
  all: try (destruct (commandOutputs p !! command) as [output|]; cbn).
  all: try (destruct (truthy output && truthy (trim output)); cbn).
  all: (split; [eexists; repeat split; reflexivity|repeat split; reflexivity]).
Qed.

Lemma afterResponses_collects (messages : list (jsstring * ResponseMessage))
    (p : Project) :
  let p' := afterResponses' messages p in
  (exists collected,
     currentPromptResponses p' = currentPromptResponses p ++ collected
     /\ map Completed.content collected = map Message.content (finishedOnes messages)
     /\ map Completed.commitMessage collected
        = map (fun m => forwardedCommitMessage Number_toString m
                          (resolveUsageReport parseUsageReport m))
              (finishedOnes messages))
  /\ runPromptResolves p' = runPromptResolves p
  /\ currentPromptId p' = currentPromptId p.
Proof.
  cbv zeta. revert p. induction messages as [|[uuid m] messages IH]; intros p.
  - split; [|split; reflexivity]. exists []. now rewrite app_nil_r.
  - unfold afterResponses, finishedOnes in *. cbn [fold_left map fst snd List.filter].
    destruct (IH (after (process' uuid m) p))
      as ((collected & Hresp & Hcontent & Hcommit) & Hres & Hpid).
    rewrite Hresp, Hres, Hpid. clear Hresp Hres Hpid.
    destruct (Message.finished m) eqn:Hfin.
    + destruct (processResponseMessage_completed uuid m p Hfin)
        as ((data & Hd & Hdc & Hdm) & Hq & Hi & _).
      rewrite Hd, Hq, Hi. split; [|split; reflexivity].
      exists (data :: collected). rewrite <- app_assoc. cbn [map].
      now rewrite Hdc, Hdm, Hcontent, Hcommit.
    + unfold after. rewrite (processResponseMessage_chunk uuid m p Hfin). cbn [fst snd].
      destruct (truthyOpt (currentResponseMessageId p));
        (split; [exists collected; now repeat split|split; reflexivity]).
Qed.

(** X12. A turn delivers what arrived during it. After [sendPrompt],
    whatever sequence of response messages arrives, [promptFinished]
    calls the callback of that [sendPrompt] with one response for each
    finished message, in order of arrival, carrying its content and its
    forwarded commit message; unfinished chunks add nothing, and
    responses collected before the [sendPrompt] are dropped. *)
Theorem turn_delivers_responses (caller : nat) (uuid prompt : jsstring)
    (mode : option jsstring) (clearContext : bool)
    (messages : list (jsstring * ResponseMessage)) (p : Project) :
  let started := after (sendPrompt caller uuid prompt mode clearContext) p in
  let ended := afterResponses' messages started in
  exists responses,
    List.filter isInvoke (effects promptFinished ended)
    = map (fun resolve => InvokeWaiter resolve responses)
          (runPromptResolves p ++ [PromptResult caller])
    /\ map Completed.content responses = map Message.content (finishedOnes messages)
    /\ map Completed.commitMessage responses
       = map (fun m => forwardedCommitMessage Number_toString m
                         (resolveUsageReport parseUsageReport m))
             (finishedOnes messages).
Proof.
  cbv zeta.
  destruct (afterResponses_collects messages
              (after (sendPrompt caller uuid prompt mode clearContext) p))
    as ((collected & Hresp & Hcontent & Hcommit) & Hres & _).
  destruct (promptFinished_spec
              (afterResponses' messages
                 (after (sendPrompt caller uuid prompt mode clearContext) p)))
    as ((pre & Heff & Hquiet) & _).
  exists collected. split; [|now split].
  rewrite Heff, Hresp, Hres. clear Heff Hresp Hres.
  replace (currentPromptResponses (after (sendPrompt caller uuid prompt mode clearContext) p))
    with (@nil ResponseCompletedData) by reflexivity.
  replace (runPromptResolves (after (sendPrompt caller uuid prompt mode clearContext) p))
    with (runPromptResolves p ++ [PromptResult caller]) by reflexivity.
  rewrite List.filter_app. cbn [app].
  assert (Hpre : List.filter isInvoke pre = []).
  { induction pre as [|e pre IH]; [reflexivity|].
    apply Forall_cons in Hquiet as [He Hq]. simpl. rewrite He. now apply IH. }
  rewrite Hpre. cbn [app].
  generalize (runPromptResolves p ++ [PromptResult caller]).
  intros ws. induction ws as [|w ws IH]; [reflexivity|]. simpl. now rewrite IH.
Qed.

(** X13. The chunks of one streamed message share one id. With no
    response id current and a non-empty fresh id, an unfinished message
    without an id of its own is shown under the fresh id, the next one
    under the same id (its own fresh id is not used), and neither
    changes the collected responses, the cost totals, the prompt id or
    the queue. *)
Theorem chunks_share_id (uuid1 uuid2 : jsstring) (m1 m2 : ResponseMessage)
    (p : Project) :
  Message.finished m1 = false -> Message.finished m2 = false ->
  Message.id m1 = None -> Message.id m2 = None ->
  truthyOpt (currentResponseMessageId p) = false ->
  truthy uuid1 = true ->
  let p1 := after (process' uuid1 m1) p in
  let p2 := after (process' uuid2 m2) p1 in
  effects (process' uuid1 m1) p = [UiResponseChunk (Some uuid1) (Message.content m1)]
  /\ effects (process' uuid2 m2) p1 = [UiResponseChunk (Some uuid1) (Message.content m2)]
  /\ result (process' uuid2 m2) p1 = Some uuid1
  /\ currentPromptResponses p2 = currentPromptResponses p
  /\ mcpAgentTotalCost p2 = mcpAgentTotalCost p
  /\ aiderTotalCost p2 = aiderTotalCost p
  /\ currentPromptId p2 = currentPromptId p
  /\ runPromptResolves p2 = runPromptResolves p.
Proof.
  intros Hf1 Hf2 Hi1 Hi2 Hcur Hu. cbv zeta. unfold after, effects, result.
  rewrite (processResponseMessage_chunk uuid1 m1 p Hf1), Hcur. cbn [fst snd].
  rewrite (processResponseMessage_chunk uuid2 m2 _ Hf2).
  cbn [currentResponseMessageId set_currentResponseMessageId truthyOpt].
  rewrite Hu, Hi1, Hi2. cbn. repeat split.
Qed.

End TurnFacts.

(** ** Output of the worker process *)

Lemma truthy_trim (s : jsstring) : truthy (trim s) = true -> truthy s = true.
Proof. destruct s; [discriminate|reflexivity]. Qed.

(** Standard output while a command is open: the buffer of the command
    grows by the pieces, every piece is shown to the UI, and nothing else
    changes. *)
Lemma onStdoutAll_open (outputs : list jsstring) (command buffer : jsstring)
    (p : Project) (shown : list Output) :
  currentCommand p = Some command -> truthy command = true ->
  commandOutputs p !! command = Some buffer ->
  let r := fold_left (fun r output =>
                        let r' := onStdout output r.1 in (r'.1, r.2 ++ r'.2))
                     outputs (p, shown) in
  currentCommand r.1 = Some command
  /\ commandOutputs r.1 !! command = Some (buffer ++ concat outputs)
  /\ (forall k, k <> command -> commandOutputs r.1 !! k = commandOutputs p !! k)
  /\ r.2 = shown ++ map (UiCommandOutput command) outputs.
Proof.
  intros Hc Ht Hb. cbv zeta.
  revert p shown buffer Hc Hb. induction outputs as [|o outputs IH]; intros p shown buffer Hc Hb.
  - cbn. rewrite !app_nil_r. repeat split; assumption.
  - cbn [fold_left fst snd].
    assert (Hstep : onStdout o p
                    = (set_commandOutputs (<[command:=buffer ++ o]> (commandOutputs p)) p,
                       [UiCommandOutput command o])).
    { unfold onStdout, addCommandOutput. now rewrite Hc, Ht, Hb. }
    rewrite Hstep. cbn [fst snd].
    edestruct (IH (set_commandOutputs (<[command:=buffer ++ o]> (commandOutputs p)) p)
                 (shown ++ [UiCommandOutput command o]) (buffer ++ o))
      as (H1 & H2 & H3 & H4).
    + exact Hc.
    + cbn. apply lookup_insert_eq.
    + repeat split.
      * exact H1.
      * rewrite H2. cbn. now rewrite <- app_assoc.
      * intros k Hk. rewrite (H3 k Hk). cbn. now apply lookup_insert_ne.
      * rewrite H4. cbn. now rewrite <- app_assoc.
Qed.

(** X14. Capturing the output of a command. After
    [openCommandOutput(command)] for a non-empty command, pieces of
    standard output are shown to the UI one by one and collected; the
    next [closeCommandOutput] adds one message to the session, the
    command, an empty line and all the pieces run together, exactly when
    the collected output is not blank, then forgets the buffer and the
    command. Buffers of other commands are not touched. *)
Theorem command_output_captured (command : jsstring) (outputs : list jsstring)
    (p : Project) :
  truthy command = true ->
  let opened := openCommandOutput command p in
  let written := onStdoutAll outputs opened.1 in
  let closed := closeCommandOutput written.1 in
  opened.2 = [UiCommandOutput command []]
  /\ written.2 = map (UiCommandOutput command) outputs
  /\ closed.2 = (if truthy (trim (concat outputs))
                 then [SessionAddContextMessage (command ++ [NL; NL] ++ concat outputs)]
                 else [])
  /\ currentCommand closed.1.2 = None
  /\ commandOutputs closed.1.2 !! command = None
  /\ forall k, k <> command -> commandOutputs closed.1.2 !! k = commandOutputs p !! k.
Proof.
  intros Ht. cbv zeta.
  assert (Hopen : currentCommand (openCommandOutput command p).1 = Some command
                  /\ commandOutputs (openCommandOutput command p).1 !! command = Some []
                  /\ forall k, k <> command ->
                       commandOutputs (openCommandOutput command p).1 !! k
                       = commandOutputs p !! k).
  { unfold openCommandOutput, addCommandOutput. cbn.
    rewrite lookup_insert_eq. cbn. rewrite lookup_insert_eq. repeat split.
    intros k Hk. now rewrite !lookup_insert_ne. }
  destruct Hopen as (Hc & Hb & Hk).
  destruct (onStdoutAll_open outputs command [] (openCommandOutput command p).1 []
              Hc Ht Hb) as (H1 & H2 & H3 & H4).
  unfold onStdoutAll. cbn [app] in H2, H4.
  destruct (fold_left _ outputs ((openCommandOutput command p).1, [])) as [pw shown].
  cbn [fst snd] in *.
  split; [reflexivity|]. split; [exact H4|].
  unfold closeCommandOutput. unfold_call. rewrite H1, Ht, H2.
  destruct (truthy (trim (concat outputs))) eqn:Hblank.
  - rewrite (truthy_trim _ Hblank). cbn.
    rewrite lookup_delete_eq. repeat split.
    intros k Hne. rewrite lookup_delete_ne by congruence.
    now rewrite (H3 k Hne), (Hk k Hne).
  - rewrite andb_false_r. cbn.
    rewrite lookup_delete_eq. repeat split.
    intros k Hne. rewrite lookup_delete_ne by congruence.
    now rewrite (H3 k Hne), (Hk k Hne).
Qed.

Lemma indexOf_spec (needle s : jsstring) :
  match indexOf needle s with
  | Some i => startsWith needle (drop i s) = true
              /\ forall j, (j < i)%nat -> startsWith needle (drop j s) = false
  | None => forall j, startsWith needle (drop j s) = false
  end.
Proof.
  induction s as [|c s IH].
  - cbn. destruct (startsWith needle []) eqn:Hs.
    + split; [exact Hs|]. intros j Hj. inversion Hj.
    + intros j. now rewrite drop_nil.
  - cbn [indexOf]. destruct (startsWith needle (c :: s)) eqn:Hs.
    + split; [exact Hs|]. intros j Hj. inversion Hj.
    + destruct (indexOf needle s) as [i|]; cbn.
      * destruct IH as [Hi Hlt]. split; [exact Hi|].
        intros [|j] Hj; [exact Hs|]. apply Hlt. apply Nat.succ_lt_mono, Hj.
      * intros [|j]; [exact Hs|apply IH].
Qed.

(** X15. What standard error shows to the UI. Output that begins with
    [Warning:] shows nothing, and so does output that does not begin
    with [usage:]. Output that begins with [usage:] shows one error
    line: the output from its first [error:] on, or the whole output when
    it holds no [error:]. *)
Theorem onStderr_classifies (output : jsstring) :
  (startsWith (js "usage:") output = false -> onStderr output = [])
  /\ (startsWith (js "Warning:") output = true -> onStderr output = [])
  /\ (startsWith (js "usage:") output = true ->
      exists hidden shown,
        onStderr output = [UiLogMessage (js "error") (Some shown)]
        /\ output = hidden ++ shown
        /\ (startsWith (js "error:") shown = true
            /\ (forall j, (j < length hidden)%nat ->
                          startsWith (js "error:") (drop j output) = false)
            \/ hidden = []
               /\ forall j, startsWith (js "error:") (drop j output) = false)).
Proof.
  unfold onStderr. repeat split.
  - intros ->. now destruct (startsWith (js "Warning:") output).
  - now intros ->.
  - intros Husage.
    assert (Hw : startsWith (js "Warning:") output = false).
    { destruct output as [|c output]; [reflexivity|].
      change (startsWith (js "usage:") (c :: output))
        with ((117 =? c) && startsWith (js "sage:") output) in Husage.
      apply andb_true_iff in Husage as [Hc _].
      apply N.eqb_eq in Hc. subst c. reflexivity. }
    rewrite Hw, Husage.
    pose proof (indexOf_spec (js "error:") output) as Hspec.
    destruct (indexOf (js "error:") output) as [i|].
    + destruct Hspec as [Hi Hlt].
      assert (Hlen : (i <= length output)%nat).
      { destruct (Nat.le_gt_cases i (length output)) as [H|H]; [exact H|].
        rewrite drop_ge in Hi by lia. cbn in Hi. discriminate. }
      exists (take i output), (drop i output). repeat split.
      * now rewrite take_drop.
      * left. split; [exact Hi|]. intros j Hj. apply Hlt.
        rewrite length_take in Hj. lia.
    + exists [], output. repeat split. right. split; [reflexivity|exact Hspec].
Qed.

(** ** The arguments of the worker *)

Lemma matchOptions_word (w rest token : jsstring) :
  Forall (fun c => isWhiteSpace c = false /\ c <> Launch.QUOTE) w ->
  Launch.matchOptions (w ++ rest) token false
  = Launch.matchOptions rest (token ++ w) false.
Proof.
  revert token. induction w as [|c w IH]; intros token Hw.
  - now rewrite app_nil_r.
  - apply Forall_cons in Hw as [[Hws Hq] Hw]. cbn [app Launch.matchOptions].
    rewrite Hws. destruct (N.eqb_spec c Launch.QUOTE) as [?|_]; [contradiction|].
    rewrite (IH _ Hw). now rewrite <- app_assoc.
Qed.

Lemma matchOptions_quoted (inner rest token : jsstring) :
  Launch.QUOTE ∉ inner ->
  Launch.matchOptions (inner ++ Launch.QUOTE :: rest) token true
  = Launch.matchOptions rest (token ++ inner ++ [Launch.QUOTE]) false.
Proof.
  revert token. induction inner as [|c inner IH]; intros token Hq.
  - reflexivity.
  - apply not_elem_of_cons in Hq as [Hc Hq]. cbn [app Launch.matchOptions].
    destruct (N.eqb_spec c Launch.QUOTE) as [?|_]; [congruence|].
    cbn [negb]. rewrite (IH _ Hq). now rewrite <- app_assoc.
Qed.

Lemma emitToken_word (w : jsstring) : w <> [] -> Launch.emitToken w = [w].
Proof. now destruct w. Qed.

(** X16. An option string made of words separated by single spaces,
    the words without quotes and without white space, is split into
    exactly these words. *)
Theorem rawOptionsArgs_words (words : list jsstring) :
  Forall Launch.word words ->
  Launch.rawOptionsArgs (Launch.joinSpace words) = words.
Proof.
  unfold Launch.rawOptionsArgs.
  induction words as [|w words IH]; intros Hwords; [reflexivity|].
  apply Forall_cons in Hwords as [[Hne Hw] Hwords].
  destruct words as [|w' words].
  - cbn [Launch.joinSpace].
    pose proof (matchOptions_word w [] [] Hw) as Hm. rewrite app_nil_r in Hm.
    rewrite Hm. cbn. now apply emitToken_word.
  - change (Launch.joinSpace (w :: w' :: words))
      with (w ++ 32 :: Launch.joinSpace (w' :: words)).
    rewrite (matchOptions_word w _ [] Hw). cbn [app Launch.matchOptions].
    change (isWhiteSpace 32) with true. cbn iota.
    rewrite (emitToken_word w Hne), (IH Hwords). reflexivity.
Qed.

Lemma unquoteArg_word (w : jsstring) :
  Forall (fun c => isWhiteSpace c = false /\ c <> Launch.QUOTE) w ->
  Launch.unquoteArg w = w.
Proof.
  intros Hw. unfold Launch.unquoteArg. destruct w as [|c w]; [reflexivity|].
  apply Forall_cons in Hw as [[_ Hc] _].
  change (startsWith [Launch.QUOTE] (c :: w)) with ((Launch.QUOTE =? c) && true).
  destruct (N.eqb_spec Launch.QUOTE c) as [Heq|_]; [now symmetry in Heq|reflexivity].
Qed.

Lemma unquoteArg_quoted (inner : jsstring) :
  Launch.unquoteArg (Launch.QUOTE :: inner ++ [Launch.QUOTE]) = inner.
Proof.
  unfold Launch.unquoteArg, Launch.endsWithQuote.
  change (Launch.QUOTE :: inner ++ [Launch.QUOTE])
    with ((Launch.QUOTE :: inner) ++ [Launch.QUOTE]).
  rewrite last_snoc. cbn [tl app startsWith]. rewrite N.eqb_refl. cbn.
  apply removelast_last.
Qed.

(** X17. A quoted value stays one argument and loses its quotes: for a
    flag that is a word other than [--model] and a value without quotes
    in it, the options [flag Qvalue Q] (Q the double quote, the value may
    hold spaces) become the two arguments [flag] and [value]. *)
Theorem quoted_value_one_argument (flag value : jsstring) :
  Launch.word flag -> flag <> js "--model" -> Launch.QUOTE ∉ value ->
  Launch.processedOptionsArgs
    (Launch.rawOptionsArgs (flag ++ js " " ++ Launch.QUOTE :: value ++ [Launch.QUOTE]))
  = [flag; value].
Proof.
  intros [Hne Hflag] Hmodel Hvalue. unfold Launch.rawOptionsArgs.
  rewrite (matchOptions_word flag _ [] Hflag). cbn [app js Launch.matchOptions].
  change (isWhiteSpace (N_of_ascii " ")) with true. cbn iota.
  change (isWhiteSpace Launch.QUOTE) with false. cbn iota.
  rewrite N.eqb_refl.
  assert (Hclosing : existsb (N.eqb Launch.QUOTE) (value ++ [Launch.QUOTE]) = true).
  { rewrite existsb_app. cbn. now rewrite orb_true_r. }
  rewrite Hclosing.
  change (value ++ [Launch.QUOTE]) with (value ++ Launch.QUOTE :: []).
  rewrite (matchOptions_quoted value [] _ Hvalue).
  rewrite (emitToken_word flag Hne). cbn [app Launch.matchOptions Launch.emitToken truthy].
  cbn [Launch.processedOptionsArgs].
  destruct (eqb flag (js "--model")) eqn:Heq; [apply eqb_eq in Heq; contradiction|].
  rewrite (unquoteArg_word flag Hflag).
  change (eqb (Launch.QUOTE :: value ++ [Launch.QUOTE]) (js "--model")) with false.
  cbn iota. now rewrite unquoteArg_quoted.
Qed.

Lemma unquoteArg_model (arg : jsstring) :
  Launch.unquoteArg arg = js "--model" ->
  arg = js "--model" \/ arg = Launch.QUOTE :: js "--model" ++ [Launch.QUOTE].
Proof.
  unfold Launch.unquoteArg, Launch.endsWithQuote.
  destruct (startsWith [Launch.QUOTE] arg) eqn:Hs; [|now left].
  destruct (last arg) as [c|] eqn:Hl; cbn [andb]; [|now left].
  destruct (N.eqb_spec c Launch.QUOTE) as [->|_]; [|now left].
  intros Hmid. right.
  destruct arg as [|a t]; [discriminate|].
  change (startsWith [Launch.QUOTE] (a :: t)) with ((Launch.QUOTE =? a) && true) in Hs.
  destruct (N.eqb_spec Launch.QUOTE a) as [<-|_]; [|discriminate].
  cbn [tl] in Hmid.
  destruct t as [|b t] using rev_ind; [discriminate|].
  rewrite removelast_last in Hmid. subst t.
  change (Launch.QUOTE :: js "--model" ++ [b]) with ((Launch.QUOTE :: js "--model") ++ [b]) in Hl.
  rewrite last_snoc in Hl. now inversion Hl.
Qed.

Lemma processedOptionsArgs_from (raw : list jsstring) (arg : jsstring) :
  arg ∈ Launch.processedOptionsArgs raw ->
  exists given, given ∈ raw /\ given <> js "--model" /\ arg = Launch.unquoteArg given.
Proof.
  induction raw as [raw IH] using (induction_ltof1 _ (@length jsstring)).
  unfold ltof in IH.
  destruct raw as [|a raw]; cbn [Launch.processedOptionsArgs]; [intros H; inversion H|].
  destruct (eqb a (js "--model")) eqn:Ha.
  - destruct raw as [|b raw]; [intros H; inversion H|].
    intros Hin. destruct (IH raw ltac:(cbn; lia) Hin) as (given & Hg & Hne & Heq).
    exists given. repeat split; try assumption. do 2 (apply elem_of_cons; right). exact Hg.
  - intros Hin. apply elem_of_cons in Hin as [->|Hin].
    + exists a. repeat split; [apply elem_of_cons; now left|].
      intros ->. cbn in Ha. discriminate.
    + destruct (IH raw ltac:(cbn; lia) Hin) as (given & Hg & Hne & Heq).
      exists given. repeat split; try assumption. apply elem_of_cons. now right.
Qed.

(** X18. The model flag of the user never reaches the worker. Every
    processed argument is an argument from the options other than
    [--model], without its quotes; so unless the options hold the quoted
    token [Q--modelQ], the first [--model] among the arguments of the
    worker is the orchestrator's own, followed by the main model of the
    project. *)
Theorem args_model_is_orchestrators (s : Launch.Settings) :
  let raw := Launch.rawOptionsArgs (Launch.options s) in
  (forall arg, arg ∈ Launch.processedOptionsArgs raw ->
     exists given, given ∈ raw /\ given <> js "--model"
                   /\ arg = Launch.unquoteArg given)
  /\ (Launch.QUOTE :: js "--model" ++ [Launch.QUOTE] ∉ raw ->
      exists before rest,
        Launch.args s = before ++ js "--model" :: Launch.mainModel s :: rest
        /\ js "--model" ∉ before).
Proof.
  cbv zeta. split; [apply processedOptionsArgs_from|].
  intros Hquoted.
  exists ([js "-m"; js "connector"]
          ++ Launch.processedOptionsArgs (Launch.rawOptionsArgs (Launch.options s))
          ++ [js "--no-check-update"; js "--no-show-model-warnings"]).
  eexists. split.
  - unfold Launch.args. rewrite <- !app_assoc. reflexivity.
  - intros Hin. rewrite !elem_of_app in Hin. destruct Hin as [Hin|[Hin|Hin]].
    + repeat (apply elem_of_cons in Hin as [Heq|Hin]; [discriminate|]). inversion Hin.
    + destruct (processedOptionsArgs_from _ _ Hin) as (given & Hg & Hne & Heq).
      symmetry in Heq. apply unquoteArg_model in Heq as [->| ->]; contradiction.
    + repeat (apply elem_of_cons in Hin as [Heq|Hin]; [discriminate|]). inversion Hin.
Qed.

(** ** The store *)

Lemma eqb_refl (a : jsstring) : eqb a a = true.
Proof. now apply eqb_eq. Qed.

Lemma filter_sublist {A : Type} (f : A -> bool) (l : list A) :
  List.filter f l `sublist_of` l.
Proof.
  induction l as [|x l IH]; simpl; [constructor|].
  destruct (f x); [now apply sublist_skip|now apply sublist_cons].
Qed.

Section StoreFacts.
Variable normalizeBaseDir : jsstring -> jsstring.

#[local] Abbreviation compare := (Store.compareBaseDirs normalizeBaseDir).
#[local] Abbreviation recentOf := (fun s : Store.Schema => default [] (Store.recentProjects s)).

Lemma compare_refl (a : jsstring) : compare a a = true.
Proof. apply eqb_refl. Qed.

Lemma compare_trans (a b c : jsstring) :
  compare a b = true -> compare b c = true -> compare a c = true.
Proof.
  unfold Store.compareBaseDirs. rewrite !eqb_eq. congruence.
Qed.

Lemma compare_sym (a b : jsstring) : compare a b = compare b a.
Proof.
  unfold Store.compareBaseDirs.
  destruct (eqb (normalizeBaseDir a) (normalizeBaseDir b)) eqn:H1,
           (eqb (normalizeBaseDir b) (normalizeBaseDir a)) eqn:H2; try reflexivity.
  - apply eqb_eq in H1. rewrite H1, eqb_refl in H2. discriminate.
  - apply eqb_eq in H2. rewrite H2, eqb_refl in H1. discriminate.
Qed.

(** X19. [addRecentProject] puts the project first, keeps at most ten
    entries, adds nothing else, leaves no other entry for the same
    directory (after normalising), and keeps a list without repetitions
    free of them. *)
Theorem addRecentProject_front (baseDir : jsstring) (s : Store.Schema) :
  exists others,
    Store.recentProjects (Store.addRecentProject normalizeBaseDir baseDir s)
    = Some (baseDir :: others)
    /\ (length (baseDir :: others) <= 10)%nat
    /\ others `sublist_of` recentOf s
    /\ Forall (fun other => compare other baseDir = false) others
    /\ (NoDup (recentOf s) -> NoDup (baseDir :: others))
    /\ Store.openProjects (Store.addRecentProject normalizeBaseDir baseDir s)
       = Store.openProjects s.
Proof.
  exists (take 9 (List.filter (fun r => negb (compare r baseDir)) (recentOf s))).
  assert (Hsub : take 9 (List.filter (fun r => negb (compare r baseDir)) (recentOf s))
                 `sublist_of` recentOf s).
  { etransitivity; [apply sublist_take|apply filter_sublist]. }
  assert (Hall : Forall (fun other => compare other baseDir = false)
                   (take 9 (List.filter (fun r => negb (compare r baseDir)) (recentOf s)))).
  { apply Forall_take, Forall_forall. intros r Hr.
    apply list_elem_of_In, filter_In in Hr as [_ Hr]. now apply negb_true_iff. }
  repeat split; try assumption.
  - cbn. rewrite length_take. lia.
  - intros Hnd. apply NoDup_cons. split.
    + intros Hin. rewrite Forall_forall in Hall.
      specialize (Hall _ Hin). rewrite compare_refl in Hall. discriminate.
    + eauto using sublist_NoDup.
Qed.

Lemma recent_without_open (s : Store.Schema) :
  Store.getRecentProjects normalizeBaseDir s `sublist_of` recentOf s
  /\ forall recent,
       recent ∈ Store.getRecentProjects normalizeBaseDir s
       <-> recent ∈ recentOf s
           /\ forall project, project ∈ Store.getOpenProjects s ->
                              compare (Store.baseDir project) recent = false.
Proof.
  split; [apply filter_sublist|].
  intros recent. unfold Store.getRecentProjects.
  rewrite list_elem_of_In, filter_In, <- list_elem_of_In, negb_true_iff.
  split; intros [Hin Hopen]; (split; [exact Hin|]).
  - intros project Hp. destruct (compare (Store.baseDir project) recent) eqn:Hc; [|reflexivity].
    rewrite <- Hopen. symmetry. apply existsb_exists.
    exists (Store.baseDir project). split; [|exact Hc].
    apply in_map, list_elem_of_In, Hp.
  - destruct (existsb _ _) eqn:Hex; [|reflexivity].
    apply existsb_exists in Hex as (dir & Hdir & Hc).
    apply in_map_iff in Hdir as (project & <- & Hp).
    rewrite (Hopen project) in Hc; [discriminate|]. now apply list_elem_of_In.
Qed.

(** X20. [getRecentProjects] returns the stored recent projects, in
    their order, without those whose directory is the directory of an
    open project (after normalising). *)
Theorem getRecentProjects_hides_open (s : Store.Schema) :
  Store.getRecentProjects normalizeBaseDir s `sublist_of` recentOf s
  /\ forall recent,
       recent ∈ Store.getRecentProjects normalizeBaseDir s
       <-> recent ∈ recentOf s
           /\ forall project, project ∈ Store.getOpenProjects s ->
                              compare (Store.baseDir project) recent = false.
Proof. apply recent_without_open. Qed.

(** X21. [removeRecentProject] stores the recent projects that are
    neither the removed one nor open: since it starts from
    [getRecentProjects], the entries of open projects are lost from the
    stored list as well. *)
Theorem removeRecentProject_drops_open (baseDir : jsstring) (s : Store.Schema) :
  exists stored,
    Store.recentProjects (Store.removeRecentProject normalizeBaseDir baseDir s)
    = Some stored
    /\ stored `sublist_of` recentOf s
    /\ forall recent,
         recent ∈ stored
         <-> recent ∈ recentOf s
             /\ compare recent baseDir = false
             /\ forall project, project ∈ Store.getOpenProjects s ->
                                compare (Store.baseDir project) recent = false.
Proof.
  eexists. split; [reflexivity|]. split.
  - etransitivity; [apply filter_sublist|apply filter_sublist].
  - intros recent.
    rewrite list_elem_of_In, filter_In, <- list_elem_of_In, negb_true_iff.
    rewrite (proj2 (recent_without_open s) recent). tauto.
Qed.

Lemma findIndex_spec (f : Store.ProjectData -> bool) (ps : list Store.ProjectData) :
  match Store.findIndex f ps with
  | Some i => exists p, ps !! i = Some p /\ f p = true /\ List.find f ps = Some p
  | None => List.find f ps = None /\ Forall (fun p => f p = false) ps
  end.
Proof.
  induction ps as [|p ps IH]; cbn; [split; [reflexivity|constructor]|].
  destruct (f p) eqn:Hp; [exists p; now repeat split|].
  destruct (Store.findIndex f ps) as [i|]; cbn.
  - destruct IH as (q & Hq & Hfq & Hfind). exists q. now repeat split.
  - destruct IH as [Hfind Hall]. split; [exact Hfind|]. now constructor.
Qed.

Lemma find_insert_found (f : Store.ProjectData -> bool) (ps : list Store.ProjectData)
    (i : nat) (new : Store.ProjectData) :
  Store.findIndex f ps = Some i -> f new = true ->
  List.find f (<[i:=new]> ps) = Some new.
Proof.
  revert i. induction ps as [|p ps IH]; intros i; cbn; [discriminate|].
  destruct (f p) eqn:Hp.
  - intros Hi Hnew. injection Hi as <-. cbn. now rewrite Hnew.
  - destruct (Store.findIndex f ps) as [j|]; cbn; [|discriminate].
    intros Hi Hnew. injection Hi as <-. cbn. rewrite Hp. now apply IH.
Qed.

Lemma find_insert_other (f : Store.ProjectData -> bool) (ps : list Store.ProjectData)
    (i : nat) (old new : Store.ProjectData) :
  ps !! i = Some old -> f old = false -> f new = false ->
  List.find f (<[i:=new]> ps) = List.find f ps.
Proof.
  revert i. induction ps as [|p ps IH]; intros [|i]; cbn; try discriminate.
  - intros Hi Hold Hnew. injection Hi as ->. now rewrite Hold, Hnew.
  - intros Hi Hold Hnew. destruct (f p); [reflexivity|]. now apply (IH i).
Qed.

Lemma findIndex_open (b : jsstring) (s : Store.Schema) :
  (exists project, project ∈ Store.getOpenProjects s
                   /\ compare (Store.baseDir project) b = true) ->
  exists i found,
    Store.findIndex (fun project => compare (Store.baseDir project) b)
                    (Store.getOpenProjects s) = Some i
    /\ Store.getOpenProjects s !! i = Some found
    /\ compare (Store.baseDir found) b = true.
Proof.
  intros (project & Hin & Hc).
  pose proof (findIndex_spec (fun project => compare (Store.baseDir project) b)
                (Store.getOpenProjects s)) as Hspec.
  destruct (Store.findIndex _ _) as [i|].
  - destruct Hspec as (found & Hi & Hf & _). now exists i, found.
  - destruct Hspec as [_ Hall]. rewrite Forall_forall in Hall.
    rewrite (Hall _ Hin) in Hc. discriminate.
Qed.

(** X22. Project settings round trip. When the directory is the one of
    an open project (after normalising), [getProjectSettings] after
    [saveProjectSettings] gives the saved settings over the defaults,
    whatever was stored before; the directories of the open projects, the
    recent projects and the settings read for every other directory are
    as before. *)
Theorem projectSettings_roundtrip (b : jsstring) (saved : Store.ProjectSettings)
    (s : Store.Schema) :
  (exists project, project ∈ Store.getOpenProjects s
                   /\ compare (Store.baseDir project) b = true) ->
  let s' := Store.saveProjectSettings normalizeBaseDir b saved s in
  Store.getProjectSettings normalizeBaseDir b s'
  = saved ∪ Store.DEFAULT_PROJECT_SETTINGS
  /\ map Store.baseDir (Store.getOpenProjects s')
     = map Store.baseDir (Store.getOpenProjects s)
  /\ Store.recentProjects s' = Store.recentProjects s
  /\ forall other, compare other b = false ->
       Store.getProjectSettings normalizeBaseDir other s'
       = Store.getProjectSettings normalizeBaseDir other s.
Proof.
  intros Hopen. cbv zeta.
  destruct (findIndex_open b s Hopen) as (i & found & Hi & Hfound & Hc).
  unfold Store.saveProjectSettings. rewrite Hi, Hfound.
  set (new := {| Store.baseDir := Store.baseDir found; Store.settings := Some saved;
                 Store.active := Store.active found |}).
  unfold Store.getProjectSettings.
  change (Store.getOpenProjects (Store.setOpenProjects _ s))
    with (<[i:=new]> (Store.getOpenProjects s)).
  repeat split.
  - rewrite (find_insert_found _ _ i new Hi Hc). reflexivity.
  - rewrite list_fmap_insert. apply list_insert_id.
    rewrite list_lookup_fmap, Hfound. reflexivity.
  - intros other Hother.
    rewrite (find_insert_other _ _ i found new Hfound); [reflexivity| |].
    + destruct (compare (Store.baseDir found) other) eqn:Hfo; [|reflexivity].
      rewrite compare_sym in Hfo. rewrite (compare_trans _ _ _ Hfo Hc) in Hother.
      discriminate.
    + cbn. destruct (compare (Store.baseDir found) other) eqn:Hfo; [|reflexivity].
      rewrite compare_sym in Hfo. rewrite (compare_trans _ _ _ Hfo Hc) in Hother.
      discriminate.
Qed.

(** X23. Settings saved for a directory that is not the one of an open
    project are lost without an error: [saveProjectSettings] leaves the
    store as it was, and [getProjectSettings] gives the defaults. *)
Theorem projectSettings_not_open (b : jsstring) (saved : Store.ProjectSettings)
    (s : Store.Schema) :
  (forall project, project ∈ Store.getOpenProjects s ->
                   compare (Store.baseDir project) b = false) ->
  Store.saveProjectSettings normalizeBaseDir b saved s = s
  /\ Store.getProjectSettings normalizeBaseDir b
       (Store.saveProjectSettings normalizeBaseDir b saved s)
     = Store.DEFAULT_PROJECT_SETTINGS.
Proof.
  intros Hnone.
  pose proof (findIndex_spec (fun project => compare (Store.baseDir project) b)
                (Store.getOpenProjects s)) as Hspec.
  unfold Store.saveProjectSettings, Store.getProjectSettings.
  destruct (Store.findIndex _ _) as [i|].
  - destruct Hspec as (found & Hi & Hf & _).
    rewrite (Hnone found) in Hf; [discriminate|].
    apply list_elem_of_lookup. now exists i.
  - destruct Hspec as [Hfind _]. split; [reflexivity|].
    rewrite Hfind. cbn. apply (left_id_L ∅ (∪)).
Qed.

End StoreFacts.

Section MigrationFacts.
Variable SettingsData : Type.
Variable v0v1 v1v2 v2v3 : SettingsData -> SettingsData.

#[local] Abbreviation migrate' := (Store.migrate SettingsData v0v1 v1v2 v2v3).

(** X24. Settings are migrated once. [migrate] applies the steps that
    are still due, in order, and records version 3: from version 0 all
    three, from version 2 the last one. A second [migrate] changes
    nothing, and neither does a first one when the recorded version is
    missing or is 3. *)
Theorem migrate_once (settings : SettingsData)
    (s : Store.Persisted SettingsData) :
  let r := migrate' settings s in
  migrate' r.1 r.2 = r
  /\ (Store.settingsVersion SettingsData s = Some (ofZ 0) ->
      r.1 = v2v3 (v1v2 (v0v1 settings))
      /\ Store.settingsVersion SettingsData r.2 = Some (ofZ 3))
  /\ (Store.settingsVersion SettingsData s = Some (ofZ 2) -> r.1 = v2v3 settings)
  /\ (Store.settingsVersion SettingsData s = None
      \/ Store.settingsVersion SettingsData s = Some (ofZ 3) ->
      r = (settings, s)).
Proof.
  cbv zeta. unfold Store.migrate. split; [|split; [|split]].
  - destruct (Store.lessThan
                (default Store.CURRENT_SETTINGS_VERSION (Store.settingsVersion SettingsData s))
                Store.CURRENT_SETTINGS_VERSION) eqn:Hlt; cbn [fst snd].
    + reflexivity.
    + now rewrite Hlt.
  - intros H. rewrite H. split; reflexivity.
  - intros H. now rewrite H.
  - intros [H|H]; now rewrite H.
Qed.

End MigrationFacts.

(** ** Closed instances *)

Lemma addToInputHistory_front_witness :
  Example.load
    (History.addToInputHistory History.simple_isAbsolute History.simple_join
       (js "/repo") (js ".aider.input.history") Example.stamp Sample.smile
       Sample.torn)
  = [[55357; 56832; 32; 65533]; js "caf" ++ [65533]]
  /\ Example.load Sample.torn = [js "caf" ++ [65533]].
Proof.
  destruct (addToInputHistory_front History.simple_isAbsolute History.simple_join
              (js "/repo") (js ".aider.input.history") Example.stamp Sample.smile
              Sample.torn) as [Hfront _].
  - apply (bool_decide_unpack _). vm_compute. exact I.
  - repeat (apply List.Forall_cons; [reflexivity|]). apply List.Forall_nil.
  - repeat (apply List.Forall_cons; [reflexivity|]). apply List.Forall_nil.
  - split; [etransitivity; [exact Hfront|]|]; vm_compute; reflexivity.
Defined.

Lemma internal_question_not_routed_witness :
  effects (answerQuestion (js "y") None) Sample.askingInternal
  = [ResolveQuestion 1 Yes None]
  /\ forall connector a,
       SendAnswerQuestionMessage connector a
         ∉ effects (answerQuestion (js "y") None) Sample.askingInternal.
Proof.
  destruct (internal_question_not_routed Sample.approveTool Sample.askingInternal)
    as [Hanswer _].
  - reflexivity.
  - split; [reflexivity|].
    intros connector a. apply Hanswer. reflexivity.
Defined.

Lemma remembered_answer_shared_witness :
  let asked := {| Question.text := js "Add file" ++ js "_" ++ js "a.ts";
                  Question.subject := None; Question.key := None;
                  Question.internal := false |} in
  let other := {| Question.text := js "Add file";
                  Question.subject := Some (js "a.ts" ++ js "_");
                  Question.key := None; Question.internal := false |} in
  result (askQuestion other 2)
         (after (answerQuestion (js "d") None)
                (set_currentQuestion (Some asked) Example.started))
  = AlreadyResolved (js "n") None.
Proof.
  cbv zeta.
  apply (remembered_answer_shared (js "Add file") (js "a.ts")
           (set_currentQuestion
              (Some {| Question.text := js "Add file" ++ js "_" ++ js "a.ts";
                       Question.subject := None; Question.key := None;
                       Question.internal := false |}) Example.started) None 2).
  reflexivity.
Defined.

Lemma runPrompt_answers_question_witness :
  result (Scheduler.runPrompt_enter 0 (js "use tabs")) Sample.asking
  = Scheduler.Returned []
  /\ effects (Scheduler.runPrompt_enter 0 (js "use tabs")) Sample.asking
     = [SendAnswerQuestionMessage 0 No; ResolveQuestion 1 No (Some (js "use tabs"))].
Proof.
  destruct (runPrompt_answers_question 0 (js "use tabs") Sample.asking
              Example.addFile 1) as (Hres & Heff & _).
  - reflexivity.
  - reflexivity.
  - split; [exact Hres|]. rewrite Heff. reflexivity.
Defined.

Lemma runPrompt_closes_stale_question_witness :
  result (Scheduler.runPrompt_enter 0 (js "use tabs")) Sample.stale
  = Scheduler.AwaitHistory
  /\ currentQuestion (after (Scheduler.runPrompt_enter 0 (js "use tabs")) Sample.stale)
     = None.
Proof.
  destruct (runPrompt_closes_stale_question 0 (js "use tabs") Sample.stale
              Example.addFile) as (Hres & Hq & _).
  - reflexivity.
  - reflexivity.
  - split; [rewrite Hres; reflexivity|exact Hq].
Defined.

Lemma runCommand_declines_question_witness :
  (runCommand (js "diff") true Sample.asking).2
  = [Core (SendAnswerQuestionMessage 0 No); Core (ResolveQuestion 1 No None);
     AppendHistory (js "/diff")]
  /\ currentQuestion (runCommand (js "diff") true Sample.asking).1 = None.
Proof.
  destruct (runCommand_declines_question (js "diff") true Sample.asking Example.addFile)
    as (Hq & _ & Hout).
  - reflexivity.
  - split; [rewrite Hout; reflexivity|exact Hq].
Defined.

Lemma queue_leaves_nobody_waiting_witness :
  map Scheduler.pc
      (Scheduler.callers
         (Example.step Scheduler.EvPromptFinished
            (Example.run (Example.twoQueued ++ [Example.lastQueued])
                         (Example.world Example.started))))
  = [Scheduler.Returned []; Scheduler.Returned []; Scheduler.Returned []]
  /\ registered (Example.run (Example.twoQueued ++ [Example.lastQueued])
                             (Example.world Example.started)).
Proof.
  destruct (queue_leaves_nobody_waiting History.simple_isAbsolute History.simple_join
              (Example.twoQueued ++ [Example.lastQueued])
              (Example.world Example.started)) as (Hreg & _ & _).
  - intros i c waiter Hi. vm_compute in Hi. discriminate.
  - split; [vm_compute; reflexivity|exact Hreg].
Defined.

Lemma chunks_share_id_witness :
  effects (processResponseMessage (fun _ => []) (fun _ => None) (js "m-2")
             (Sample.chunk "lo"))
          (after (processResponseMessage (fun _ => []) (fun _ => None) (js "m-1")
                    (Sample.chunk "hel")) Example.started)
  = [UiResponseChunk (Some (js "m-1")) (js "lo")].
Proof.
  destruct (chunks_share_id (fun _ => []) (fun _ => None) (js "m-1") (js "m-2")
              (Sample.chunk "hel") (Sample.chunk "lo") Example.started)
    as (_ & Hsecond & _);
    [reflexivity|reflexivity|reflexivity|reflexivity|reflexivity|reflexivity|].
  exact Hsecond.
Defined.

Lemma command_output_captured_witness :
  (closeCommandOutput
     (onStdoutAll [js "a"; js "b"] (openCommandOutput (js "diff") Example.started).1).1).2
  = [SessionAddContextMessage (js "diff" ++ [NL; NL] ++ js "ab")].
Proof.
  destruct (command_output_captured (js "diff") [js "a"; js "b"] Example.started)
    as (_ & _ & Hclosed & _).
  - reflexivity.
  - rewrite Hclosed. reflexivity.
Defined.

Lemma rawOptionsArgs_words_witness :
  Launch.rawOptionsArgs (js "--no-auto-commits --map-tokens 2048")
  = [js "--no-auto-commits"; js "--map-tokens"; js "2048"].
Proof.
  apply (rawOptionsArgs_words [js "--no-auto-commits"; js "--map-tokens"; js "2048"]).
  repeat (apply List.Forall_cons;
          [split; [discriminate|];
           repeat (apply List.Forall_cons; [split; [reflexivity|discriminate]|]);
           apply List.Forall_nil|]).
  apply List.Forall_nil.
Defined.

Lemma quoted_value_one_argument_witness :
  Launch.processedOptionsArgs
    (Launch.rawOptionsArgs
       (js "--commit-prompt" ++ js " " ++ Launch.QUOTE :: js "be brief" ++ [Launch.QUOTE]))
  = [js "--commit-prompt"; js "be brief"].
Proof.
  apply (quoted_value_one_argument (js "--commit-prompt") (js "be brief")).
  - split; [discriminate|].
    repeat (apply List.Forall_cons; [split; [reflexivity|discriminate]|]).
    apply List.Forall_nil.
  - discriminate.
  - apply (bool_decide_unpack _). vm_compute. exact I.
Defined.

Lemma projectSettings_roundtrip_witness :
  Store.getProjectSettings Sample.normalize (js "/work/lib/")
    (Store.saveProjectSettings Sample.normalize (js "/work/lib/") Sample.saved Sample.store)
  = Sample.saved ∪ Store.DEFAULT_PROJECT_SETTINGS.
Proof.
  destruct (projectSettings_roundtrip Sample.normalize (js "/work/lib/") Sample.saved
              Sample.store) as [Hget _].
  - exists {| Store.baseDir := js "/work/lib";
              Store.settings := Some {[ js "mainModel" := Store.VString (js "gpt-4o") ]};
              Store.active := None |}.
    split; [|vm_compute; reflexivity].
    apply list_elem_of_lookup. exists 1%nat. reflexivity.
  - exact Hget.
Defined.

Lemma projectSettings_not_open_witness :
  Store.saveProjectSettings Sample.normalize (js "/work/gone") Sample.saved Sample.store
  = Sample.store.
Proof.
  destruct (projectSettings_not_open Sample.normalize (js "/work/gone") Sample.saved
              Sample.store) as [Hsame _].
  - intros project Hin.
    repeat (apply elem_of_cons in Hin as [->|Hin]; [vm_compute; reflexivity|]).
    inversion Hin.
  - exact Hsame.
Defined.

(** ** Callers that come one at a time *)

Lemma filter_none {A : Type} (f : A -> bool) (l : list A) :
  Forall (fun x => f x = false) l -> List.filter f l = [].
Proof.
  induction l as [|x l IH]; intros Hl; [reflexivity|].
  apply Forall_cons in Hl as [Hx Hl]. simpl. rewrite Hx. now apply IH.
Qed.

Lemma answerQuestion_promptId (answer : jsstring) (userInput : option jsstring)
    (p : Project) :
  currentPromptId (after (answerQuestion answer userInput) p) = currentPromptId p
  /\ Forall (fun e => isPromptSend e = false) (effects (answerQuestion answer userInput) p).
Proof.
  destruct (currentQuestion p) as [q|] eqn:Hq.
  - split.
    + unfold answerQuestion. unfold_call. rewrite Hq.
      destruct (eqb _ _ || eqb _ _), (eqb _ _ || eqb _ _),
        (Question.internal q), (currentQuestionPromiseResolve p); reflexivity.
    + destruct (answerQuestion_effects answer userInput p q Hq) as [a ->].
      apply Forall_app. split.
      * destruct (Question.internal q); [constructor|].
        apply Forall_map, Forall_forall. now intros c _.
      * destruct (currentQuestionPromiseResolve p); repeat constructor.
  - unfold after, effects. rewrite (answerQuestion_closed _ _ _ Hq).
    split; [reflexivity|constructor].
Qed.

Lemma askQuestion_promptId (questionData : QuestionData) (promise : nat) (p : Project) :
  currentPromptId (after (askQuestion questionData promise) p) = currentPromptId p
  /\ Forall (fun e => isPromptSend e = false) (effects (askQuestion questionData promise) p).
Proof.
  unfold askQuestion. unfold_call.
  cbn [questionAnswers set_currentQuestion].
  destruct (questionAnswers p !! getQuestionKey questionData) as [stored|].
  - destruct (Question.internal questionData); cbn [negb].
    + cbn. split; [reflexivity|constructor].
    + pose proof (answerQuestion_promptId (yesNoString stored) None
                    (set_currentQuestion (Some questionData) p)) as [Hid Hquiet].
      unfold after, effects in Hid, Hquiet.
      destruct (answerQuestion (yesNoString stored) None
                  (set_currentQuestion (Some questionData) p)) as [[b p1] es].
      cbn in Hid, Hquiet |- *. rewrite !app_nil_r. now split.
  - cbn. split; [reflexivity|repeat constructor].
Qed.

Lemma runPrompt_enter_promptId (me : nat) (prompt : jsstring) (p : Project) :
  let r := Scheduler.runPrompt_enter me prompt p in
  Forall (fun e => isPromptSend e = false) r.2
  /\ currentPromptId r.1.2 = currentPromptId p
  /\ (r.1.1 = Scheduler.AwaitHistory -> truthyOpt (currentPromptId p) = false).
Proof.
  cbv zeta.
  pose proof (answerQuestion_promptId (js "n") (Some prompt) p) as [Hid Hquiet].
  unfold after, effects in Hid, Hquiet.
  unfold Scheduler.runPrompt_enter. unfold_call.
  destruct (currentQuestion p) as [q|].
  - destruct (answerQuestion (js "n") (Some prompt) p) as [[b p1] es].
    cbn in Hid, Hquiet |- *. destruct b; cbn.
    + rewrite !app_nil_r. queue_side.
    + destruct (truthyOpt (currentPromptId p1)) eqn:Ht; cbn; rewrite !app_nil_r;
        queue_side.
  - cbn. destruct (truthyOpt (currentPromptId p)) eqn:Ht; cbn; queue_side.
Qed.

Lemma promptFinished_no_prompt (p : Project) :
  Forall (fun e => isPromptSend e = false) (effects promptFinished p).
Proof.
  unfold promptFinished, closeCommandOutput. unfold_call.
  destruct (truthyOpt (currentResponseMessageId p)); cbn.
  all: destruct (currentCommand p) as [command|]; cbn.
  all: try (destruct (truthy command); cbn).
  all: try (destruct (commandOutputs p !! command) as [output|]; cbn).
  all: try (destruct (truthy output && truthy (trim output)); cbn).
  all: rewrite ?app_nil_r.
  all: repeat (apply List.Forall_cons; [reflexivity|]).
  all: apply Forall_map, Forall_forall; now intros w _.
Qed.

Lemma killAider_promptId (treeKill : option jsstring) (p : Project) :
  Forall (fun e => isPromptSend e = false) (effects (killAider treeKill) p)
  /\ (currentPromptId (after (killAider treeKill) p) = None
      \/ currentPromptId (after (killAider treeKill) p) = currentPromptId p).
Proof.
  unfold killAider. unfold_call.
  destruct (process p) as [pid|]; [|split; [constructor|now right]].
  destruct treeKill as [err|]; [split; [constructor|now right]|].
  cbn. rewrite ?app_nil_r. split; [|now left].
  apply List.Forall_cons; [reflexivity|]. apply Forall_app. split.
  - apply Forall_map, Forall_forall. now intros w _.
  - repeat constructor.
Qed.

(** A caller that is entering after callbacks ran was entering before. *)
Lemma resume_entering (e : Effect) (cs : list Scheduler.Caller) (j : nat)
    (c : Scheduler.Caller) :
  Scheduler.resume e cs !! j = Some c -> entering c = true ->
  exists c0, cs !! j = Some c0 /\ entering c0 = true.
Proof.
  intros Hj He. destruct e as [| | | | | | | | | | | | |w rs];
    try (exists c; split; [exact Hj|exact He]).
  destruct w as [i|i]; simpl in Hj; rewrite list_lookup_alter in Hj;
    (destruct (decide (i = j)) as [->|Hne]; [|exists c; now split]).
  - destruct (cs !! j) as [c0|] eqn:Hc0; [|discriminate]. cbn in Hj.
    exists c0. split; [reflexivity|].
    unfold entering in *. destruct (Scheduler.pc c0) eqn:Hpc;
      injection Hj as <-; cbn in He; rewrite ?Hpc in He; try discriminate; reflexivity.
  - destruct (cs !! j) as [c0|] eqn:Hc0; [|discriminate]. cbn in Hj.
    exists c0. split; [reflexivity|].
    unfold entering in *. destruct (Scheduler.pc c0) eqn:Hpc;
      injection Hj as <-; cbn in He; rewrite ?Hpc in He; try discriminate; reflexivity.
Qed.

Lemma settle_entering (es : list Effect) (cs : list Scheduler.Caller) (j : nat)
    (c : Scheduler.Caller) :
  Scheduler.settle es cs !! j = Some c -> entering c = true ->
  exists c0, cs !! j = Some c0 /\ entering c0 = true.
Proof.
  revert cs c. induction es as [|e es IH]; intros cs c Hj He.
  - now exists c.
  - rewrite settle_cons in Hj. destruct (IH _ _ Hj He) as (c1 & Hc1 & He1).
    exact (resume_entering _ _ _ _ Hc1 He1).
Qed.

(** A call that leaves the prompt id alone, or clears it, keeps the
    callers serial. *)
Lemma serial_call {A : Type} (m : M A) (w : Scheduler.World) :
  serial w ->
  (currentPromptId (after m (Scheduler.project w)) = None
   \/ Forall (fun e => isInvoke e = false) (effects m (Scheduler.project w))
      /\ currentPromptId (after m (Scheduler.project w))
         = currentPromptId (Scheduler.project w)) ->
  serial (Scheduler.call m w).2.
Proof.
  intros [Hone Hidle] Hcases. unfold Scheduler.call, serial. cbn. split.
  - intros i j ci cj Hi Hj Hei Hej.
    destruct (settle_entering _ _ _ _ Hi Hei) as (ci0 & Hi0 & Hei0).
    destruct (settle_entering _ _ _ _ Hj Hej) as (cj0 & Hj0 & Hej0).
    exact (Hone i j ci0 cj0 Hi0 Hj0 Hei0 Hej0).
  - intros i c Hi Hpc. destruct Hcases as [Hnone|[Hquiet Hsame]].
    + unfold after in Hnone. now rewrite Hnone.
    + unfold effects in Hquiet. rewrite (settle_quiet _ _ Hquiet) in Hi.
      unfold after in Hsame. rewrite Hsame. exact (Hidle i c Hi Hpc).
Qed.

Lemma killAider_cases (treeKill : option jsstring) (p : Project) :
  currentPromptId (after (killAider treeKill) p) = None
  \/ effects (killAider treeKill) p = []
     /\ currentPromptId (after (killAider treeKill) p) = currentPromptId p.
Proof.
  unfold killAider. unfold_call.
  destruct (process p) as [pid|]; [|right; split; reflexivity].
  destruct treeKill as [err|]; [right; split; reflexivity|].
  left. reflexivity.
Qed.

Section SerialFacts.
Variable path_isAbsolute : jsstring -> bool.
Variable path_join : jsstring -> jsstring -> jsstring.

#[local] Abbreviation step'' := (Scheduler.step path_isAbsolute path_join).
#[local] Abbreviation run'' := (Scheduler.run path_isAbsolute path_join).
#[local] Abbreviation routed'' := (Scheduler.routed path_isAbsolute path_join).

Lemma routed_of_trace (ev : Scheduler.Event) (w : Scheduler.World) (es : list Effect) :
  Scheduler.trace (step'' ev w) = Scheduler.trace w ++ es ->
  routed'' ev w = List.filter isPromptSend es.
Proof.
  intros Htrace. unfold Scheduler.routed. rewrite Htrace, drop_app_length. reflexivity.
Qed.

Lemma step_serial (ev : Scheduler.Event) (w : Scheduler.World) :
  serial w ->
  match ev with
  | Scheduler.EvRunPrompt _ _ =>
      Forall (fun c => entering c = false) (Scheduler.callers w)
  | _ => True
  end ->
  serial (step'' ev w).
Proof.
  intros Hserial Hpolite.
  destruct ev as [prompt mode|i timestamp uuid|i| |treeKill|code|q promise|answer userInput].
  - (* a new caller, while nobody is entering *)
    pose proof (runPrompt_enter_queue (length (Scheduler.callers w)) prompt
                  (Scheduler.project w)) as (Hquiet & _ & _).
    pose proof (runPrompt_enter_promptId (length (Scheduler.callers w)) prompt
                  (Scheduler.project w)) as (_ & Hid & Hidle).
    cbv zeta in Hquiet, Hid, Hidle.
    unfold Scheduler.step, Scheduler.with_callers, Scheduler.call, serial. cbn.
    rewrite (settle_quiet _ _ Hquiet). rewrite Forall_forall in Hpolite.
    assert (Hold : forall k c, Scheduler.callers w !! k = Some c -> entering c = false).
    { intros k c Hk. apply Hpolite. apply list_elem_of_lookup. now exists k. }
    split.
    + intros i j ci cj Hi Hj Hei Hej.
      apply lookup_snoc_Some in Hi as [[_ Hi]|[-> _]];
        [rewrite (Hold _ _ Hi) in Hei; discriminate|].
      apply lookup_snoc_Some in Hj as [[_ Hj]|[-> _]];
        [rewrite (Hold _ _ Hj) in Hej; discriminate|].
      reflexivity.
    + intros i c Hi Hpc. rewrite Hid.
      apply lookup_snoc_Some in Hi as [[_ Hi]|[_ <-]].
      * pose proof (Hold _ _ Hi) as Hne. unfold entering in Hne.
        rewrite Hpc in Hne. discriminate.
      * apply Hidle. exact Hpc.
  - (* the history was written: the one entering caller moves on *)
    unfold Scheduler.step.
    destruct (Scheduler.callers w !! i) as [c0|] eqn:Hc0; [|exact Hserial].
    destruct (Scheduler.pc c0) eqn:Hpc0; try exact Hserial.
    pose proof (runPrompt_afterHistory_queue i uuid (Scheduler.prompt c0)
                  (Scheduler.mode c0) (Scheduler.project w)) as (Hquiet & Hnq & _).
    cbv zeta in Hquiet, Hnq.
    destruct Hserial as [Hone Hidle].
    assert (Hc0e : entering c0 = true) by (unfold entering; now rewrite Hpc0).
    unfold Scheduler.with_callers, Scheduler.call, Scheduler.writeHistory, serial. cbn.
    rewrite (settle_quiet _ _ Hquiet).
    assert (Hnone : forall k c,
               alter (fun c => Scheduler.at_pc c
                         (Scheduler.runPrompt_afterHistory i uuid (Scheduler.prompt c0)
                            (Scheduler.mode c0) (Scheduler.project w)).1.1)
                     i (Scheduler.callers w) !! k = Some c ->
               entering c = false).
    { intros k c Hk. rewrite list_lookup_alter in Hk.
      destruct (decide (i = k)) as [->|Hne].
      - rewrite Hc0 in Hk. cbn in Hk. injection Hk as <-.
        unfold entering. cbn.
        assert (Hpcs := Scheduler.runPrompt_afterHistory).
        clear Hpcs. unfold Scheduler.runPrompt_afterHistory. unfold_call.
        destruct (Scheduler.isAgent (Scheduler.mode c0)); reflexivity.
      - destruct (entering c) eqn:Hec; [|reflexivity].
        exfalso. apply Hne. exact (Hone i k c0 c Hc0 Hk Hc0e Hec). }
    split.
    + intros a b ca cb Ha Hb Hea. rewrite (Hnone _ _ Ha) in Hea. discriminate.
    + intros k c Hk Hpc. pose proof (Hnone _ _ Hk) as Hne.
      unfold entering in Hne. rewrite Hpc in Hne. discriminate.
  - (* the agent finished *)
    destruct Hserial as [Hone Hidle].
    unfold Scheduler.step, Scheduler.with_callers, serial. cbn.
    assert (Hback : forall k c,
               alter (fun c => match Scheduler.pc c with
                               | Scheduler.AwaitAgent => Scheduler.at_pc c (Scheduler.Returned [])
                               | _ => c
                               end) i (Scheduler.callers w) !! k = Some c ->
               entering c = true ->
               Scheduler.callers w !! k = Some c).
    { intros k c Hk Hec. rewrite list_lookup_alter in Hk.
      destruct (decide (i = k)) as [->|Hne]; [|exact Hk].
      destruct (Scheduler.callers w !! k) as [c1|]; [|discriminate]. cbn in Hk.
      destruct (Scheduler.pc c1) eqn:Hpc1; injection Hk as <-; try reflexivity.
      unfold entering in Hec. cbn in Hec. discriminate. }
    split.
    + intros a b ca cb Ha Hb Hea Heb.
      exact (Hone a b ca cb (Hback _ _ Ha Hea) (Hback _ _ Hb Heb) Hea Heb).
    + intros k c Hk Hpc. apply (Hidle k c); [|exact Hpc].
      apply Hback; [exact Hk|]. unfold entering. now rewrite Hpc.
  - (* the turn finished *)
    unfold Scheduler.step. apply serial_call; [exact Hserial|]. left.
    destruct (promptFinished_spec (Scheduler.project w)) as (_ & _ & _ & Hid & _).
    exact Hid.
  - (* the worker is stopped *)
    unfold Scheduler.step. apply serial_call; [exact Hserial|].
    destruct (killAider_cases treeKill (Scheduler.project w)) as [Hid|[Heff Hid]].
    + now left.
    + right. rewrite Heff. split; [constructor|exact Hid].
  - unfold Scheduler.step. apply serial_call; [exact Hserial|]. right.
    split; [constructor|reflexivity].
  - unfold Scheduler.step. apply serial_call; [exact Hserial|]. right.
    destruct (askQuestion_queue q promise (Scheduler.project w)) as [_ Hquiet].
    destruct (askQuestion_promptId q promise (Scheduler.project w)) as [Hid _].
    now split.
  - unfold Scheduler.step. apply serial_call; [exact Hserial|]. right.
    destruct (answerQuestion_queue answer userInput (Scheduler.project w)) as [_ Hquiet].
    destruct (answerQuestion_promptId answer userInput (Scheduler.project w)) as [Hid _].
    now split.
Qed.

Lemma step_routes_nothing (ev : Scheduler.Event) (w : Scheduler.World) :
  serial w ->
  truthyOpt (currentPromptId (Scheduler.project w)) = true ->
  routed'' ev w = [].
Proof.
  intros [_ Hidle] Hrunning.
  destruct ev as [prompt mode|i timestamp uuid|i| |treeKill|code|q promise|answer userInput].
  - rewrite (routed_of_trace _ w
               (Scheduler.runPrompt_enter (length (Scheduler.callers w)) prompt
                  (Scheduler.project w)).2) by reflexivity.
    apply filter_none.
    exact (proj1 (runPrompt_enter_promptId _ prompt (Scheduler.project w))).
  - destruct (Scheduler.callers w !! i) as [c0|] eqn:Hc0.
    + destruct (Scheduler.pc c0) eqn:Hpc0;
        try (rewrite (routed_of_trace _ w []);
             [reflexivity|unfold Scheduler.step; rewrite Hc0, Hpc0; now rewrite app_nil_r]).
      rewrite (Hidle i c0 Hc0 Hpc0) in Hrunning. discriminate.
    + rewrite (routed_of_trace _ w []); [reflexivity|].
      unfold Scheduler.step. rewrite Hc0. now rewrite app_nil_r.
  - rewrite (routed_of_trace _ w []); [reflexivity|]. cbn. now rewrite app_nil_r.
  - rewrite (routed_of_trace _ w (promptFinished (Scheduler.project w)).2) by reflexivity.
    apply filter_none, promptFinished_no_prompt.
  - rewrite (routed_of_trace _ w (killAider treeKill (Scheduler.project w)).2) by reflexivity.
    apply filter_none. exact (proj1 (killAider_promptId treeKill (Scheduler.project w))).
  - rewrite (routed_of_trace _ w []); [reflexivity|]. reflexivity.
  - rewrite (routed_of_trace _ w (askQuestion q promise (Scheduler.project w)).2) by reflexivity.
    apply filter_none. exact (proj2 (askQuestion_promptId q promise (Scheduler.project w))).
  - rewrite (routed_of_trace _ w (answerQuestion answer userInput (Scheduler.project w)).2)
      by reflexivity.
    apply filter_none.
    exact (proj2 (answerQuestion_promptId answer userInput (Scheduler.project w))).
Qed.

Lemma run_serial (before rest : list Scheduler.Event) (w : Scheduler.World) :
  serial w ->
  oneAtATime path_isAbsolute path_join (before ++ rest) w ->
  serial (run'' before w)
  /\ oneAtATime path_isAbsolute path_join rest (run'' before w).
Proof.
  revert w. induction before as [|ev before IH]; intros w Hserial Hpolite.
  - now split.
  - cbn [app oneAtATime] in Hpolite. destruct Hpolite as [Hev Hrest].
    cbn. apply IH; [|exact Hrest]. now apply step_serial.
Qed.

(** X25. Callers that come one at a time are served one at a time.
    From a world where at most one caller is entering [runPrompt]
    (queued or writing the history) and no prompt is running while a
    caller is writing the history, in every run in which [runPrompt] is
    called only when no earlier caller is still entering, no prompt
    command is routed while a prompt is running, whatever else happens
    in between (finished turns, questions and answers, a stopped or
    dying worker). *)
Theorem one_at_a_time_single_flight (evs : list Scheduler.Event) (w : Scheduler.World) :
  serial w ->
  oneAtATime path_isAbsolute path_join evs w ->
  singleFlight path_isAbsolute path_join evs w.
Proof.
  intros Hserial Hpolite before ev rest Hsplit. cbv zeta. intros Hrunning.
  subst evs.
  destruct (run_serial before (ev :: rest) w Hserial Hpolite) as [Hs _].
  now apply step_routes_nothing.
Qed.

End SerialFacts.

Lemma one_at_a_time_single_flight_witness :
  singleFlight History.simple_isAbsolute History.simple_join
    Serial.events (Example.world Example.started)
  /\ map Scheduler.pc
         (Scheduler.callers (Example.run Serial.events (Example.world Example.started)))
     = [Scheduler.Returned []; Scheduler.Returned []; Scheduler.AwaitResponses].
Proof.
  split; [|vm_compute; reflexivity].
  apply (one_at_a_time_single_flight History.simple_isAbsolute History.simple_join
           Serial.events (Example.world Example.started)).
  - split.
    + intros i j ci cj Hi. vm_compute in Hi. discriminate.
    + intros i c Hi. vm_compute in Hi. discriminate.
  - vm_compute. repeat split; repeat constructor.
Defined.

(** ** Answers that stay remembered *)

Lemma answerQuestion_table_at (k answer : jsstring) (userInput : option jsstring)
    (p : Project) :
  (remembered answer = true ->
   forall question, currentQuestion p = Some question -> getQuestionKey question <> k) ->
  questionAnswers (after (answerQuestion answer userInput) p) !! k
  = questionAnswers p !! k.
Proof.
  intros Hother. destruct (currentQuestion p) as [q|] eqn:Hq.
  - rewrite (answerQuestion_table _ _ _ _ Hq). fold (remembered answer).
    destruct (remembered answer); [|reflexivity].
    apply lookup_insert_ne. exact (Hother eq_refl q eq_refl).
  - unfold after. now rewrite (answerQuestion_closed _ _ _ Hq).
Qed.

Lemma remembered_yesNo (a : YesNo) : remembered (yesNoString a) = false.
Proof. now destruct a. Qed.

Lemma askQuestion_table (questionData : QuestionData) (promise : nat) (p : Project) :
  questionAnswers (after (askQuestion questionData promise) p) = questionAnswers p.
Proof.
  unfold askQuestion. unfold_call. cbn [questionAnswers set_currentQuestion].
  destruct (questionAnswers p !! getQuestionKey questionData) as [stored|];
    [|reflexivity].
  destruct (Question.internal questionData); cbn [negb]; [reflexivity|].
  pose proof (answerQuestion_table (yesNoString stored) None
                (set_currentQuestion (Some questionData) p) questionData eq_refl)
    as Htable.
  fold (remembered (yesNoString stored)) in Htable.
  rewrite remembered_yesNo in Htable. unfold after in Htable.
  destruct (answerQuestion (yesNoString stored) None
              (set_currentQuestion (Some questionData) p)) as [[b p1] es].
  exact Htable.
Qed.

Lemma runPrompt_enter_table (me : nat) (prompt : jsstring) (p : Project) :
  questionAnswers (Scheduler.runPrompt_enter me prompt p).1.2 = questionAnswers p.
Proof.
  assert (Hn : remembered (js "n") = false) by reflexivity.
  unfold Scheduler.runPrompt_enter. unfold_call.
  destruct (currentQuestion p) as [q|] eqn:Hq.
  - pose proof (answerQuestion_table (js "n") (Some prompt) p q Hq) as Htable.
    fold (remembered (js "n")) in Htable. rewrite Hn in Htable.
    unfold after in Htable.
    destruct (answerQuestion (js "n") (Some prompt) p) as [[b p1] es].
    cbn in Htable |- *. destruct b; cbn; [exact Htable|].
    destruct (truthyOpt (currentPromptId p1)); exact Htable.
  - cbn. now destruct (truthyOpt (currentPromptId p)).
Qed.

Lemma runPrompt_afterHistory_table (me : nat) (uuid prompt : jsstring)
    (mode : option jsstring) (p : Project) :
  questionAnswers (Scheduler.runPrompt_afterHistory me uuid prompt mode p).1.2
  = questionAnswers p.
Proof.
  unfold Scheduler.runPrompt_afterHistory, sendPrompt. unfold_call.
  now destruct (Scheduler.isAgent mode).
Qed.

Lemma promptFinished_table (p : Project) :
  questionAnswers (after promptFinished p) = questionAnswers p.
Proof.
  unfold promptFinished, closeCommandOutput. unfold_call.
  destruct (truthyOpt (currentResponseMessageId p)); cbn.
  all: destruct (currentCommand p) as [command|]; cbn.
  all: try (destruct (truthy command); cbn).
  all: try (destruct (commandOutputs p !! command) as [output|]; cbn).
  all: try (destruct (truthy output && truthy (trim output)); cbn).
  all: reflexivity.
Qed.

Lemma killAider_table (treeKill : option jsstring) (p : Project) :
  questionAnswers (after (killAider treeKill) p) = questionAnswers p.
Proof.
  unfold killAider. unfold_call.
  destruct (process p) as [pid|]; [|reflexivity].
  now destruct treeKill.
Qed.

Section RecallFacts.
Variable path_isAbsolute : jsstring -> bool.
Variable path_join : jsstring -> jsstring -> jsstring.

#[local] Abbreviation step3 := (Scheduler.step path_isAbsolute path_join).
#[local] Abbreviation run3 := (Scheduler.run path_isAbsolute path_join).

(** A step writes under a key only by a remembered answer to a question
    with that key. *)
Lemma step_table (k : jsstring) (ev : Scheduler.Event) (w : Scheduler.World) :
  untouched path_isAbsolute path_join k [ev] w ->
  questionAnswers (Scheduler.project (step3 ev w)) !! k
  = questionAnswers (Scheduler.project w) !! k.
Proof.
  intros [Hev _].
  destruct ev as [prompt mode|i timestamp uuid|i| |treeKill|code|q promise|answer userInput];
    unfold Scheduler.step.
  - cbn. now rewrite runPrompt_enter_table.
  - destruct (Scheduler.callers w !! i) as [c0|]; [|reflexivity].
    destruct (Scheduler.pc c0); try reflexivity.
    cbn. now rewrite runPrompt_afterHistory_table.
  - reflexivity.
  - cbn. now rewrite <- (promptFinished_table (Scheduler.project w)).
  - cbn. now rewrite <- (killAider_table treeKill (Scheduler.project w)).
  - reflexivity.
  - cbn. now rewrite <- (askQuestion_table q promise (Scheduler.project w)).
  - cbn. exact (answerQuestion_table_at k answer userInput (Scheduler.project w) Hev).
Qed.

Lemma run_table (k : jsstring) (evs : list Scheduler.Event) (w : Scheduler.World) :
  untouched path_isAbsolute path_join k evs w ->
  questionAnswers (Scheduler.project (run3 evs w)) !! k
  = questionAnswers (Scheduler.project w) !! k.
Proof.
  revert w. induction evs as [|ev evs IH]; intros w Hkeep; [reflexivity|].
  destruct Hkeep as [Hev Hrest]. cbn [Scheduler.run fold_left].
  fold (run3 evs (step3 ev w)). rewrite (IH _ Hrest).
  apply step_table. now split.
Qed.

(** X3. An answer [d] (don't ask again) or [a] (always), in either case
    of the letter, stays remembered: after it was given to the open
    question, and after any run of events in which no [d] or [a] is
    answered to a question with the same key, [askQuestion] for a
    question with that key returns at once, resolved with [n] for [d]
    and [y] for [a], and does not show the question to the UI. The
    events are calls of [runPrompt] and the ends of their history
    writes, ends of the agent, finished turns, a stopped or dying
    worker, questions and answers; a restart of the worker is not among
    them. *)
Theorem answer_remembered_roundtrip (answer : jsstring) (userInput : option jsstring)
    (w : Scheduler.World) (asked again : QuestionData) (promise : nat)
    (evs : list Scheduler.Event) :
  currentQuestion (Scheduler.project w) = Some asked ->
  remembered answer = true ->
  getQuestionKey again = getQuestionKey asked ->
  let answered := step3 (Scheduler.EvAnswerQuestion answer userInput) w in
  untouched path_isAbsolute path_join (getQuestionKey asked) evs answered ->
  let p' := Scheduler.project (run3 evs answered) in
  result (askQuestion again promise) p'
  = AlreadyResolved (if eqb (toLowerCase answer) (js "a") then js "y" else js "n") None
  /\ forall question, UiAskQuestion question ∉ effects (askQuestion again promise) p'.
Proof.
  intros Hq Hstore Hkey. cbv zeta. intros Hkeep.
  assert (Hlookup : questionAnswers
                      (Scheduler.project
                         (run3 evs (step3 (Scheduler.EvAnswerQuestion answer userInput) w)))
                    !! getQuestionKey again
                    = Some (if eqb (toLowerCase answer) (js "a") then Yes else No)).
  { rewrite Hkey, (run_table _ _ _ Hkeep).
    change (Scheduler.project (step3 (Scheduler.EvAnswerQuestion answer userInput) w))
      with (after (answerQuestion answer userInput) (Scheduler.project w)).
    unfold remembered in Hstore.
    rewrite (answerQuestion_table _ _ _ _ Hq), Hstore, lookup_insert_eq.
    destruct (eqb (toLowerCase answer) (js "a")) eqn:Ha; [reflexivity|].
    destruct (eqb (toLowerCase answer) (js "y")) eqn:Hy; [|reflexivity].
    simpl in Hstore. rewrite orb_false_r in Hstore.
    apply eqb_eq in Hstore, Hy. rewrite Hy in Hstore. discriminate. }
  destruct (askQuestion_stored again promise _ _ Hlookup) as [Hres Hquiet].
  split; [|exact Hquiet].
  rewrite Hres. now destruct (eqb (toLowerCase answer) (js "a")).
Qed.

End RecallFacts.

Lemma answer_remembered_roundtrip_witness :
  let w := Example.run
             (Scheduler.EvAnswerQuestion (js "A") None :: Recall.events)
             (Example.world Sample.asking) in
  result (askQuestion Example.addFile 3) (Scheduler.project w)
  = AlreadyResolved (js "y") None
  /\ questionAnswers (Scheduler.project w) !! getQuestionKey Example.runShell = Some No.
Proof.
  cbv zeta. split; [|vm_compute; reflexivity].
  destruct (answer_remembered_roundtrip History.simple_isAbsolute History.simple_join
              (js "A") None (Example.world Sample.asking)
              Example.addFile Example.addFile 3 Recall.events) as [Hres _].
  - reflexivity.
  - reflexivity.
  - reflexivity.
  - unfold Recall.events. cbn [untouched].
    repeat split; try exact I.
    intros _ question Hq Hk. vm_compute in Hq. injection Hq as <-.
    vm_compute in Hk. discriminate.
  - exact Hres.
Defined.
